(** * Multiavatar-Go: the avatar derivation pipeline

    A shallow embedding of [multiavatar.go] (package [multiavatar]): the
    functional options that build a [config], the seed extraction from the
    SHA-256 of the input, the per-part version and theme selection with its
    overrides, the color substitution into the template fragments and the
    assembly of the final document.

    Go strings are byte sequences: they are modelled by [string], whose
    characters are the 256 values of [ascii].  A Go run-time panic (slice or
    index out of range) is the value [Panics] of the type [outcome]. *)

From Stdlib Require Import ZArith List Ascii String Bool Lia SpecFloat DecimalString.
From stdpp Require Import base option gmap strings.

Import ListNotations.
Local Open Scope string_scope.
Local Open Scope list_scope.

(** ** Outcomes of Go code that may panic *)

Inductive outcome (A : Type) : Type :=
| Returns (a : A)
| Panics.
Arguments Returns {A} a.
Arguments Panics {A}.

Definition obind {A B : Type} (k : A -> outcome B) (m : outcome A) : outcome B :=
  match m with
  | Returns a => k a
  | Panics => Panics
  end.

#[export] Instance outcome_mbind : MBind outcome := @obind.
#[export] Instance outcome_mret : MRet outcome := @Returns.

(** ** crypto/sha256 and encoding/hex

    [sha256.Sum256] is the Go standard library's SHA-256; it is modelled
    after FIPS 180-4 on 32-bit words held in [Z]. *)

Module Sha256.
Local Open Scope Z_scope.

Definition mask32 : Z := 0xffffffff.
Definition add32 (x y : Z) : Z := Z.land (x + y) mask32.
Definition rotr (n x : Z) : Z :=
  Z.lor (Z.shiftr x n) (Z.land (Z.shiftl x (32 - n)) mask32).
Definition not32 (x : Z) : Z := Z.lxor x mask32.

Definition Ch (x y z : Z) : Z := Z.lxor (Z.land x y) (Z.land (not32 x) z).
Definition Maj (x y z : Z) : Z :=
  Z.lxor (Z.lxor (Z.land x y) (Z.land x z)) (Z.land y z).
Definition bigSigma0 (x : Z) : Z := Z.lxor (Z.lxor (rotr 2 x) (rotr 13 x)) (rotr 22 x).
Definition bigSigma1 (x : Z) : Z := Z.lxor (Z.lxor (rotr 6 x) (rotr 11 x)) (rotr 25 x).
Definition smallSigma0 (x : Z) : Z := Z.lxor (Z.lxor (rotr 7 x) (rotr 18 x)) (Z.shiftr x 3).
Definition smallSigma1 (x : Z) : Z := Z.lxor (Z.lxor (rotr 17 x) (rotr 19 x)) (Z.shiftr x 10).

(** The round constants are the first 32 bits of the fractional parts of
    the cube roots of the first 64 primes, the initial hash value those of
    the square roots of the first 8. *)
Definition isPrime (n : nat) : bool :=
  forallb (fun d => negb (n mod d =? 0)%nat) (seq 2 (n - 2)).

Definition primes : list Z := map Z.of_nat (List.filter isPrime (seq 2 310)).

(** The integer cube root, bit by bit from bit [bits - 1] down. *)
Fixpoint cubeRoot (bits : nat) (n r : Z) : Z :=
  match bits with
  | O => r
  | S b =>
      let r' := r + 2 ^ Z.of_nat b in
      cubeRoot b n (if r' * r' * r' <=? n then r' else r)
  end.

Definition K : list Z :=
  map (fun p => Z.land (cubeRoot 36 (p * 2 ^ 96) 0) mask32) primes.

Definition H0 : list Z :=
  map (fun p => Z.land (Z.sqrt (p * 2 ^ 64)) mask32) (firstn 8 primes).

(** The message: the bytes, one bit set, zeros up to 56 modulo 64, and
    the length in bits as 8 bytes, most significant first. *)
Definition be_bytes (n : nat) (x : Z) : list Z :=
  map (fun i => Z.land (Z.shiftr x (8 * Z.of_nat i)) 0xff) (rev (seq 0 n)).

Definition pad (msg : list Z) : list Z :=
  let len := Z.of_nat (List.length msg) in
  let zeros := Z.to_nat ((55 - len) mod 64) in
  msg ++ [0x80] ++ repeat 0 zeros ++ be_bytes 8 (8 * len).

Fixpoint be_words (fuel : nat) (bytes : list Z) : list Z :=
  match fuel, bytes with
  | S f, b0 :: b1 :: b2 :: b3 :: rest =>
      (Z.shiftl b0 24 + Z.shiftl b1 16 + Z.shiftl b2 8 + b3) :: be_words f rest
  | _, _ => []
  end.

(** The message schedule: [w] holds the last 16 words, oldest first. *)
Fixpoint schedule (n : nat) (w : list Z) : list Z :=
  match n, w with
  | S n', w0 :: rest =>
      let wt := add32 (add32 (smallSigma1 (nth 14 w 0)) (nth 9 w 0))
                      (add32 (smallSigma0 (nth 1 w 0)) w0) in
      wt :: schedule n' (rest ++ [wt])
  | _, _ => []
  end.

Record regs := Regs { ra : Z; rb : Z; rc : Z; rd : Z; re : Z; rf : Z; rg : Z; rh : Z }.

Definition round (s : regs) (kw : Z * Z) : regs :=
  let t1 := add32 (add32 (add32 (rh s) (bigSigma1 (re s)))
                         (add32 (Ch (re s) (rf s) (rg s)) (fst kw))) (snd kw) in
  let t2 := add32 (bigSigma0 (ra s)) (Maj (ra s) (rb s) (rc s)) in
  Regs (add32 t1 t2) (ra s) (rb s) (rc s) (add32 (rd s) t1) (re s) (rf s) (rg s).

Definition regs_of (h : list Z) : regs :=
  Regs (nth 0 h 0) (nth 1 h 0) (nth 2 h 0) (nth 3 h 0)
       (nth 4 h 0) (nth 5 h 0) (nth 6 h 0) (nth 7 h 0).

Definition list_of (s : regs) : list Z :=
  [ra s; rb s; rc s; rd s; re s; rf s; rg s; rh s].

Definition compress (h : list Z) (block : list Z) : list Z :=
  let w16 := be_words 16 block in
  let w := w16 ++ schedule 48 w16 in
  let s := fold_left round (combine K w) (regs_of h) in
  map (fun p => add32 (fst p) (snd p)) (combine h (list_of s)).

Fixpoint blocks (fuel : nat) (h : list Z) (bytes : list Z) : list Z :=
  match fuel with
  | O => h
  | S f =>
      match bytes with
      | [] => h
      | _ => blocks f (compress h (firstn 64 bytes)) (skipn 64 bytes)
      end
  end.

Definition Sum256 (msg : list Z) : list Z :=
  let p := pad msg in
  flat_map (be_bytes 4) (blocks (List.length p) H0 p).

End Sha256.

(** [[]byte(input)]: the bytes of a Go string. *)
Definition bytes_of_string (s : string) : list Z :=
  map (fun c => Z.of_N (N_of_ascii c)) (list_ascii_of_string s).

Definition sha256_Sum256 (input : string) : list Z :=
  Sha256.Sum256 (bytes_of_string input).

Definition hexdigit (n : Z) : ascii :=
  nth (Z.to_nat n) (list_ascii_of_string "0123456789abcdef") "0"%char.

(** [hex.EncodeToString]: two lowercase hexadecimal characters per byte. *)
Fixpoint hex_EncodeToString (bytes : list Z) : string :=
  match bytes with
  | [] => ""
  | b :: rest =>
      String (hexdigit (Z.shiftr b 4))
        (String (hexdigit (Z.land b 0x0f%Z)) (hex_EncodeToString rest))
  end.

(** ** The Go library functions the package calls

    Each is modelled on bytes.  Where the Go function decodes UTF-8, the
    model says how that shows on the bytes. *)

Definition byteval (c : ascii) : N := N_of_ascii c.

Definition isDigit (c : ascii) : bool :=
  ((48 <=? byteval c) && (byteval c <=? 57))%N.

Definition string_drop (n : nat) (s : string) : string :=
  substring n (String.length s - n) s.

Definition string_rev (s : string) : string :=
  string_of_list_ascii (rev (list_ascii_of_string s)).

(** [regexp.MustCompile(`[^0-9]`).ReplaceAllString(s, "")]: every character
    that is not a decimal digit is deleted.  The bytes of a character that
    is not ASCII are all above 127, so the deletion is byte by byte. *)
Fixpoint stripNonDigits (s : string) : string :=
  match s with
  | "" => ""
  | String c r => if isDigit c then String c (stripNonDigits r) else stripNonDigits r
  end.

(** [strings.TrimSpace]: leading and trailing white space is removed, that
    is the six ASCII spaces and the UTF-8 encodings of the other runes of
    [unicode.IsSpace]: U+0085, U+00A0, U+1680, U+2000 to U+200A, U+2028,
    U+2029, U+202F, U+205F and U+3000. *)
Definition asciiSpace (c : ascii) : bool :=
  let n := byteval c in
  ((n =? 9) || (n =? 10) || (n =? 11) || (n =? 12) || (n =? 13) || (n =? 32))%N.

Definition spaceRune2 (a b : ascii) : bool :=
  ((byteval a =? 0xC2) && ((byteval b =? 0x85) || (byteval b =? 0xA0)))%N.

Definition spaceRune3 (a b c : ascii) : bool :=
  let '(x, y, z) := (byteval a, byteval b, byteval c) in
  (((x =? 0xE1) && (y =? 0x9A) && (z =? 0x80))
   || ((x =? 0xE2) && (y =? 0x80)
       && (((0x80 <=? z) && (z <=? 0x8A)) || (z =? 0xA8) || (z =? 0xA9) || (z =? 0xAF)))
   || ((x =? 0xE2) && (y =? 0x81) && (z =? 0x9F))
   || ((x =? 0xE3) && (y =? 0x80) && (z =? 0x80)))%N.

Fixpoint trimLeftSpace (s : string) : string :=
  match s with
  | String a r =>
      if asciiSpace a then trimLeftSpace r
      else match r with
           | String b r2 =>
               if spaceRune2 a b then trimLeftSpace r2
               else match r2 with
                    | String c r3 => if spaceRune3 a b c then trimLeftSpace r3 else s
                    | "" => s
                    end
           | "" => s
           end
  | "" => ""
  end.

(** The same on the reversed string, for the trailing end. *)
Fixpoint trimLeftSpaceRev (s : string) : string :=
  match s with
  | String a r =>
      if asciiSpace a then trimLeftSpaceRev r
      else match r with
           | String b r2 =>
               if spaceRune2 b a then trimLeftSpaceRev r2
               else match r2 with
                    | String c r3 => if spaceRune3 c b a then trimLeftSpaceRev r3 else s
                    | "" => s
                    end
           | "" => s
           end
  | "" => ""
  end.

Definition strings_TrimSpace (s : string) : string :=
  string_rev (trimLeftSpaceRev (string_rev (trimLeftSpace s))).

(** [strings.ToUpper] and [strings.ToLower] have a path for strings that
    are all ASCII; any other string goes through the Unicode case tables
    ([strings.Map] with [unicode.ToUpper] or [unicode.ToLower]), which are
    parameters here. *)
Fixpoint isASCII (s : string) : bool :=
  match s with
  | "" => true
  | String c r => (byteval c <? 128)%N && isASCII r
  end.

Definition upperByte (c : ascii) : ascii :=
  if ((97 <=? byteval c) && (byteval c <=? 122))%N
  then ascii_of_N (byteval c - 32) else c.

Definition lowerByte (c : ascii) : ascii :=
  if ((65 <=? byteval c) && (byteval c <=? 90))%N
  then ascii_of_N (byteval c + 32) else c.

Fixpoint string_map (f : ascii -> ascii) (s : string) : string :=
  match s with
  | "" => ""
  | String c r => String (f c) (string_map f r)
  end.

Definition strings_ToUpper (mapUpper : string -> string) (s : string) : string :=
  if isASCII s then string_map upperByte s else mapUpper s.

Definition strings_ToLower (mapLower : string -> string) (s : string) : string :=
  if isASCII s then string_map lowerByte s else mapLower s.

(** [strconv.Atoi], the error dropped as the callers drop it: 0 on a
    syntax error, the nearest bound of a 64-bit [int] on a range error. *)
Definition digitVal (c : ascii) : option Z :=
  if isDigit c then Some (Z.of_N (byteval c) - 48)%Z else None.

Fixpoint parseDigits (acc : Z) (s : string) : option Z :=
  match s with
  | "" => Some acc
  | String c r =>
      match digitVal c with
      | Some d => parseDigits (10 * acc + d)%Z r
      | None => None
      end
  end.

Definition clampInt (n : Z) : Z :=
  Z.max (- 2 ^ 63) (Z.min (2 ^ 63 - 1) n).

Definition strconv_Atoi (s : string) : Z :=
  match s with
  | "" => 0%Z
  | String c r =>
      let neg := Ascii.eqb c "-" in
      let body := if neg || Ascii.eqb c "+" then r else s in
      match body with
      | "" => 0%Z
      | _ => match parseDigits 0 body with
             | Some n => clampInt (if neg then - n else n)
             | None => 0%Z
             end
      end
  end.

(** [fmt.Sprintf("%02d", n)]: decimal, padded with zeros to width 2, the
    sign counting for the width. *)
Definition decimalOf (n : Z) : string :=
  DecimalString.NilZero.string_of_uint (N.to_uint (Z.to_N n)).

Definition fmt_Sprintf_02d (n : Z) : string :=
  if (n <? 0)%Z then String "-" (decimalOf (- n))
  else let d := decimalOf n in
       if (String.length d <? 2)%nat then String "0" d else d.

(** [float64] arithmetic is IEEE 754 binary64, round to nearest even. *)
Module Float64.
Local Open Scope Z_scope.

Definition prec : Z := 53.
Definition emax : Z := 1024.

Definition of_int (n : Z) : spec_float := binary_normalize prec emax n 0 false.
Definition mul : spec_float -> spec_float -> spec_float := SFmul prec emax.
Definition div : spec_float -> spec_float -> spec_float := SFdiv prec emax.

(** [math.Round]: the nearest integer, halves away from zero. *)
Definition Round (x : spec_float) : spec_float :=
  match x with
  | S754_finite s m e =>
      if 0 <=? e then x
      else
        let d := 2 ^ (- e) in
        let q := Z.pos m / d in
        let n := if d <=? 2 * (Z.pos m mod d) then q + 1 else q in
        if n =? 0 then S754_zero s
        else binary_normalize prec emax (if s then - n else n) 0 s
  | _ => x
  end.

(** [int(x)]: the fraction is dropped; a value that does not fit a
    64-bit [int] gives the lowest one, as on amd64. *)
Definition to_int (x : spec_float) : Z :=
  match x with
  | S754_zero _ => 0
  | S754_finite s m e =>
      let a := if 0 <=? e then Z.pos m * 2 ^ e else Z.pos m / 2 ^ (- e) in
      let v := if s then - a else a in
      if (- 2 ^ 63 <=? v) && (v <? 2 ^ 63) then v else - 2 ^ 63
  | _ => - 2 ^ 63
  end.
End Float64.

(** [regexp.MustCompile(`#(.*?);`)].  A match begins at a ['#'] and runs to
    the first [';'] after it, with no line feed in between (the dot of the
    pattern does not match a line feed). *)
Definition LF : ascii := "010".

Fixpoint matchBody (s : string) : option (string * string) :=
  match s with
  | "" => None
  | String c r =>
      if Ascii.eqb c ";" then Some (String c "", r)
      else if Ascii.eqb c LF then None
      else match matchBody r with
           | Some (b, rest) => Some (String c b, rest)
           | None => None
           end
  end.

Definition matchAt (s : string) : option (string * string) :=
  match s with
  | String c r =>
      if Ascii.eqb c "#" then
        match matchBody r with
        | Some (b, rest) => Some (String c b, rest)
        | None => None
        end
      else None
  | "" => None
  end.

(** [FindAllString(s, -1)]: the matches from left to right, the search going
    on after the end of each match. *)
Fixpoint findAllFrom (fuel : nat) (s : string) : list string :=
  match fuel with
  | O => []
  | S f =>
      match s with
      | "" => []
      | String _ r =>
          match matchAt s with
          | Some (tok, rest) => tok :: findAllFrom f rest
          | None => findAllFrom f r
          end
      end
  end.

Definition FindAllString (s : string) : list string :=
  findAllFrom (String.length s) s.

(** [strings.Replace(s, old, new, 1)]: the first occurrence of [old]. *)
Fixpoint strings_Replace1 (s old new : string) : string :=
  if String.prefix old s then new +:+ string_drop (String.length old) s
  else match s with
       | "" => ""
       | String c r => String c (strings_Replace1 r old new)
       end.

(** ** The package: configuration, options and generation *)

(** [config]: the maps are keyed by part name.  A nil map and an empty map
    read the same, and both are the empty [gmap]. *)
Record config := Config {
  withoutBackground : bool;
  selectedTheme : option string;
  forcePartV : gmap string string;
  allowedVersions : gmap string (list string);
  partTheme : gmap string string;
  allowedThemes : gmap string (list string);
  disabledParts : gmap string bool;
  overrideColors : gmap string (list string)
}.

(** [&config{}] *)
Definition zeroConfig : config :=
  Config false None ∅ ∅ ∅ ∅ ∅ ∅.

(** [Option]: a caller outside the package cannot name [config], so the
    option values it can pass are the ones the constructors build. *)
Inductive Option : Type :=
| WithTheme (theme : string)
| WithPartVersion (partName partVersion : string)
| WithPartColors (partName : string) (colors : list string)
| WithPartTheme (partName theme : string)
| WithAllowedThemes (partName : string) (themesList : list string)
| WithoutPart (partName : string)
| WithAllowedVersions (partName : string) (versions : list string)
| WithGender (gender : string)
| WithoutBackground.

Definition partNames : list string := ["env"; "clo"; "head"; "mouth"; "eyes"; "top"].

(** [switch pn { case "env", "clo", "head", "mouth", "eyes", "top": ... }] *)
Definition knownPart (pn : string) : bool :=
  existsb (String.eqb pn) partNames.

Definition isThemeLetter (t : string) : bool :=
  String.eqb t "A" || String.eqb t "B" || String.eqb t "C".

Definition femaleSign : string := String "226" (String "153" (String "128" "")).
Definition maleSign : string := String "226" (String "153" (String "130" "")).

Definition isFemale (g : string) : bool :=
  existsb (String.eqb g) ["female"; "woman"; "girl"; "f"; femaleSign].

Definition isMale (g : string) : bool :=
  existsb (String.eqb g) ["male"; "man"; "boy"; "m"; maleSign].

(** The map [{"env": 0, "clo": 1, "head": 2, "mouth": 3, "eyes": 4, "top": 5}]
    read at [partName]: 0 for a name that is not a key. *)
Definition partIndexOf (partName : string) : Z :=
  if String.eqb partName "clo" then 1
  else if String.eqb partName "head" then 2
  else if String.eqb partName "mouth" then 3
  else if String.eqb partName "eyes" then 4
  else if String.eqb partName "top" then 5
  else 0.

(** [l[i]] on a slice: out of range is a panic. *)
Definition go_index {A : Type} (l : list A) (i : Z) : outcome A :=
  if (i <? 0)%Z then Panics
  else match nth_error l (Z.to_nat i) with
       | Some a => Returns a
       | None => Panics
       end.

(** [s[lo:hi]] on a string. *)
Definition go_slice (s : string) (lo hi : nat) : outcome string :=
  if (lo <=? hi)%nat && (hi <=? String.length s)%nat
  then Returns (substring lo (hi - lo) s)
  else Panics.

Definition openTag : string :=
  "<svg xmlns=" +:+ String "034" "http://www.w3.org/2000/svg" +:+ String "034" ""
  +:+ " viewBox=" +:+ String "034" "0 0 231 231" +:+ String "034" ">".

Definition closeTag : string := "</svg>".

(** The Unicode case tables, used by [strings.ToUpper] and
    [strings.ToLower] on strings that are not all ASCII. *)
Class CaseTables := {
  mapUpper : string -> string;
  mapLower : string -> string
}.

(** Modelled from the spec: the catalog, of which the source files hold
    only the uses.  [themes] is the Go map of maps
    [themes[partV][theme][partName]] to the colors; [parts] holds a row of
    six template fragments per version, read as [parts[partID][partIndex]]. *)
Class Catalog := {
  themes : gmap string (gmap string (gmap string (list string)));
  parts : list (list string)
}.

Section Multiavatar.

Context {tables : CaseTables} {catalog : Catalog}.

Definition ToUpper : string -> string := strings_ToUpper mapUpper.
Definition ToLower : string -> string := strings_ToLower mapLower.

(** *** The options *)

Definition applyOption (o : Option) (c : config) : config :=
  match o with
  | WithTheme theme =>
      let t := ToUpper (strings_TrimSpace theme) in
      if isThemeLetter t
      then Config (withoutBackground c) (Some t) (forcePartV c) (allowedVersions c)
                  (partTheme c) (allowedThemes c) (disabledParts c) (overrideColors c)
      else c
  | WithPartVersion partName partVersion =>
      let pn := strings_TrimSpace partName in
      let pv := strings_TrimSpace partVersion in
      if knownPart pn && (String.length pv =? 2)%nat
      then Config (withoutBackground c) (selectedTheme c) (<[pn := pv]> (forcePartV c))
                  (allowedVersions c) (partTheme c) (allowedThemes c) (disabledParts c)
                  (overrideColors c)
      else c
  | WithPartColors partName colors =>
      let pn := strings_TrimSpace partName in
      if knownPart pn
      then Config (withoutBackground c) (selectedTheme c) (forcePartV c) (allowedVersions c)
                  (partTheme c) (allowedThemes c) (disabledParts c)
                  (<[pn := map strings_TrimSpace colors]> (overrideColors c))
      else c
  | WithPartTheme partName theme =>
      let pn := strings_TrimSpace partName in
      let t := ToUpper (strings_TrimSpace theme) in
      if knownPart pn && isThemeLetter t
      then Config (withoutBackground c) (selectedTheme c) (forcePartV c) (allowedVersions c)
                  (<[pn := t]> (partTheme c)) (allowedThemes c) (disabledParts c)
                  (overrideColors c)
      else c
  | WithAllowedThemes partName themesList =>
      let pn := strings_TrimSpace partName in
      let tl := List.filter isThemeLetter
                  (map (fun t => ToUpper (strings_TrimSpace t)) themesList) in
      if knownPart pn && (0 <? List.length tl)%nat
      then Config (withoutBackground c) (selectedTheme c) (forcePartV c) (allowedVersions c)
                  (partTheme c) (<[pn := tl]> (allowedThemes c)) (disabledParts c)
                  (overrideColors c)
      else c
  | WithoutPart partName =>
      let pn := strings_TrimSpace partName in
      if knownPart pn
      then Config (withoutBackground c) (selectedTheme c) (forcePartV c) (allowedVersions c)
                  (partTheme c) (allowedThemes c) (<[pn := true]> (disabledParts c))
                  (overrideColors c)
      else c
  | WithAllowedVersions partName versions =>
      let pn := strings_TrimSpace partName in
      let vlist := List.filter (fun v => (String.length v =? 2)%nat)
                     (map strings_TrimSpace versions) in
      if knownPart pn && (0 <? List.length vlist)%nat
      then Config (withoutBackground c) (selectedTheme c) (forcePartV c)
                  (<[pn := vlist]> (allowedVersions c))
                  (partTheme c) (allowedThemes c) (disabledParts c) (overrideColors c)
      else c
  | WithGender gender =>
      let g := ToLower (strings_TrimSpace gender) in
      if isFemale g then
        Config (withoutBackground c) (selectedTheme c) (forcePartV c)
               (<["eyes" := ["03"; "11"]]>
                  (<["top" := ["01"; "03"; "07"; "10"]]> (allowedVersions c)))
               (<["eyes" := "C"]> (<["top" := "C"]> (partTheme c)))
               (<["top" := ["A"; "C"]]> (allowedThemes c))
               (disabledParts c) (overrideColors c)
      else if isMale g then
        Config (withoutBackground c) (selectedTheme c) (forcePartV c)
               (<["eyes" := ["09"; "10"]]>
                  (<["top" := ["04"; "05"; "14"]]> (allowedVersions c)))
               (<["eyes" := "B"]> (<["top" := "B"]> (partTheme c)))
               (<["top" := ["A"; "B"]]> (allowedThemes c))
               (disabledParts c) (overrideColors c)
      else
        Config (withoutBackground c) (selectedTheme c) (forcePartV c)
               (<["eyes" := ["03"; "09"; "10"; "11"]]>
                  (<["top" := ["01"; "03"; "04"; "05"; "07"; "10"; "14"]]> (allowedVersions c)))
               (partTheme c)
               (<["top" := ["A"; "B"; "C"]]> (allowedThemes c))
               (disabledParts c) (overrideColors c)
  | WithoutBackground =>
      Config true (selectedTheme c) (forcePartV c) (allowedVersions c)
             (partTheme c) (allowedThemes c) (disabledParts c) (overrideColors c)
  end.

(** The convenience options. *)
Definition WithSkinColor (hex : string) : Option :=
  WithPartColors "head" [strings_TrimSpace hex].
Definition WithEyesColors (colors : list string) : Option := WithPartColors "eyes" colors.
Definition WithTopColors (colors : list string) : Option := WithPartColors "top" colors.
Definition WithEnvColor (hex : string) : Option :=
  WithPartColors "env" [strings_TrimSpace hex].
Definition WithClothesColors (colors : list string) : Option := WithPartColors "clo" colors.
Definition WithMouthColors (colors : list string) : Option := WithPartColors "mouth" colors.
Definition WithAllowedHeadVersions (versions : list string) : Option :=
  WithAllowedVersions "head" versions.
Definition WithAllowedEyesVersions (versions : list string) : Option :=
  WithAllowedVersions "eyes" versions.
Definition WithAllowedTopVersions (versions : list string) : Option :=
  WithAllowedVersions "top" versions.

(** [for _, opt := range opts { opt(cfg) }] *)
Definition applyOptions (opts : list Option) : config :=
  fold_left (fun c o => applyOption o c) opts zeroConfig.

(** *** The fragment renderer *)

(** The loop over the matches: [i] is the index of the first of
    [matches], [resultFinal] the string so far. *)
Fixpoint replaceLoop (colors : list string) (i : nat) (matches : list string)
         (resultFinal : string) : string :=
  match matches with
  | [] => resultFinal
  | placeholder :: rest =>
      replaceLoop colors (S i) rest
        (match nth_error colors i with
         | Some color => strings_Replace1 resultFinal placeholder (color +:+ ";")
         | None => resultFinal
         end)
  end.

Definition replacePlaceholders (svgString : string) (colors : list string) : string :=
  replaceLoop colors 0 (FindAllString svgString) svgString.

(** [themes[partV][theme][partName]] with its [ok]: a missing key of an
    outer map gives a nil inner map, which has no key. *)
Definition themeColors (partV theme partName : string) : option (list string) :=
  match themes !! partV with
  | Some byTheme =>
      match byTheme !! theme with
      | Some byPart => byPart !! partName
      | None => None
      end
  | None => None
  end.

Definition getFinalPartWithOverride (partName partV theme : string)
           (override : list string) : outcome string :=
  match themeColors partV theme partName with
  | None => Returns ""
  | Some catalogColors =>
      let colors := if (0 <? List.length override)%nat then override else catalogColors in
      let partID := strconv_Atoi partV in
      let partIndex := partIndexOf partName in
      row ← go_index parts partID;
      svgString ← go_index row partIndex;
      Returns (replacePlaceholders svgString colors)
  end.

(** *** The feature resolver *)

(** Step 4b: [int(math.Round(float64(val) * 47 / 100))] *)
Definition scale47 (val : Z) : Z :=
  Float64.to_int
    (Float64.Round
       (Float64.div (Float64.mul (Float64.of_int val) (Float64.of_int 47))
                    (Float64.of_int 100))).

(** Step 4c: the version and the theme the seed gives. *)
Definition defaultSelection (val : Z) : string * string :=
  let nr := scale47 val in
  if (31 <? nr)%Z then (fmt_Sprintf_02d (nr - 32), "C")
  else if (15 <? nr)%Z then (fmt_Sprintf_02d (nr - 16), "B")
  else (fmt_Sprintf_02d nr, "A").

(** The overrides of the theme, then of the version. *)
Definition resolveTheme (cfg : config) (name : string) (val : Z) (theme0 : string)
  : outcome string :=
  let theme := match selectedTheme cfg with
               | Some t => t
               | None => theme0
               end in
  match partTheme cfg !! name with
  | Some pt => Returns pt
  | None =>
      match allowedThemes cfg !! name with
      | Some allowedT =>
          if (0 <? List.length allowedT)%nat
          then go_index allowedT (Z.rem val (Z.of_nat (List.length allowedT)))
          else Returns theme
      | None => Returns theme
      end
  end.

Definition resolveVersion (cfg : config) (name : string) (val : Z) (partV0 : string)
  : outcome string :=
  match forcePartV cfg !! name with
  | Some forced =>
      if (String.length forced =? 2)%nat then Returns forced
      else match allowedVersions cfg !! name with
           | Some allowed =>
               if (0 <? List.length allowed)%nat
               then go_index allowed (Z.rem val (Z.of_nat (List.length allowed)))
               else Returns partV0
           | None => Returns partV0
           end
  | None =>
      match allowedVersions cfg !! name with
      | Some allowed =>
          if (0 <? List.length allowed)%nat
          then go_index allowed (Z.rem val (Z.of_nat (List.length allowed)))
          else Returns partV0
      | None => Returns partV0
      end
  end.

(** Steps 4b and 4c with the overrides: the pair (version, theme) of a
    part whose raw value is [val]. *)
Definition resolvePart (cfg : config) (name : string) (val : Z)
  : outcome (string * string) :=
  let '(partV0, theme0) := defaultSelection val in
  theme ← resolveTheme cfg name val theme0;
  partV ← resolveVersion cfg name val partV0;
  Returns (partV, theme).

(** Steps 4b to 4d for one part. *)
Definition renderPart (cfg : config) (name : string) (val : Z) : outcome string :=
  '(partV, theme) ← resolvePart cfg name val;
  getFinalPartWithOverride name partV theme (default [] (overrideColors cfg !! name)).

(** Step 4a: the raw value of the part of index [i]. *)
Definition rawValue (hashStr : string) (i : nat) : outcome Z :=
  valStr ← go_slice hashStr (i * 2) (i * 2 + 2);
  Returns (strconv_Atoi valStr).

(** [for i, name := range partNames { ... }], from index [i] on. *)
Fixpoint partsLoop (cfg : config) (hashStr : string) (i : nat) (names : list string)
         (selectedParts : gmap string string) : outcome (gmap string string) :=
  match names with
  | [] => Returns selectedParts
  | name :: rest =>
      val ← rawValue hashStr i;
      part ← renderPart cfg name val;
      partsLoop cfg hashStr (S i) rest (<[name := part]> selectedParts)
  end.

(** *** The seed and the document *)

(** Steps 2 and 3: the decimal digits of the hexadecimal hash, at most
    the first 12. *)
Definition seedOf (hexHash : string) : string :=
  let sha256Numbers := stripNonDigits hexHash in
  if (12 <? String.length sha256Numbers)%nat
  then substring 0 12 sha256Numbers
  else sha256Numbers.

Definition isDisabled (cfg : config) (name : string) : bool :=
  default false (disabledParts cfg !! name).

Definition partOf (selectedParts : gmap string string) (name : string) : string :=
  default "" (selectedParts !! name).

(** Step 5: the writes to the [strings.Builder], in order. *)
Definition assemble (cfg : config) (selectedParts : gmap string string) : string :=
  let finalSVG := openTag in
  let finalSVG :=
    if negb (withoutBackground cfg) && negb (isDisabled cfg "env")
    then finalSVG +:+ partOf selectedParts "env" else finalSVG in
  let finalSVG :=
    if negb (isDisabled cfg "head") then finalSVG +:+ partOf selectedParts "head" else finalSVG in
  let finalSVG :=
    if negb (isDisabled cfg "clo") then finalSVG +:+ partOf selectedParts "clo" else finalSVG in
  let finalSVG :=
    if negb (isDisabled cfg "top") then finalSVG +:+ partOf selectedParts "top" else finalSVG in
  let finalSVG :=
    if negb (isDisabled cfg "eyes") then finalSVG +:+ partOf selectedParts "eyes" else finalSVG in
  let finalSVG :=
    if negb (isDisabled cfg "mouth") then finalSVG +:+ partOf selectedParts "mouth" else finalSVG in
  finalSVG +:+ closeTag.

(** [Generate] from the hash on: steps 1 (the hexadecimal rendering) to 5. *)
Definition generateFromHash (cfg : config) (hashBytes : list Z) : outcome string :=
  let hexHash := hex_EncodeToString hashBytes in
  let hashStr := seedOf hexHash in
  selectedParts ← partsLoop cfg hashStr 0 partNames ∅;
  Returns (assemble cfg selectedParts).

Definition Generate (input : string) (opts : list Option) : outcome string :=
  let cfg := applyOptions opts in
  if String.eqb input "" then Returns ""
  else generateFromHash cfg (sha256_Sum256 input).

End Multiavatar.

(** ** The package before the overrides

    [src/multiavatar.go] holds [Generate] with one option,
    [WithoutBackground], and [getFinalPart], which has no override of the
    colors. *)

Module Plain.

Record config := Config { withoutBackground : bool }.

Inductive Option : Type :=
| WithoutBackground.

Definition applyOption (o : Option) (c : config) : config :=
  match o with
  | WithoutBackground => Config true
  end.

Section Plain.

Context {catalog : Catalog}.

Definition getFinalPart (partName partV theme : string) : outcome string :=
  match themeColors partV theme partName with
  | None => Returns ""
  | Some colors =>
      let partID := strconv_Atoi partV in
      let partIndex := partIndexOf partName in
      row ← go_index parts partID;
      svgString ← go_index row partIndex;
      Returns (replacePlaceholders svgString colors)
  end.

Fixpoint partsLoop (hashStr : string) (i : nat) (names : list string)
         (selectedParts : gmap string string) : outcome (gmap string string) :=
  match names with
  | [] => Returns selectedParts
  | name :: rest =>
      val ← rawValue hashStr i;
      let '(partV, theme) := defaultSelection val in
      part ← getFinalPart name partV theme;
      partsLoop hashStr (S i) rest (<[name := part]> selectedParts)
  end.

Definition assemble (cfg : config) (selectedParts : gmap string string) : string :=
  let finalSVG := openTag in
  let finalSVG :=
    if negb (withoutBackground cfg)
    then finalSVG +:+ partOf selectedParts "env" else finalSVG in
  let finalSVG := finalSVG +:+ partOf selectedParts "head" in
  let finalSVG := finalSVG +:+ partOf selectedParts "clo" in
  let finalSVG := finalSVG +:+ partOf selectedParts "top" in
  let finalSVG := finalSVG +:+ partOf selectedParts "eyes" in
  let finalSVG := finalSVG +:+ partOf selectedParts "mouth" in
  finalSVG +:+ closeTag.

Definition Generate (input : string) (opts : list Option) : outcome string :=
  let cfg := fold_left (fun c o => applyOption o c) opts (Config false) in
  if String.eqb input "" then Returns ""
  else
    let hexHash := hex_EncodeToString (sha256_Sum256 input) in
    let hashStr := seedOf hexHash in
    selectedParts ← partsLoop hashStr 0 partNames ∅;
    Returns (assemble cfg selectedParts).

End Plain.

End Plain.

(** ** A catalog for the examples

    16 versions, 3 themes and 6 parts; every fragment has three
    placeholders, the first and the last of the same text, and every entry
    two colors. *)

Definition exampleVersions : list Z := map Z.of_nat (seq 0 16).
Definition exampleLetters : list string := ["A"; "B"; "C"].

Definition exampleFragment (v : Z) (p : string) : string :=
  "<" +:+ p +:+ fmt_Sprintf_02d v +:+ " fill:#1; stroke:#2; stop:#1;/>".

Definition exampleParts : list (list string) :=
  map (fun v => map (exampleFragment v) partNames) exampleVersions.

Definition exampleColors (t p : string) : list string :=
  ["#" +:+ p +:+ t; "#" +:+ t +:+ t].

Definition exampleThemes : gmap string (gmap string (gmap string (list string))) :=
  list_to_map
    (map (fun v =>
            (fmt_Sprintf_02d v,
             list_to_map
               (map (fun t => (t, list_to_map (map (fun p => (p, exampleColors t p)) partNames)))
                    exampleLetters)))
         exampleVersions).

Definition exampleCatalog : Catalog :=
  {| themes := exampleThemes; parts := exampleParts |}.

(** The Unicode case tables are not needed on ASCII strings: the examples
    pass the identity. *)
Definition asciiOnly : CaseTables :=
  {| mapUpper := fun s => s; mapLower := fun s => s |}.

(** ** The statements of the specification

    The definitions below follow the words of the specification; the
    theorems compare them with the code above. *)

(** [p / q] for [0 < q], rounded to the nearest integer, halves away from
    zero. *)
Definition roundHalfAway (p q : Z) : Z :=
  if (0 <=? p)%Z then ((2 * p + q) / (2 * q))%Z
  else (- ((2 * (- p) + q) / (2 * q)))%Z.

(** A number below 100 written with exactly two decimal digits. *)
Definition twoDigits (n : Z) : string :=
  String (ascii_of_N (48 + Z.to_N (n / 10)))
    (String (ascii_of_N (48 + Z.to_N (n mod 10))) "").

Definition spec_bandSplit (nr : Z) : Z * string :=
  if (nr >? 31)%Z then ((nr - 32)%Z, "C")
  else if (nr >? 15)%Z then ((nr - 16)%Z, "B")
  else (nr, "A").

Definition spec_defaultSelection (v : Z) : string * string :=
  let '(version, theme) := spec_bandSplit (roundHalfAway (v * 47) 100) in
  (twoDigits version, theme).

(** The element of [l] at index [v mod len(l)]. *)
Definition pickBy (l : list string) (v : Z) : string :=
  nth (Z.to_nat (v mod Z.of_nat (List.length l))) l "".

(** Theme: forced for the part, else picked in the allowed list, else the
    global one, else the one of the seed. *)
Definition spec_theme (cfg : config) (name : string) (v : Z) (seedTheme : string) : string :=
  match partTheme cfg !! name with
  | Some forced => forced
  | None =>
      match allowedThemes cfg !! name with
      | Some allowed => pickBy allowed v
      | None =>
          match selectedTheme cfg with
          | Some global => global
          | None => seedTheme
          end
      end
  end.

(** Version: forced for the part, else picked in the allowed list, else
    the one of the seed. *)
Definition spec_version (cfg : config) (name : string) (v : Z) (seedVersion : string) : string :=
  match forcePartV cfg !! name with
  | Some forced => forced
  | None =>
      match allowedVersions cfg !! name with
      | Some allowed => pickBy allowed v
      | None => seedVersion
      end
  end.

(** The version codes [00] to [15]. *)
Definition versionCodes : list string :=
  ["00"; "01"; "02"; "03"; "04"; "05"; "06"; "07";
   "08"; "09"; "10"; "11"; "12"; "13"; "14"; "15"].

Definition isVersionCode (s : string) : bool :=
  existsb (String.eqb s) versionCodes.

(** What holds of every configuration that options build. *)
Definition twoBytes (v : string) : Prop := String.length v = 2%nat.
Definition themeLetter (t : string) : Prop := isThemeLetter t = true.

Definition configOK (c : config) : Prop :=
  match selectedTheme c with
  | Some t => themeLetter t
  | None => True
  end
  /\ map_Forall (fun _ v => twoBytes v) (forcePartV c)
  /\ map_Forall (fun _ l => l <> [] /\ Forall twoBytes l) (allowedVersions c)
  /\ map_Forall (fun _ t => themeLetter t) (partTheme c)
  /\ map_Forall (fun _ l => l <> [] /\ Forall themeLetter l) (allowedThemes c).



(** The configuration after the unisex presets. *)
Definition withUnisex (c : config) : config :=
  Config (withoutBackground c) (selectedTheme c) (forcePartV c)
         (<["eyes" := ["03"; "09"; "10"; "11"]]>
            (<["top" := ["01"; "03"; "04"; "05"; "07"; "10"; "14"]]> (allowedVersions c)))
         (partTheme c)
         (<["top" := ["A"; "B"; "C"]]> (allowedThemes c))
         (disabledParts c) (overrideColors c).

(** The decimal digits that remain of the hexadecimal rendering of the
    hash, as numbers: of the two halves of each byte, high half first,
    those below 10. *)
Definition nibbles (bytes : list Z) : list Z :=
  flat_map (fun b => [Z.shiftr b 4; Z.land b 15]) bytes.

Definition spec_digits (input : string) : list Z :=
  List.filter (fun d => (d <? 10)%Z) (nibbles (sha256_Sum256 input)).

(** The number that the chunk of index [i], two digits wide, of the first
    12 digits reads. *)
Definition spec_rawValue (input : string) (i : nat) : Z :=
  let ds := firstn 12 (spec_digits input) in
  (10 * nth (2 * i) ds 0 + nth (2 * i + 1) ds 0)%Z.

Definition digitValues (s : string) : list Z :=
  map (fun c => (Z.of_N (byteval c) - 48)%Z) (list_ascii_of_string s).

Definition allDigits (s : string) : Prop :=
  Forall (fun c => isDigit c = true) (list_ascii_of_string s).

Definition isByte (b : Z) : Prop := (0 <= b < 256)%Z.

(** A catalog is complete when every entry of [themes] has its fragment
    in [parts]. *)
Definition fragmentOf {catalog : Catalog} (partV partName : string) : outcome string :=
  row ← go_index parts (strconv_Atoi partV);
  go_index row (partIndexOf partName).

Definition catalogComplete {catalog : Catalog} : Prop :=
  forall partV theme partName colors,
    themeColors partV theme partName = Some colors ->
    exists svgString, fragmentOf partV partName = Returns svgString.

Definition isReturns {A : Type} (m : outcome A) : bool :=
  match m with
  | Returns _ => true
  | Panics => false
  end.

Definition catalogCompleteb {catalog : Catalog} : bool :=
  forallb (fun vm =>
     forallb (fun tm =>
        forallb (fun pc => isReturns (fragmentOf (fst vm) (fst pc)))
                (map_to_list (snd tm)))
             (map_to_list (snd vm)))
          (map_to_list themes).

(** The order of the fragments in the document. *)
Definition renderOrder : list string := ["env"; "head"; "clo"; "top"; "eyes"; "mouth"].

Fixpoint concatParts (selectedParts : gmap string string) (omit : list string)
         (names : list string) : string :=
  match names with
  | [] => ""
  | name :: rest =>
      (if existsb (String.eqb name) omit then "" else partOf selectedParts name)
      +:+ concatParts selectedParts omit rest
  end.

(** The document with the fragments of the parts in [omit] left out. *)
Definition documentWithout (omit : list string) (selectedParts : gmap string string) : string :=
  openTag +:+ concatParts selectedParts omit renderOrder +:+ closeTag.

(** The six parts rendered in their order of declaration, the part of
    index [i] from the raw value [raw i], and the document assembled. *)
Definition renderAll {catalog : Catalog} (cfg : config) (raw : nat -> Z) : outcome string :=
  env ← renderPart cfg "env" (raw 0%nat);
  clo ← renderPart cfg "clo" (raw 1%nat);
  head ← renderPart cfg "head" (raw 2%nat);
  mouth ← renderPart cfg "mouth" (raw 3%nat);
  eyes ← renderPart cfg "eyes" (raw 4%nat);
  top ← renderPart cfg "top" (raw 5%nat);
  Returns (assemble cfg
             (<["top" := top]> (<["eyes" := eyes]> (<["mouth" := mouth]>
                (<["head" := head]> (<["clo" := clo]> (<["env" := env]> ∅))))))).

(** The parts a configuration leaves out of the document. *)
Definition omitted (cfg : config) : list string :=
  List.filter (fun q => isDisabled cfg q || (String.eqb q "env" && withoutBackground cfg))
              renderOrder.

(** Two configurations that select and color the parts alike. *)
Definition sameSelection (c c' : config) : Prop :=
  selectedTheme c = selectedTheme c' /\ forcePartV c = forcePartV c'
  /\ allowedVersions c = allowedVersions c' /\ partTheme c = partTheme c'
  /\ allowedThemes c = allowedThemes c' /\ overrideColors c = overrideColors c'.

(** The six fragments [Generate] renders for [input] without options. *)
Definition fragmentsOf {catalog : Catalog} (input : string) : outcome (gmap string string) :=
  partsLoop zeroConfig (seedOf (hex_EncodeToString (sha256_Sum256 input))) 0 partNames ∅.

(** *** The renderer *)

(** The first character of [s] that is [';'] or a line feed. *)
Fixpoint firstStop (s : string) : option ascii :=
  match s with
  | "" => None
  | String c r => if Ascii.eqb c ";" || Ascii.eqb c LF then Some c else firstStop r
  end.

(** The shape of a placeholder token: ['#'], then characters other than
    [';'] and line feed, then [';']. *)
Definition isToken (t : string) : Prop :=
  exists body, t = String "#" (body +:+ ";") /\ firstStop body = None.

(** [t] is a substring of [s]. *)
Fixpoint occursIn (t s : string) : bool :=
  String.prefix t s
  || match s with
     | "" => false
     | String _ r => occursIn t r
     end.

(** No color, once its [';'] is appended, contains the text of a later
    token that is replaced too. *)
Fixpoint cleanColors (colors tokens : list string) : Prop :=
  match colors, tokens with
  | c :: cs, _ :: ts =>
      Forall (fun t => occursIn t (c +:+ ";") = false) (firstn (List.length cs) ts)
      /\ cleanColors cs ts
  | _, _ => True
  end.

(** The replacement by position: scanning [s] from the left, each match
    is replaced by the next color and [';'] while colors remain; what
    follows the last replaced match is kept as it is. *)
Fixpoint substituteFrom (fuel : nat) (s : string) (colors : list string) : string :=
  match fuel, colors with
  | S f, color :: more =>
      match s with
      | "" => ""
      | String c r =>
          match matchAt s with
          | Some (_, rest) => (color +:+ ";") +:+ substituteFrom f rest more
          | None => String c (substituteFrom f r colors)
          end
      end
  | _, _ => s
  end.

Definition substitutePositional (s : string) (colors : list string) : string :=
  substituteFrom (String.length s) s colors.

(** What follows the match of index [k - 1] in [s]. *)
Fixpoint dropMatchesFrom (fuel k : nat) (s : string) : string :=
  match fuel, k with
  | S f, S k' =>
      match s with
      | "" => ""
      | String _ r =>
          match matchAt s with
          | Some (_, rest) => dropMatchesFrom f k' rest
          | None => dropMatchesFrom f k r
          end
      end
  | _, _ => s
  end.

Definition afterMatches (k : nat) (s : string) : string :=
  dropMatchesFrom (String.length s) k s.

(** The loop of the renderer, on the colors that remain. *)
Fixpoint replaceZip (colors matches : list string) (resultFinal : string) : string :=
  match matches, colors with
  | placeholder :: rest, color :: more =>
      replaceZip more rest (strings_Replace1 resultFinal placeholder (color +:+ ";"))
  | _, _ => resultFinal
  end.

(** No match begins in [gap], whatever follows it. *)
Definition matchless (gap : string) : Prop :=
  forall a b z, gap = a +:+ b -> b <> "" -> matchAt (b +:+ z) = None.

(** A replacement of [t] does not begin in [p], whatever follows it. *)
Definition skips (t p : string) : Prop :=
  forall x new, strings_Replace1 (p +:+ x) t new = p +:+ strings_Replace1 x t new.

(** The colors the renderer uses: the override when it is not empty, else
    the entry of the catalog. *)
Definition resolvedColors (override catalogColors : list string) : list string :=
  if (0 <? List.length override)%nat then override else catalogColors.

(** The one option of [src/multiavatar.go] among the options with
    overrides. *)
Definition liftOption (o : Plain.Option) : Option :=
  match o with
  | Plain.WithoutBackground => WithoutBackground
  end.




(** ** What an option writes

    The fields of [config], and for each option the entries it may write:
    a field and, for a map, the key. *)

Inductive field : Type :=
| FBackground | FTheme | FForceV | FAllowedV | FPartTheme | FAllowedT | FDisabled | FColors.

Definition writes (o : Option) : list (field * string) :=
  match o with
  | WithTheme _ => [(FTheme, "")]
  | WithPartVersion pn _ => [(FForceV, strings_TrimSpace pn)]
  | WithPartColors pn _ => [(FColors, strings_TrimSpace pn)]
  | WithPartTheme pn _ => [(FPartTheme, strings_TrimSpace pn)]
  | WithAllowedThemes pn _ => [(FAllowedT, strings_TrimSpace pn)]
  | WithoutPart pn => [(FDisabled, strings_TrimSpace pn)]
  | WithAllowedVersions pn _ => [(FAllowedV, strings_TrimSpace pn)]
  | WithGender _ =>
      [(FAllowedV, "top"); (FAllowedV, "eyes"); (FPartTheme, "top");
       (FPartTheme, "eyes"); (FAllowedT, "top")]
  | WithoutBackground => [(FBackground, "")]
  end.

Definition disjointWrites (o1 o2 : Option) : Prop :=
  forall w, In w (writes o1) -> ~ In w (writes o2).

(** Any two options of the list are the same option or write no common
    entry. *)
Definition pairwiseDisjoint (opts : list Option) : Prop :=
  forall o1 o2, In o1 opts -> In o2 opts -> o1 = o2 \/ disjointWrites o1 o2.

(** The option passes the checks of its constructor and is stored. *)
Definition accepted {tables : CaseTables} (o : Option) : bool :=
  match o with
  | WithTheme theme => isThemeLetter (ToUpper (strings_TrimSpace theme))
  | WithPartVersion pn pv =>
      knownPart (strings_TrimSpace pn) && (String.length (strings_TrimSpace pv) =? 2)%nat
  | WithPartColors pn _ => knownPart (strings_TrimSpace pn)
  | WithPartTheme pn t =>
      knownPart (strings_TrimSpace pn) && isThemeLetter (ToUpper (strings_TrimSpace t))
  | WithAllowedThemes pn tl =>
      knownPart (strings_TrimSpace pn)
      && (0 <? List.length (List.filter isThemeLetter
                              (map (fun t => ToUpper (strings_TrimSpace t)) tl)))%nat
  | WithoutPart pn => knownPart (strings_TrimSpace pn)
  | WithAllowedVersions pn vs =>
      knownPart (strings_TrimSpace pn)
      && (0 <? List.length (List.filter (fun v => (String.length v =? 2)%nat)
                              (map strings_TrimSpace vs)))%nat
  | WithGender gender =>
      isFemale (ToLower (strings_TrimSpace gender))
      || isMale (ToLower (strings_TrimSpace gender))
  | WithoutBackground => true
  end.

(** Two options of the same constructor that write the same entries. *)
Definition sameTarget (o1 o2 : Option) : bool :=
  match o1, o2 with
  | WithTheme _, WithTheme _ => true
  | WithPartVersion p1 _, WithPartVersion p2 _
  | WithPartColors p1 _, WithPartColors p2 _
  | WithPartTheme p1 _, WithPartTheme p2 _
  | WithAllowedThemes p1 _, WithAllowedThemes p2 _
  | WithoutPart p1, WithoutPart p2
  | WithAllowedVersions p1 _, WithAllowedVersions p2 _ =>
      String.eqb (strings_TrimSpace p1) (strings_TrimSpace p2)
  | WithGender _, WithGender _ => true
  | WithoutBackground, WithoutBackground => true
  | _, _ => false
  end.

(** The option can change how the part [name] is selected or colored: it
    sets the global theme, or writes an entry of [name] other than the
    disabling. *)
Definition selects (o : Option) (name : string) : bool :=
  existsb (fun w => match fst w with
                    | FBackground | FDisabled => false
                    | FTheme => true
                    | _ => String.eqb (snd w) name
                    end)
          (writes o).

(** The lists and the letter of the gender presets. *)
Definition presetVersions (female : bool) (name : string) : list string :=
  if String.eqb name "top"
  then (if female then ["01"; "03"; "07"; "10"] else ["04"; "05"; "14"])
  else (if female then ["03"; "11"] else ["09"; "10"]).

Definition presetLetter (female : bool) : string := if female then "C" else "B".

(** The raw values from 0 to 99. *)
Definition rawRange : list Z := map Z.of_nat (seq 0 100).

(** The first raw value whose default selection is the given pair. *)
Definition rawFor (version theme : string) : option Z :=
  List.find (fun v => String.eqb (fst (defaultSelection v)) version
                      && String.eqb (snd (defaultSelection v)) theme)
            rawRange.

Definition reachable (version theme : string) : bool :=
  match rawFor version theme with
  | Some _ => true
  | None => false
  end.

(** *** Colors that cannot hold a token *)

Fixpoint hasChar (x : ascii) (s : string) : bool :=
  match s with
  | "" => false
  | String c r => Ascii.eqb c x || hasChar x r
  end.

(** A color with no [';'] and with ['#'] at most as its first character,
    as [red] or [#f2c280]. *)
Definition plainColor (c : string) : bool :=
  negb (hasChar ";" c)
  && match c with
     | "" => true
     | String _ r => negb (hasChar "#" r)
     end.

(** No color followed by [';'] is the text of a later token that is
    replaced too. *)
Fixpoint distinctFromLater (colors tokens : list string) : Prop :=
  match colors, tokens with
  | c :: cs, _ :: ts =>
      Forall (fun t => t <> c +:+ ";") (firstn (List.length cs) ts)
      /\ distinctFromLater cs ts
  | _, _ => True
  end.

(** *** Options that only leave parts out *)

Definition isDisabling (o : Option) : bool :=
  match o with
  | WithoutPart _ | WithoutBackground => true
  | _ => false
  end.

Definition selecting (opts : list Option) : list Option :=
  List.filter (fun o => negb (isDisabling o)) opts.

(** The option is [WithoutPart] of the known part [q]. *)
Definition disablesPart (q : string) (o : Option) : bool :=
  match o with
  | WithoutPart pn => String.eqb (strings_TrimSpace pn) q && knownPart q
  | _ => false
  end.

Definition isWithoutBackground (o : Option) : bool :=
  match o with
  | WithoutBackground => true
  | _ => false
  end.

(** The six fragments rendered under a configuration. *)
Definition fragmentsUnder {catalog : Catalog} (cfg : config) (input : string)
  : outcome (gmap string string) :=
  partsLoop cfg (seedOf (hex_EncodeToString (sha256_Sum256 input))) 0 partNames ∅.

(** *** Colors in effect *)

(** [cfg.overrideColors[name]]: nil for a part without entry. *)
Definition effectiveColors (c : config) (name : string) : list string :=
  default [] (overrideColors c !! name).

(** Two configurations under which [Generate] reads the same values. *)
Definition sameEffect (c c' : config) : Prop :=
  withoutBackground c = withoutBackground c' /\ selectedTheme c = selectedTheme c'
  /\ forcePartV c = forcePartV c' /\ allowedVersions c = allowedVersions c'
  /\ partTheme c = partTheme c' /\ allowedThemes c = allowedThemes c'
  /\ disabledParts c = disabledParts c'
  /\ forall name, effectiveColors c name = effectiveColors c' name.

(** The option is [WithPartColors] of the part [q]. *)
Definition overridesColorsOf (q : string) (o : Option) : bool :=
  match o with
  | WithPartColors pn _ => String.eqb (strings_TrimSpace pn) q
  | _ => false
  end.

(** [c'] is [c] without the colors of [q]. *)
Definition colorsCleared (q : string) (c c' : config) : Prop :=
  withoutBackground c = withoutBackground c' /\ selectedTheme c = selectedTheme c'
  /\ forcePartV c = forcePartV c' /\ allowedVersions c = allowedVersions c'
  /\ partTheme c = partTheme c' /\ allowedThemes c = allowedThemes c'
  /\ disabledParts c = disabledParts c'
  /\ overrideColors c' = delete q (overrideColors c).

(** *** White space at the ends of a string *)

(** The string starts with a white space rune. *)
Definition spaceAhead (s : string) : bool :=
  match s with
  | String a r =>
      asciiSpace a
      || match r with
         | String b r2 =>
             spaceRune2 a b
             || match r2 with
                | String c _ => spaceRune3 a b c
                | "" => false
                end
         | "" => false
         end
  | "" => false
  end.

(** The same for a reversed string: it ends with a white space rune. *)
Definition spaceBehind (s : string) : bool :=
  match s with
  | String a r =>
      asciiSpace a
      || match r with
         | String b r2 =>
             spaceRune2 b a
             || match r2 with
                | String c _ => spaceRune3 c b a
                | "" => false
                end
         | "" => false
         end
  | "" => false
  end.

(** ** The demo server

    [cmd/server]: the handler of [/avatar] reads the options off the query
    and answers with the document. *)

Module Server.

(** [strings.Split(s, sep)] for a separator of one byte: the pieces of [s]
    between the separators, one more than there are separators. *)
Fixpoint strings_Split (sep : ascii) (s : string) : list string :=
  match s with
  | "" => [""]
  | String c r =>
      if Ascii.eqb c sep then "" :: strings_Split sep r
      else match strings_Split sep r with
           | piece :: pieces => String c piece :: pieces
           | [] => [String c ""]
           end
  end.

(** [strings.SplitN(s, sep, 2)]: [s] cut at the first separator, or [s]
    alone. *)
Fixpoint strings_SplitN2 (sep : ascii) (s : string) : list string :=
  match s with
  | "" => [""]
  | String c r =>
      if Ascii.eqb c sep then [""; r]
      else match strings_SplitN2 sep r with
           | piece :: pieces => String c piece :: pieces
           | [] => [String c ""]
           end
  end.

Definition nonEmpty (s : string) : bool := negb (String.eqb s "").

Definition splitList (s : string) : list string :=
  let s := strings_TrimSpace s in
  if String.eqb s "" then []
  else List.filter nonEmpty (map strings_TrimSpace (strings_Split "|" s)).

(** The body of the loop of [parseKVComma]. *)
Definition parseKVComma_step (res : gmap string string) (p : string) : gmap string string :=
  let p := strings_TrimSpace p in
  if String.eqb p "" then res
  else match strings_SplitN2 ":" p with
       | [k; v] =>
           let key := strings_TrimSpace k in
           let val := strings_TrimSpace v in
           if nonEmpty key && nonEmpty val then <[key := val]> res else res
       | _ => res
       end.

Definition parseKVComma (s : string) : gmap string string :=
  let s := strings_TrimSpace s in
  if String.eqb s "" then ∅
  else fold_left parseKVComma_step (strings_Split "," s) ∅.

(** The body of the loop of [parseKVList]. *)
Definition parseKVList_step (res : gmap string (list string)) (p : string)
  : gmap string (list string) :=
  let p := strings_TrimSpace p in
  if String.eqb p "" then res
  else match strings_SplitN2 ":" p with
       | [k; v] =>
           let key := strings_TrimSpace k in
           let raw := strings_TrimSpace v in
           let list := splitList raw in
           if nonEmpty key && (0 <? List.length list)%nat then <[key := list]> res else res
       | _ => res
       end.

Definition parseKVList (s : string) : gmap string (list string) :=
  let s := strings_TrimSpace s in
  if String.eqb s "" then ∅
  else fold_left parseKVList_step (strings_Split "," s) ∅.

(** A word cut out between separators: not empty, trimmed, without the
    separator. *)
Definition cleanWord (sep : ascii) (w : string) : Prop :=
  w <> "" /\ strings_TrimSpace w = w /\ hasChar sep w = false.

(** The order in which the four [range] loops over a map visit its
    entries; Go leaves it open. *)
Record iteration := Iteration {
  overPartTheme : list (string * string);
  overAllowedThemes : list (string * list string);
  overPartVersion : list (string * string);
  overAllowedVersions : list (string * list string)
}.

(** What the handler writes: an error with its status, or the document. *)
Inductive response :=
| HttpError (message : string) (status : nat)
| Svg (body : string).

Section Handler.

Context {tables : CaseTables} {catalog : Catalog}.

Definition parseBool (s : string) : bool :=
  existsb (String.eqb (ToLower (strings_TrimSpace s))) ["1"; "true"; "yes"; "y"; "on"].

Definition addColorOverrides (opts : list Option) (part raw : string) : list Option :=
  let raw := strings_TrimSpace raw in
  if String.eqb raw "" then opts
  else
    let colors := splitList raw in
    match colors with
    | [] => opts
    | first :: _ =>
        if String.eqb part "env" then opts ++ [WithEnvColor first]
        else if String.eqb part "clo" then opts ++ [WithClothesColors colors]
        else if String.eqb part "mouth" then opts ++ [WithMouthColors colors]
        else if String.eqb part "eyes" then opts ++ [WithEyesColors colors]
        else if String.eqb part "top" then opts ++ [WithTopColors colors]
        else opts
    end.

(** The options the handler builds, in the order of its appends; [get] is
    [q.Get]. *)
Definition optionsOf (it : iteration) (get : string -> string) : list Option :=
  let opts := [] in
  let opts := if parseBool (get "transparent") then opts ++ [WithoutBackground] else opts in
  let opts :=
    let t := strings_TrimSpace (get "theme") in
    if nonEmpty t then opts ++ [WithTheme t] else opts in
  let opts := opts ++ map (fun '(part, val) => WithPartTheme part val) (overPartTheme it) in
  let opts :=
    opts ++ map (fun '(part, list) => WithAllowedThemes part list) (overAllowedThemes it) in
  let opts := opts ++ map (fun '(part, val) => WithPartVersion part val) (overPartVersion it) in
  let opts :=
    opts ++ map (fun '(part, list) => WithAllowedVersions part list) (overAllowedVersions it) in
  let opts := addColorOverrides opts "env" (get "env") in
  let opts := addColorOverrides opts "clo" (get "clo") in
  let opts := addColorOverrides opts "mouth" (get "mouth") in
  let opts :=
    let v := strings_TrimSpace (get "head") in
    if nonEmpty v then opts ++ [WithSkinColor v] else opts in
  let opts := addColorOverrides opts "eyes" (get "eyes") in
  let opts := addColorOverrides opts "top" (get "top") in
  opts ++ map WithoutPart (List.filter knownPart (splitList (get "withoutPart"))).

Definition handleAvatar (it : iteration) (get : string -> string) : outcome response :=
  let name := strings_TrimSpace (get "name") in
  if String.eqb name ""
  then Returns (HttpError "missing required 'name' parameter" 400)
  else
    svg ← Generate name (optionsOf it get);
    Returns (Svg svg).

(** The four loops visit the entries of the maps parsed off the query,
    each entry once. *)
Definition iterates (it : iteration) (get : string -> string) : Prop :=
  overPartTheme it ≡ₚ map_to_list (parseKVComma (get "partTheme"))
  /\ overAllowedThemes it ≡ₚ map_to_list (parseKVList (get "allowedThemes"))
  /\ overPartVersion it ≡ₚ map_to_list (parseKVComma (get "partVersion"))
  /\ overAllowedVersions it ≡ₚ map_to_list (parseKVList (get "allowedVersions")).

(** The iteration in the order of [map_to_list]. *)
Definition sortedIteration (get : string -> string) : iteration :=
  Iteration (map_to_list (parseKVComma (get "partTheme")))
            (map_to_list (parseKVList (get "allowedThemes")))
            (map_to_list (parseKVComma (get "partVersion")))
            (map_to_list (parseKVList (get "allowedVersions"))).

End Handler.

End Server.

(** The option with its arguments trimmed beforehand. *)
Definition pretrimmed (o : Option) : Option :=
  match o with
  | WithTheme theme => WithTheme (strings_TrimSpace theme)
  | WithPartVersion partName partVersion =>
      WithPartVersion (strings_TrimSpace partName) (strings_TrimSpace partVersion)
  | WithPartColors partName colors =>
      WithPartColors (strings_TrimSpace partName) (map strings_TrimSpace colors)
  | WithPartTheme partName theme =>
      WithPartTheme (strings_TrimSpace partName) (strings_TrimSpace theme)
  | WithAllowedThemes partName themesList =>
      WithAllowedThemes (strings_TrimSpace partName) (map strings_TrimSpace themesList)
  | WithoutPart partName => WithoutPart (strings_TrimSpace partName)
  | WithAllowedVersions partName versions =>
      WithAllowedVersions (strings_TrimSpace partName) (map strings_TrimSpace versions)
  | WithGender gender => WithGender (strings_TrimSpace gender)
  | WithoutBackground => WithoutBackground
  end.

(** A query, for the examples. *)
Definition exampleQuery (key : string) : string :=
  if String.eqb key "name" then " Binx Bond123 "
  else if String.eqb key "partVersion" then "eyes:11, top:07"
  else if String.eqb key "allowedThemes" then " top : A|C "
  else if String.eqb key "withoutPart" then "clo|hat"
  else "".

Definition blankQuery (key : string) : string :=
  if String.eqb key "name" then "  " else "yes".

(** ** The library models on known values *)

Example sha256_abc :
  hex_EncodeToString (sha256_Sum256 "abc")
  = "ba7816bf8f01cfea414140de5dae2223b00361a396177a9cb410ff61f20015ad".
Proof. vm_compute. reflexivity. Qed.

Example sha256_two_blocks :
  hex_EncodeToString
    (sha256_Sum256 "abcdbcdecdefdefgefghfghighijhijkijkljklmklmnlmnomnopnopq")
  = "248d6a61d20638b8e5c026930c3e6039a33ce45964ff2167f6ecedd419db06c1".
Proof. vm_compute. reflexivity. Qed.

Example TrimSpace_ex : strings_TrimSpace (" " +:+ String "009" "eyes" +:+ String "194" (String "160" "")) = "eyes".
Proof. reflexivity. Qed.

Example Atoi_ex : map strconv_Atoi ["07"; "99"; "-1"; "+5"; "zz"; ""; "1a"] = [7; 99; -1; 5; 0; 0; 0]%Z.
Proof. reflexivity. Qed.

Example Sprintf_ex : map fmt_Sprintf_02d [0; 7; 15; 123; -5]%Z = ["00"; "07"; "15"; "123"; "-5"].
Proof. reflexivity. Qed.

Example FindAllString_ex :
  FindAllString ("fill:#01;stroke:#fff;x#" +:+ String LF "a;##b;")
  = ["#01;"; "#fff;"; "##b;"].
Proof. reflexivity. Qed.

Example Replace1_ex : strings_Replace1 "a#1;b#1;" "#1;" "red;" = "ared;b#1;".
Proof. reflexivity. Qed.

Example Round_ex :
  map (fun v => Float64.to_int (Float64.Round
         (Float64.div (Float64.mul (Float64.of_int v) (Float64.of_int 47)) (Float64.of_int 100))))
      [0; 1; 2; 50; 33; 34; 99]%Z
  = [0; 0; 1; 24; 16; 16; 47]%Z.
Proof. vm_compute. reflexivity. Qed.

Example sha256_constants :
  List.length Sha256.K = 64%nat
  /\ firstn 2 Sha256.K = [0x428a2f98; 0x71374491]%Z
  /\ nth 63 Sha256.K 0%Z = 0xc67178f2%Z
  /\ firstn 2 Sha256.H0 = [0x6a09e667; 0xbb67ae85]%Z
  /\ nth 7 Sha256.H0 0%Z = 0x5be0cd19%Z.
Proof. vm_compute. repeat split. Qed.

(** ** Enumeration of a range of integers *)

Lemma Z_range_forallb (f : Z -> bool) (n : nat) :
  forallb f (map Z.of_nat (seq 0 n)) = true ->
  forall v, (0 <= v < Z.of_nat n)%Z -> f v = true.
Proof.
  intros H v Hv. rewrite forallb_forall in H. apply H.
  apply in_map_iff. exists (Z.to_nat v). split; [lia|].
  apply in_seq. lia.
Qed.

(** ** Configurations built from options *)

(** The five parts of [configOK]. *)
Ltac split_config := split; [|split; [|split; [|split]]].

Section Configurations.

Context {tables : CaseTables}.

Lemma zeroConfig_OK : configOK zeroConfig.
Proof.
  unfold configOK; simpl. split_config; try apply map_Forall_empty. exact I.
Qed.

Lemma filter_twoBytes (l : list string) :
  Forall twoBytes (List.filter (fun v => (String.length v =? 2)%nat) l).
Proof.
  apply List.Forall_forall. intros x Hx. apply filter_In in Hx.
  destruct Hx as [_ Hx]. now apply Nat.eqb_eq in Hx.
Qed.

Lemma filter_themeLetter (l : list string) :
  Forall themeLetter (List.filter isThemeLetter l).
Proof.
  apply List.Forall_forall. intros x Hx. apply filter_In in Hx. apply Hx.
Qed.

Lemma nonempty_of_length {A : Type} (l : list A) :
  (0 <? List.length l)%nat = true -> l <> [].
Proof. destruct l; simpl; [discriminate | discriminate]. Qed.

Lemma applyOption_OK (o : Option) (c : config) :
  configOK c -> configOK (applyOption o c).
Proof.
  intros Hc. pose proof Hc as (Hs & Hf & Hav & Hpt & Hat).
  destruct o; simpl.
  - destruct (isThemeLetter _) eqn:E; [|assumption].
    split_config; simpl; assumption.
  - destruct (knownPart _ && _) eqn:E; [|assumption].
    apply andb_true_iff in E as [_ E]. apply Nat.eqb_eq in E.
    split_config; simpl; try assumption.
    now apply map_Forall_insert_2.
  - destruct (knownPart _); [|assumption]. split_config; assumption.
  - destruct (knownPart _ && _) eqn:E; [|assumption].
    apply andb_true_iff in E as [_ E].
    split_config; simpl; try assumption.
    now apply map_Forall_insert_2.
  - destruct (knownPart _ && _) eqn:E; [|assumption].
    apply andb_true_iff in E as [_ E].
    split_config; simpl; try assumption.
    apply map_Forall_insert_2; [|assumption].
    split; [now apply nonempty_of_length | apply filter_themeLetter].
  - destruct (knownPart _); [|assumption]. split_config; assumption.
  - destruct (knownPart _ && _) eqn:E; [|assumption].
    apply andb_true_iff in E as [_ E].
    split_config; simpl; try assumption.
    apply map_Forall_insert_2; [|assumption].
    split; [now apply nonempty_of_length | apply filter_twoBytes].
  - destruct (isFemale _); [|destruct (isMale _)];
      split_config; simpl; try assumption;
      repeat (apply map_Forall_insert_2;
              [first [reflexivity
                     | split; [discriminate | repeat constructor] ] |]);
      assumption.
  - split_config; assumption.
Qed.

Lemma fold_applyOption_OK (opts : list Option) (c : config) :
  configOK c -> configOK (fold_left (fun c o => applyOption o c) opts c).
Proof.
  revert c. induction opts as [|o opts IH]; intros c Hc; simpl; [assumption|].
  apply IH. now apply applyOption_OK.
Qed.

Lemma applyOptions_OK (opts : list Option) : configOK (applyOptions opts).
Proof. apply fold_applyOption_OK, zeroConfig_OK. Qed.

End Configurations.

(** ** The feature resolver *)

Lemma defaultSelection_checked (v : Z) :
  (0 <= v <= 99)%Z ->
  (scale47 v =? roundHalfAway (v * 47) 100)%Z
  && (0 <=? scale47 v)%Z && (scale47 v <=? 47)%Z
  && String.eqb (fst (defaultSelection v)) (fst (spec_defaultSelection v))
  && String.eqb (snd (defaultSelection v)) (snd (spec_defaultSelection v))
  && isVersionCode (fst (defaultSelection v)) = true.
Proof.
  intros Hv.
  apply (Z_range_forallb
           (fun v => (scale47 v =? roundHalfAway (v * 47) 100)%Z
                     && (0 <=? scale47 v)%Z && (scale47 v <=? 47)%Z
                     && String.eqb (fst (defaultSelection v)) (fst (spec_defaultSelection v))
                     && String.eqb (snd (defaultSelection v)) (snd (spec_defaultSelection v))
                     && isVersionCode (fst (defaultSelection v))) 100);
    [vm_compute; reflexivity | lia].
Qed.

Lemma isVersionCode_twoBytes (s : string) : isVersionCode s = true -> twoBytes s.
Proof.
  unfold isVersionCode. rewrite existsb_exists. intros (x & Hin & Hx).
  apply String.eqb_eq in Hx. subst x. unfold twoBytes.
  simpl in Hin. repeat (destruct Hin as [<- | Hin]; [reflexivity|]). destruct Hin.
Qed.


(** C2.  For a raw value [v] from 0 to 99 the code's floating-point
    expression is [v * 47 / 100] rounded to the nearest integer, halves away
    from zero, a number [nr] from 0 to 47; above 31 the version is [nr - 32]
    and the theme C, above 15 the version is [nr - 16] and the theme B,
    otherwise the version is [nr] and the theme A; the version is written
    with exactly two digits. *)
Theorem default_selection_scales_and_splits (v : Z) :
  (0 <= v <= 99)%Z ->
  scale47 v = roundHalfAway (v * 47) 100
  /\ (0 <= scale47 v <= 47)%Z
  /\ defaultSelection v
     = (if (scale47 v >? 31)%Z then (twoDigits (scale47 v - 32), "C")
        else if (scale47 v >? 15)%Z then (twoDigits (scale47 v - 16), "B")
        else (twoDigits (scale47 v), "A"))
  /\ String.length (fst (defaultSelection v)) = 2%nat.
Proof.
  intros Hv. pose proof (defaultSelection_checked v Hv) as H.
  apply andb_true_iff in H as [H Hcode].
  apply andb_true_iff in H as [H Hsnd].
  apply andb_true_iff in H as [H Hfst].
  apply andb_true_iff in H as [H Hhi].
  apply andb_true_iff in H as [Hnr Hlo].
  apply Z.eqb_eq in Hnr. apply Z.leb_le in Hlo, Hhi.
  apply String.eqb_eq in Hfst, Hsnd.
  split; [assumption|]. split; [lia|]. split.
  - rewrite (surjective_pairing (defaultSelection v)), Hfst, Hsnd.
    unfold spec_defaultSelection, spec_bandSplit. rewrite <- Hnr.
    destruct (scale47 v >? 31)%Z; [reflexivity|].
    destruct (scale47 v >? 15)%Z; reflexivity.
  - now apply isVersionCode_twoBytes.
Qed.

Lemma go_index_pick (l : list string) (v : Z) :
  l <> [] -> (0 <= v)%Z ->
  go_index l (Z.rem v (Z.of_nat (List.length l))) = Returns (pickBy l v).
Proof.
  intros Hl Hv.
  assert (0 < Z.of_nat (List.length l))%Z as Hlen
      by (destruct l; [congruence | simpl; lia]).
  rewrite Z.rem_mod_nonneg by lia.
  pose proof (Z.mod_pos_bound v _ Hlen) as Hb.
  unfold go_index, pickBy.
  destruct (Z.ltb_spec (v mod Z.of_nat (List.length l)) 0); [lia|].
  destruct (nth_error l _) eqn:E.
  - f_equal. symmetry. now apply nth_error_nth.
  - apply nth_error_None in E. lia.
Qed.


Section Resolver.

Context {tables : CaseTables}.

(** On a configuration that options built, the resolver returns, and
    what it returns is read off the configuration in the order of
    precedence. *)
Lemma resolvePart_precedence (cfg : config) (name : string) (v : Z) :
  configOK cfg -> (0 <= v)%Z ->
  resolvePart cfg name v
  = Returns (spec_version cfg name v (fst (defaultSelection v)),
             spec_theme cfg name v (snd (defaultSelection v))).
Proof.
  intros (Hs & Hf & Hav & Hpt & Hat) Hv.
  unfold resolvePart. destruct (defaultSelection v) as [partV0 theme0]. simpl.
  assert (resolveTheme cfg name v theme0 = Returns (spec_theme cfg name v theme0)) as ->.
  { unfold resolveTheme, spec_theme.
    destruct (partTheme cfg !! name); [reflexivity|].
    destruct (allowedThemes cfg !! name) as [l|] eqn:E; [|reflexivity].
    destruct (Hat _ _ E) as [Hne _].
    destruct l; [congruence|]. simpl Nat.ltb. cbv iota.
    now apply go_index_pick. }
  assert (resolveVersion cfg name v partV0 = Returns (spec_version cfg name v partV0)) as ->.
  { unfold resolveVersion, spec_version.
    destruct (forcePartV cfg !! name) as [f|] eqn:E.
    - rewrite (Hf _ _ E). reflexivity.
    - destruct (allowedVersions cfg !! name) as [l|] eqn:E'; [|reflexivity].
      destruct (Hav _ _ E') as [Hne _].
      destruct l; [congruence|]. simpl Nat.ltb. cbv iota.
      now apply go_index_pick. }
  reflexivity.
Qed.



(** C3.  For every configuration that options build and every raw
    value, the theme is the one forced for the part, else the element of
    the part's allowed list at index [v mod len], else the global one,
    else the one of the seed; the version is the one forced for the part,
    else the element of the part's allowed list at index [v mod len],
    else the one of the seed. *)
Theorem overrides_follow_precedence (opts : list Option) (name : string) (v : Z) :
  (0 <= v <= 99)%Z ->
  resolvePart (applyOptions opts) name v
  = Returns (spec_version (applyOptions opts) name v (fst (defaultSelection v)),
             spec_theme (applyOptions opts) name v (snd (defaultSelection v))).
Proof.
  intros Hv. apply resolvePart_precedence; [apply applyOptions_OK | lia].
Qed.







End Resolver.

Lemma default_selection_witness :
  (0 <= 50 <= 99)%Z /\ scale47 50 = 24%Z /\ defaultSelection 50 = ("08", "B").
Proof.
  assert (0 <= 50 <= 99)%Z as Hv by lia.
  destruct (default_selection_scales_and_splits 50 Hv) as (H1 & _ & H3 & _).
  split; [exact Hv|]. split.
  - rewrite H1. reflexivity.
  - rewrite H3. vm_compute. reflexivity.
Defined.

Lemma overrides_precedence_witness :
  (0 <= 72 <= 99)%Z
  /\ resolvePart
       (applyOptions (tables := asciiOnly)
          [WithTheme "b"; WithAllowedThemes "top" ["a"; "c"];
           WithPartVersion "eyes" "07"; WithAllowedVersions "eyes" ["01"; "02"]])
       "top" 72
     = Returns ("02", "A")
  /\ resolvePart
       (applyOptions (tables := asciiOnly)
          [WithTheme "b"; WithAllowedThemes "top" ["a"; "c"];
           WithPartVersion "eyes" "07"; WithAllowedVersions "eyes" ["01"; "02"]])
       "eyes" 72
     = Returns ("07", "B").
Proof.
  assert (0 <= 72 <= 99)%Z as Hv by lia.
  split; [exact Hv|]. split.
  - rewrite (overrides_follow_precedence (tables := asciiOnly) _ "top" 72 Hv).
    vm_compute. reflexivity.
  - rewrite (overrides_follow_precedence (tables := asciiOnly) _ "eyes" 72 Hv).
    vm_compute. reflexivity.
Defined.



(** ** The gender presets *)

Section Gender.

Context {tables : CaseTables}.

Lemma withGender_unisex (gender : string) (c : config) :
  isFemale (ToLower (strings_TrimSpace gender)) = false ->
  isMale (ToLower (strings_TrimSpace gender)) = false ->
  applyOption (WithGender gender) c = withUnisex c.
Proof. intros Hf Hm. unfold applyOption. rewrite Hf, Hm. reflexivity. Qed.




End Gender.



(** ** Strings as lists of bytes *)

Lemma append_cons (x : ascii) (a b : string) : String x a +:+ b = String x (a +:+ b).
Proof. reflexivity. Qed.

Lemma append_nil_l (b : string) : "" +:+ b = b.
Proof. reflexivity. Qed.

Lemma append_assoc (a b c : string) : (a +:+ b) +:+ c = a +:+ (b +:+ c).
Proof.
  induction a as [|x a IH]; [reflexivity|]. rewrite !append_cons. now f_equal.
Qed.

Lemma append_nil_r (a : string) : a +:+ "" = a.
Proof.
  induction a as [|x a IH]; [reflexivity|]. rewrite append_cons. now f_equal.
Qed.

Lemma length_append (a b : string) :
  String.length (a +:+ b) = (String.length a + String.length b)%nat.
Proof.
  induction a as [|x a IH]; [reflexivity|]. rewrite append_cons. simpl. now f_equal.
Qed.

Lemma length_list_ascii (s : string) :
  List.length (list_ascii_of_string s) = String.length s.
Proof. induction s as [|c s IH]; cbn; [reflexivity | now f_equal]. Qed.

Lemma substring_list (s : string) :
  forall n m, list_ascii_of_string (substring n m s)
              = firstn m (skipn n (list_ascii_of_string s)).
Proof.
  induction s as [|c s IH]; intros n m.
  - destruct n, m; reflexivity.
  - destruct n as [|n].
    + destruct m as [|m]; simpl; [reflexivity|]. now rewrite IH.
    + simpl. apply IH.
Qed.

Lemma list_ascii_inj (s t : string) :
  list_ascii_of_string s = list_ascii_of_string t -> s = t.
Proof.
  intros H. rewrite <- (string_of_list_ascii_of_string s),
              <- (string_of_list_ascii_of_string t). now rewrite H.
Qed.

(** ** The seed *)

Module Sha256Facts.
Import Sha256.
Local Open Scope Z_scope.

Lemma be_bytes_byte (n : nat) (x : Z) : Forall isByte (be_bytes n x).
Proof.
  unfold be_bytes. apply List.Forall_forall. intros b Hb.
  apply in_map_iff in Hb as (i & <- & _). unfold isByte.
  change 0xff with (Z.ones 8). rewrite Z.land_ones by lia.
  apply Z.mod_pos_bound. lia.
Qed.

Lemma be_bytes_length (n : nat) (x : Z) : List.length (be_bytes n x) = n.
Proof. unfold be_bytes. now rewrite length_map, length_rev, length_seq. Qed.

Lemma compress_length (h block : list Z) :
  List.length h = 8%nat -> List.length (compress h block) = 8%nat.
Proof.
  intros Hh. unfold compress. rewrite length_map, length_combine, Hh. reflexivity.
Qed.

Lemma blocks_length (fuel : nat) :
  forall h bytes, List.length h = 8%nat -> List.length (blocks fuel h bytes) = 8%nat.
Proof.
  induction fuel as [|f IH]; intros h bytes Hh; simpl; [assumption|].
  destruct bytes; [assumption|]. apply IH. now apply compress_length.
Qed.

Lemma flat_map_be_bytes_length (l : list Z) :
  List.length (flat_map (be_bytes 4) l) = (4 * List.length l)%nat.
Proof.
  induction l as [|x l IH]; [reflexivity|].
  cbn [flat_map]. rewrite length_app, be_bytes_length, IH. simpl. lia.
Qed.

Lemma Sum256_length (msg : list Z) : List.length (Sum256 msg) = 32%nat.
Proof.
  unfold Sum256. rewrite flat_map_be_bytes_length, blocks_length; reflexivity.
Qed.

Lemma Sum256_bytes (msg : list Z) : Forall isByte (Sum256 msg).
Proof.
  unfold Sum256. apply List.Forall_forall. intros b Hb.
  apply in_flat_map in Hb as (w & _ & Hb).
  pose proof (be_bytes_byte 4 w) as H. rewrite List.Forall_forall in H. now apply H.
Qed.

End Sha256Facts.

Lemma hex_length (bytes : list Z) :
  String.length (hex_EncodeToString bytes) = (2 * List.length bytes)%nat.
Proof. induction bytes as [|b l IH]; simpl; [reflexivity | rewrite IH; lia]. Qed.

Lemma hexdigit_checked (n : Z) :
  (0 <= n < 16)%Z ->
  isDigit (hexdigit n) = (n <? 10)%Z
  /\ ((n <? 10)%Z = true -> (Z.of_N (byteval (hexdigit n)) - 48)%Z = n).
Proof.
  intros Hn.
  pose proof (Z_range_forallb
                (fun n => Bool.eqb (isDigit (hexdigit n)) (n <? 10)%Z
                          && (negb (n <? 10)%Z
                              || (Z.of_N (byteval (hexdigit n)) - 48 =? n)%Z))
                16 eq_refl n Hn) as H.
  apply andb_true_iff in H as [H1 H2]. apply Bool.eqb_prop in H1.
  split; [assumption|]. intros Hlt. rewrite Hlt in H2. simpl in H2.
  now apply Z.eqb_eq in H2.
Qed.

Lemma nibble_ranges (b : Z) :
  isByte b -> (0 <= Z.shiftr b 4 < 16)%Z /\ (0 <= Z.land b 15 < 16)%Z.
Proof.
  unfold isByte. intros Hb. split.
  - rewrite Z.shiftr_div_pow2 by lia. change (2 ^ 4)%Z with 16%Z.
    split; [apply Z.div_pos; lia | apply Z.div_lt_upper_bound; lia].
  - change 15%Z with (Z.ones 4). rewrite Z.land_ones by lia.
    apply Z.mod_pos_bound. lia.
Qed.

(** The digits that remain of the hexadecimal string are the halves of
    the bytes that are below 10. *)
Lemma stripNonDigits_hex (bytes : list Z) :
  Forall isByte bytes ->
  allDigits (stripNonDigits (hex_EncodeToString bytes))
  /\ digitValues (stripNonDigits (hex_EncodeToString bytes))
     = List.filter (fun d => (d <? 10)%Z) (nibbles bytes).
Proof.
  unfold allDigits, digitValues.
  induction 1 as [|b l Hb Hl [IH1 IH2]]; [split; [constructor | reflexivity]|].
  destruct (nibble_ranges b Hb) as [Hhi Hlo].
  destruct (hexdigit_checked _ Hhi) as [Ehi Vhi].
  destruct (hexdigit_checked _ Hlo) as [Elo Vlo].
  cbn [hex_EncodeToString stripNonDigits nibbles flat_map List.app List.filter].
  change (Z.land b 15) with (Z.land b 0x0f) in *.
  rewrite Ehi, Elo.
  destruct (Z.shiftr b 4 <? 10)%Z eqn:E1; destruct (Z.land b 0x0f <? 10)%Z eqn:E2;
    cbn [list_ascii_of_string map]; fold (nibbles l);
    rewrite ?Vhi, ?Vlo by reflexivity; rewrite IH2;
    (split; [repeat (constructor; [assumption|]); assumption | reflexivity]).
Qed.

Lemma isDigit_inv (a : ascii) :
  isDigit a = true ->
  exists d, (0 <= d < Z.of_nat 10)%Z /\ a = ascii_of_N (Z.to_N (48 + d)).
Proof.
  unfold isDigit, byteval. intros H. apply andb_true_iff in H as [H1 H2].
  apply N.leb_le in H1, H2.
  exists (Z.of_N (N_of_ascii a) - 48)%Z. split; [lia|].
  replace (Z.to_N (48 + (Z.of_N (N_of_ascii a) - 48))) with (N_of_ascii a) by lia.
  symmetry. apply ascii_N_embedding.
Qed.

Lemma atoi_two_digits (a b : ascii) :
  isDigit a = true -> isDigit b = true ->
  strconv_Atoi (String a (String b ""))
  = (10 * (Z.of_N (byteval a) - 48) + (Z.of_N (byteval b) - 48))%Z
  /\ (0 <= strconv_Atoi (String a (String b "")) <= 99)%Z.
Proof.
  intros Ha Hb.
  destruct (isDigit_inv a Ha) as (x & Hx & ->).
  destruct (isDigit_inv b Hb) as (y & Hy & ->).
  pose (chr := fun d => ascii_of_N (Z.to_N (48 + d))).
  pose (ok := fun x y =>
          let n := strconv_Atoi (String (chr x) (String (chr y) "")) in
          (n =? 10 * (Z.of_N (byteval (chr x)) - 48) + (Z.of_N (byteval (chr y)) - 48))%Z
          && (0 <=? n)%Z && (n <=? 99)%Z).
  assert (ok x y = true) as H.
  { apply (Z_range_forallb (fun y => ok x y) 10); [|exact Hy].
    apply (Z_range_forallb
             (fun x => forallb (fun y => ok x y) (map Z.of_nat (seq 0 10))) 10);
      [vm_compute; reflexivity | exact Hx]. }
  unfold ok, chr in H. cbv zeta in H.
  apply andb_true_iff in H as [H H3]. apply andb_true_iff in H as [H1 H2].
  apply Z.eqb_eq in H1. apply Z.leb_le in H2, H3. split; [exact H1 | lia].
Qed.

Lemma seedOf_list (hexHash : string) :
  list_ascii_of_string (seedOf hexHash)
  = firstn 12 (list_ascii_of_string (stripNonDigits hexHash)).
Proof.
  unfold seedOf. destruct (Nat.ltb_spec 12 (String.length (stripNonDigits hexHash))).
  - now rewrite substring_list.
  - rewrite firstn_all2; [reflexivity|]. rewrite length_list_ascii. lia.
Qed.

Lemma seedOf_allDigits (hexHash : string) :
  allDigits (stripNonDigits hexHash) -> allDigits (seedOf hexHash).
Proof.
  unfold allDigits. rewrite seedOf_list. intros H.
  rewrite List.Forall_forall in *. intros c Hc. apply H.
  rewrite <- (firstn_skipn 12). apply in_or_app. now left.
Qed.

Lemma seedOf_length (hexHash : string) :
  String.length (seedOf hexHash) = Nat.min 12 (String.length (stripNonDigits hexHash)).
Proof.
  rewrite <- !length_list_ascii, seedOf_list. apply length_firstn.
Qed.

(** Step 4a on a string of digits: the chunk of index [i] read as a
    number. *)
Lemma rawValue_chunk (hashStr : string) (i : nat) :
  allDigits hashStr -> (2 * i + 2 <= String.length hashStr)%nat ->
  rawValue hashStr i
  = Returns (10 * nth (2 * i) (digitValues hashStr) 0
             + nth (2 * i + 1) (digitValues hashStr) 0)%Z
  /\ (0 <= 10 * nth (2 * i) (digitValues hashStr) 0
           + nth (2 * i + 1) (digitValues hashStr) 0 <= 99)%Z.
Proof.
  intros Hd Hlen. unfold rawValue, go_slice.
  replace (i * 2)%nat with (2 * i)%nat by lia.
  replace (2 * i + 2 - 2 * i)%nat with 2%nat by lia.
  destruct (Nat.leb_spec (2 * i) (2 * i + 2)); [|lia].
  destruct (Nat.leb_spec (2 * i + 2) (String.length hashStr)); [|lia].
  cbn [andb mbind outcome_mbind obind].
  unfold allDigits, digitValues in *.
  pose proof (substring_list hashStr (2 * i) 2) as Hsub.
  pose proof (firstn_skipn (2 * i) (list_ascii_of_string hashStr)) as Hsplit.
  assert (List.length (firstn (2 * i) (list_ascii_of_string hashStr)) = (2 * i)%nat) as Hpre.
  { rewrite length_firstn, length_list_ascii. lia. }
  assert (List.length (skipn (2 * i) (list_ascii_of_string hashStr)) >= 2)%nat as Hsuf.
  { rewrite length_skipn, length_list_ascii. lia. }
  destruct (skipn (2 * i) (list_ascii_of_string hashStr)) as [|a [|b rest]];
    [simpl in Hsuf; lia | simpl in Hsuf; lia |].
  cbn [firstn] in Hsub.
  assert (substring (2 * i) 2 hashStr = String a (String b "")) as ->
      by (apply list_ascii_inj; exact Hsub).
  rewrite <- Hsplit in Hd. apply Forall_app in Hd as [_ Hd].
  inversion Hd as [|? ? Ha Hd']; subst. inversion Hd' as [|? ? Hb _]; subst.
  rewrite <- Hsplit, map_app.
  rewrite !app_nth2 by (rewrite length_map, Hpre; lia).
  rewrite length_map, Hpre.
  replace (2 * i - 2 * i)%nat with 0%nat by lia.
  replace (2 * i + 1 - 2 * i)%nat with 1%nat by lia.
  cbn [map nth].
  destruct (atoi_two_digits a b Ha Hb) as [E R]. rewrite <- E.
  split; [reflexivity | exact R].
Qed.

Lemma digitValues_seedOf (hexHash : string) :
  digitValues (seedOf hexHash) = firstn 12 (digitValues (stripNonDigits hexHash)).
Proof. unfold digitValues. now rewrite seedOf_list, firstn_map. Qed.

Lemma digitValues_length (s : string) :
  List.length (digitValues s) = String.length s.
Proof. unfold digitValues. now rewrite length_map, length_list_ascii. Qed.

Lemma hash_digits (input : string) :
  allDigits (stripNonDigits (hex_EncodeToString (sha256_Sum256 input)))
  /\ digitValues (stripNonDigits (hex_EncodeToString (sha256_Sum256 input)))
     = spec_digits input.
Proof. apply stripNonDigits_hex, Sha256Facts.Sum256_bytes. Qed.

Lemma rawValue_of_input (input : string) (i : nat) :
  (2 * i + 2 <= 12)%nat ->
  (2 * i + 2 <= List.length (spec_digits input))%nat ->
  rawValue (seedOf (hex_EncodeToString (sha256_Sum256 input))) i
  = Returns (spec_rawValue input i)
  /\ (0 <= spec_rawValue input i <= 99)%Z.
Proof.
  intros Hi Hlen. destruct (hash_digits input) as [Hall Hval].
  unfold spec_rawValue. cbv zeta. rewrite <- Hval, <- digitValues_seedOf.
  apply rawValue_chunk; [now apply seedOf_allDigits|].
  rewrite seedOf_length, <- digitValues_length, Hval. lia.
Qed.

Section Seed.

Context {tables : CaseTables} {catalog : Catalog}.

Lemma generateFromHash_unfold (cfg : config) (hashBytes : list Z) (raw : nat -> Z) :
  (forall i, (i < 6)%nat ->
             rawValue (seedOf (hex_EncodeToString hashBytes)) i = Returns (raw i)) ->
  generateFromHash cfg hashBytes = renderAll cfg raw.
Proof.
  intros H. unfold generateFromHash, renderAll. cbn [partsLoop partNames].
  rewrite !H by lia. cbn [mbind outcome_mbind obind].
  repeat match goal with
         | |- context [renderPart ?c ?n ?v] =>
             destruct (renderPart c n v); cbn [mbind outcome_mbind obind];
             try reflexivity
         end.
Qed.

Lemma raw_values_digit_chunks_unfold (input : string) (opts : list Option) :
  input <> "" -> (12 <= List.length (spec_digits input))%nat ->
  Generate input opts = renderAll (applyOptions opts) (spec_rawValue input).
Proof.
  intros Hne Hlen. unfold Generate.
  destruct (String.eqb_spec input ""); [contradiction|].
  apply generateFromHash_unfold. intros i Hi.
  apply rawValue_of_input; lia.
Qed.

(** C1.  The hexadecimal rendering of the hash has 64 characters.  The
    raw value of the part of index [i], in the order env, clo, head, mouth,
    eyes, top, is the number from 0 to 99 that the chunk of index [i], two
    digits wide, reads in the first 12 of the decimal digits that remain of
    the rendering; these six values are the ones the resolver is given. *)
Theorem raw_values_are_digit_chunks (input : string) (opts : list Option) :
  input <> "" ->
  String.length (hex_EncodeToString (sha256_Sum256 input)) = 64%nat
  /\ (forall i, (i < 6)%nat ->
                (2 * i + 2 <= List.length (spec_digits input))%nat ->
                rawValue (seedOf (hex_EncodeToString (sha256_Sum256 input))) i
                = Returns (spec_rawValue input i)
                /\ (0 <= spec_rawValue input i <= 99)%Z)
  /\ ((12 <= List.length (spec_digits input))%nat ->
      Generate input opts = renderAll (applyOptions opts) (spec_rawValue input)).
Proof.
  intros Hne. split; [|split].
  - rewrite hex_length. unfold sha256_Sum256. now rewrite Sha256Facts.Sum256_length.
  - intros i Hi Hlen. apply rawValue_of_input; [lia | exact Hlen].
  - intros Hlen. now apply raw_values_digit_chunks_unfold.
Qed.

Lemma partsLoop_panics (cfg : config) (hashStr : string) (names : list string) :
  forall i j sp, (j < List.length names)%nat ->
                 rawValue hashStr (i + j) = Panics ->
                 partsLoop cfg hashStr i names sp = Panics.
Proof.
  induction names as [|name rest IH]; intros i j sp Hj Hp; [simpl in Hj; lia|].
  cbn [partsLoop]. destruct j as [|j].
  - rewrite Nat.add_0_r in Hp. rewrite Hp. reflexivity.
  - destruct (rawValue hashStr i); [|reflexivity]. cbn [mbind outcome_mbind obind].
    destruct (renderPart cfg name a); [|reflexivity]. cbn [mbind outcome_mbind obind].
    apply (IH (S i) j); [simpl in Hj; lia|].
    now replace (S i + j)%nat with (i + S j)%nat by lia.
Qed.

(** With fewer than 12 digits left the chunk of the last part is out of
    range, and the slice expression panics. *)
Lemma short_seed_panics (cfg : config) (hashBytes : list Z) :
  (String.length (stripNonDigits (hex_EncodeToString hashBytes)) < 12)%nat ->
  generateFromHash cfg hashBytes = Panics.
Proof.
  intros Hlen. unfold generateFromHash.
  assert (partsLoop cfg (seedOf (hex_EncodeToString hashBytes)) 0 partNames ∅ = Panics) as ->.
  { apply (partsLoop_panics _ _ _ 0 5); [simpl; lia|].
    unfold rawValue, go_slice.
    assert (((0 + 5) * 2 + 2
             <=? String.length (seedOf (hex_EncodeToString hashBytes)))%nat = false) as ->
        by (apply Nat.leb_gt; rewrite seedOf_length; lia).
    now rewrite andb_false_r. }
  reflexivity.
Qed.

Lemma spec_digits_length (input : string) :
  List.length (spec_digits input)
  = String.length (stripNonDigits (hex_EncodeToString (sha256_Sum256 input))).
Proof.
  destruct (hash_digits input) as [_ <-]. apply digitValues_length.
Qed.

(** On an input: [Generate] panics when the hash leaves fewer than 12
    digits. *)
Lemma Generate_panics_on_short_seed (input : string) (opts : list Option) :
  input <> "" -> (List.length (spec_digits input) < 12)%nat ->
  Generate input opts = Panics.
Proof.
  intros Hne Hlen. unfold Generate.
  destruct (String.eqb_spec input ""); [contradiction|].
  apply short_seed_panics. now rewrite <- spec_digits_length.
Qed.

(** C8 fails on the code.  A hash whose 32 bytes are all 0xaa renders as
    64 letters: no digit remains, [hashStr[0:2]] is out of range and
    [Generate] panics, whatever the configuration and the catalog. *)
Theorem generate_panics_without_digits (cfg : config) :
  stripNonDigits (hex_EncodeToString (repeat 0xaa%Z 32)) = ""
  /\ generateFromHash cfg (repeat 0xaa%Z 32) = Panics.
Proof.
  split; [reflexivity|]. apply short_seed_panics. simpl. lia.
Qed.

End Seed.

Lemma raw_values_witness :
  "Binx Bond123" <> ""
  /\ seedOf (hex_EncodeToString (sha256_Sum256 "Binx Bond123")) = "446172268173"
  /\ map (spec_rawValue "Binx Bond123") (seq 0 6) = [44; 61; 72; 26; 81; 73]%Z
  /\ rawValue (seedOf (hex_EncodeToString (sha256_Sum256 "Binx Bond123"))) 5
     = Returns (spec_rawValue "Binx Bond123" 5)
  /\ Generate (tables := asciiOnly) (catalog := exampleCatalog) "Binx Bond123" []
     = renderAll (catalog := exampleCatalog) zeroConfig (spec_rawValue "Binx Bond123").
Proof.
  assert ("Binx Bond123" <> "") as Hne by discriminate.
  assert (12 <= List.length (spec_digits "Binx Bond123"))%nat as Hlen
      by (vm_compute; lia).
  destruct (raw_values_are_digit_chunks (tables := asciiOnly) (catalog := exampleCatalog)
              "Binx Bond123" [] Hne) as (_ & H2 & H3).
  split; [exact Hne|]. split; [vm_compute; reflexivity|].
  split; [vm_compute; reflexivity|]. split.
  - apply (H2 5%nat); [lia | lia].
  - exact (H3 Hlen).
Defined.

(** ** The document *)

Lemma openTag_cons : exists rest, openTag = String "<" rest.
Proof. eexists. vm_compute. reflexivity. Qed.

Lemma assemble_document (cfg : config) (sp : gmap string string) :
  assemble cfg sp = documentWithout (omitted cfg) sp.
Proof.
  unfold assemble, documentWithout, omitted, renderOrder. cbv zeta.
  cbn [List.filter String.eqb Ascii.eqb Bool.eqb andb orb].
  destruct (withoutBackground cfg), (isDisabled cfg "env"), (isDisabled cfg "head"),
    (isDisabled cfg "clo"), (isDisabled cfg "top"), (isDisabled cfg "eyes"),
    (isDisabled cfg "mouth");
    cbn [negb andb orb concatParts existsb String.eqb Ascii.eqb Bool.eqb];
    rewrite ?append_assoc, ?append_nil_l, ?append_nil_r; reflexivity.
Qed.

Section Document.

Context {tables : CaseTables} {catalog : Catalog}.

Lemma catalogCompleteb_sound : catalogCompleteb = true -> catalogComplete.
Proof.
  unfold catalogCompleteb, catalogComplete, themeColors.
  intros H partV theme partName colors Hc.
  destruct (themes !! partV) as [byTheme|] eqn:E1; [|discriminate].
  destruct (byTheme !! theme) as [byPart|] eqn:E2; [|discriminate].
  rewrite forallb_forall in H.
  assert (In (partV, byTheme) (map_to_list themes)) as H1
      by (apply list_elem_of_In, elem_of_map_to_list; exact E1).
  specialize (H _ H1). cbn [fst snd] in H. rewrite forallb_forall in H.
  assert (In (theme, byPart) (map_to_list byTheme)) as H2
      by (apply list_elem_of_In, elem_of_map_to_list; exact E2).
  specialize (H _ H2). cbn [fst snd] in H. rewrite forallb_forall in H.
  assert (In (partName, colors) (map_to_list byPart)) as H3
      by (apply list_elem_of_In, elem_of_map_to_list; exact Hc).
  specialize (H _ H3). cbn [fst snd] in H.
  destruct (fragmentOf partV partName) as [s|]; [now exists s | discriminate].
Qed.

Lemma getFinalPart_returns (partName partV theme : string) (override : list string) :
  catalogComplete ->
  exists s, getFinalPartWithOverride partName partV theme override = Returns s.
Proof.
  intros Hcat. unfold getFinalPartWithOverride.
  destruct (themeColors partV theme partName) as [colors|] eqn:E; [|now eexists].
  destruct (Hcat _ _ _ _ E) as (svg & Hsvg). unfold fragmentOf in Hsvg.
  destruct (go_index parts (strconv_Atoi partV)) as [row|]; [|discriminate].
  cbn [mbind outcome_mbind obind] in *. rewrite Hsvg. now eexists.
Qed.

Lemma renderPart_returns (cfg : config) (name : string) (v : Z) :
  configOK cfg -> catalogComplete -> (0 <= v)%Z ->
  exists s, renderPart cfg name v = Returns s.
Proof.
  intros Hok Hcat Hv. unfold renderPart.
  rewrite (resolvePart_precedence cfg name v Hok Hv).
  cbn [mbind outcome_mbind obind]. now apply getFinalPart_returns.
Qed.

Lemma renderAll_returns (cfg : config) (raw : nat -> Z) :
  configOK cfg -> catalogComplete -> (forall i, (0 <= raw i)%Z) ->
  exists sp, renderAll cfg raw = Returns (assemble cfg sp).
Proof.
  intros Hok Hcat Hraw. unfold renderAll.
  repeat match goal with
         | |- context [renderPart cfg ?n (raw ?i)] =>
             let s := fresh "s" in
             let E := fresh "E" in
             destruct (renderPart_returns cfg n (raw i) Hok Hcat (Hraw i)) as (s & E);
             rewrite E; cbn [mbind outcome_mbind obind]
         end.
  now eexists.
Qed.

Lemma generateFromHash_shape (cfg : config) (hashBytes : list Z) (s : string) :
  generateFromHash cfg hashBytes = Returns s ->
  exists body, s = openTag +:+ body +:+ closeTag.
Proof.
  unfold generateFromHash.
  destruct (partsLoop _ _ _ _ _) as [sp|]; [|discriminate].
  cbn [mbind outcome_mbind obind]. intros [= <-].
  rewrite assemble_document. unfold documentWithout. now eexists.
Qed.

Lemma raw_nonneg (input : string) :
  (12 <= List.length (spec_digits input))%nat ->
  forall i, (0 <= spec_rawValue input i)%Z.
Proof.
  intros Hlen i. destruct (Nat.lt_ge_cases i 6) as [Hi|Hi].
  - apply (rawValue_of_input input i); lia.
  - unfold spec_rawValue. cbv zeta.
    rewrite !nth_overflow by (rewrite length_firstn; lia). lia.
Qed.

Lemma Generate_returns (input : string) (opts : list Option) :
  input <> "" -> (12 <= List.length (spec_digits input))%nat -> catalogComplete ->
  exists sp, Generate input opts = Returns (assemble (applyOptions opts) sp).
Proof.
  intros Hne Hlen Hcat.
  rewrite (raw_values_digit_chunks_unfold input opts Hne Hlen).
  exact (renderAll_returns (applyOptions opts) (spec_rawValue input)
           (applyOptions_OK opts) Hcat (raw_nonneg input Hlen)).
Qed.

(** C5 fails on the code where C8 does.  [Generate] returns the empty
    string exactly when the input is empty, and on a non-empty input
    every result it returns is the opening tag with the viewbox
    [0 0 231 231], then some body, then the closing tag, whatever the
    options and the catalog.  It returns one when the hash leaves 12
    digits and the catalog is complete; when the hash leaves fewer than 12
    digits it panics and there is no document, as for the hash whose 32
    bytes are all 0xaa, under every option list. *)
Theorem generate_empty_iff_and_envelope (input : string) (opts : list Option) :
  (Generate input opts = Returns "" <-> input = "")
  /\ (input <> "" ->
      forall s, Generate input opts = Returns s ->
                exists body, s = openTag +:+ body +:+ closeTag)
  /\ (input <> "" -> (12 <= List.length (spec_digits input))%nat -> catalogComplete ->
      exists body, Generate input opts = Returns (openTag +:+ body +:+ closeTag))
  /\ (input <> "" -> (List.length (spec_digits input) < 12)%nat ->
      Generate input opts = Panics)
  /\ (forall s, generateFromHash (applyOptions opts) (repeat 0xaa%Z 32) <> Returns s).
Proof.
  split; [|split; [|split; [|split]]].
  - unfold Generate. destruct (String.eqb_spec input "") as [->|Hne].
    + split; reflexivity.
    + split; [|contradiction]. intros H.
      destruct (generateFromHash_shape _ _ _ H) as (body & Hb).
      destruct openTag_cons as (rest & Ho). rewrite Ho, append_cons in Hb. discriminate Hb.
  - intros Hne s. unfold Generate.
    destruct (String.eqb_spec input ""); [contradiction|].
    apply generateFromHash_shape.
  - intros Hne Hlen Hcat.
    destruct (Generate_returns input opts Hne Hlen Hcat) as (sp & ->).
    rewrite assemble_document. unfold documentWithout. now eexists.
  - intros Hne Hlen. now apply Generate_panics_on_short_seed.
  - intros s. rewrite short_seed_panics; [discriminate|]. simpl. lia.
Qed.

(** X20.  With a complete catalog, [Generate] returns on a non-empty input
    exactly when the hash leaves 12 digits. *)
Lemma Generate_returns_iff (input : string) (opts : list Option) :
  input <> "" -> catalogComplete ->
  (exists s, Generate input opts = Returns s)
  <-> (12 <= List.length (spec_digits input))%nat.
Proof.
  intros Hne Hcat. split.
  - intros (s & Hs). destruct (Nat.le_gt_cases 12 (List.length (spec_digits input)));
      [assumption|].
    rewrite (Generate_panics_on_short_seed input opts Hne) in Hs by lia. discriminate Hs.
  - intros Hlen. destruct (Generate_returns input opts Hne Hlen Hcat) as (sp & Hs).
    eexists. exact Hs.
Qed.

Lemma renderPart_frame (c c' : config) (name : string) (v : Z) :
  sameSelection c c' -> renderPart c name v = renderPart c' name v.
Proof.
  intros (E1 & E2 & E3 & E4 & E5 & E6).
  unfold renderPart, resolvePart, resolveTheme, resolveVersion.
  now rewrite E1, E2, E3, E4, E5, E6.
Qed.

Lemma partsLoop_frame (c c' : config) (hashStr : string) (names : list string) :
  sameSelection c c' ->
  forall i sp, partsLoop c hashStr i names sp = partsLoop c' hashStr i names sp.
Proof.
  intros Hs. induction names as [|name rest IH]; intros i sp; [reflexivity|].
  cbn [partsLoop]. destruct (rawValue hashStr i) as [v|]; [|reflexivity].
  cbn [mbind outcome_mbind obind]. rewrite (renderPart_frame c c' name v Hs).
  destruct (renderPart c' name v); [|reflexivity].
  cbn [mbind outcome_mbind obind]. apply IH.
Qed.

Lemma generate_as_document (input : string) (opts : list Option) :
  input <> "" -> sameSelection (applyOptions opts) zeroConfig ->
  Generate input opts
  = sp ← fragmentsOf input; Returns (documentWithout (omitted (applyOptions opts)) sp).
Proof.
  intros Hne Hs. unfold Generate, generateFromHash, fragmentsOf.
  destruct (String.eqb_spec input ""); [contradiction|].
  rewrite (partsLoop_frame _ _ _ _ Hs).
  destruct (partsLoop _ _ _ _ _); [|reflexivity].
  cbn [mbind outcome_mbind obind]. now rewrite assemble_document.
Qed.

(** C6.  For a non-empty input and each of the six part names [p], the
    document with [WithoutPart(p)] is the document without options with the
    fragment of [p] left out, the five others being the same fragments in
    the same order; with [WithoutBackground()] the fragment left out is the
    one of env.  The six fragments are rendered when the hash leaves 12
    digits and the catalog is complete. *)
Theorem disabling_removes_one_fragment (input p : string) :
  input <> "" -> In p partNames ->
  Generate input [] = (sp ← fragmentsOf input; Returns (documentWithout [] sp))
  /\ Generate input [WithoutPart p]
     = (sp ← fragmentsOf input; Returns (documentWithout [p] sp))
  /\ Generate input [WithoutBackground]
     = (sp ← fragmentsOf input; Returns (documentWithout ["env"] sp))
  /\ ((12 <= List.length (spec_digits input))%nat -> catalogComplete ->
      exists sp, fragmentsOf input = Returns sp).
Proof.
  intros Hne Hp. split; [|split; [|split]].
  - apply (generate_as_document input [] Hne). repeat split.
  - simpl in Hp.
    repeat (destruct Hp as [<- | Hp];
            [apply generate_as_document; [exact Hne | repeat split]|]).
    destruct Hp.
  - apply (generate_as_document input [WithoutBackground] Hne). repeat split.
  - intros Hlen Hcat. unfold fragmentsOf.
    pose proof (generateFromHash_unfold zeroConfig (sha256_Sum256 input)
                  (spec_rawValue input)) as Hu.
    unfold generateFromHash in Hu.
    destruct (partsLoop _ _ _ _ _) as [sp|]; [now eexists|].
    cbn [mbind outcome_mbind obind] in Hu.
    destruct (renderAll_returns zeroConfig (spec_rawValue input)
                zeroConfig_OK Hcat (raw_nonneg input Hlen)) as (sp & Hr).
    rewrite Hr in Hu. discriminate Hu.
    intros i Hi. apply rawValue_of_input; lia.
Qed.

End Document.

Lemma exampleCatalog_complete : catalogComplete (catalog := exampleCatalog).
Proof. apply catalogCompleteb_sound. vm_compute. reflexivity. Qed.

Lemma envelope_witness :
  "Binx Bond123" <> ""
  /\ (12 <= List.length (spec_digits "Binx Bond123"))%nat
  /\ catalogComplete (catalog := exampleCatalog)
  /\ exists body,
      Generate (tables := asciiOnly) (catalog := exampleCatalog)
        "Binx Bond123" [WithoutBackground; WithoutPart "top"; WithGender "f"]
      = Returns (openTag +:+ body +:+ closeTag).
Proof.
  assert ("Binx Bond123" <> "") as Hne by discriminate.
  assert (12 <= List.length (spec_digits "Binx Bond123"))%nat as Hlen
      by (vm_compute; lia).
  split; [exact Hne|]. split; [exact Hlen|]. split; [exact exampleCatalog_complete|].
  destruct (generate_empty_iff_and_envelope (tables := asciiOnly)
              (catalog := exampleCatalog) "Binx Bond123"
              [WithoutBackground; WithoutPart "top"; WithGender "f"]) as (_ & _ & H & _).
  exact (H Hne Hlen exampleCatalog_complete).
Defined.

Lemma disabling_witness :
  "Binx Bond123" <> "" /\ In "top" partNames
  /\ Generate (tables := asciiOnly) (catalog := exampleCatalog) "Binx Bond123" [WithoutPart "top"]
     = (sp ← fragmentsOf (catalog := exampleCatalog) "Binx Bond123";
        Returns (documentWithout ["top"] sp))
  /\ exists sp, fragmentsOf (catalog := exampleCatalog) "Binx Bond123" = Returns sp.
Proof.
  assert ("Binx Bond123" <> "") as Hne by discriminate.
  assert (In "top" partNames) as Hin by (simpl; tauto).
  assert (12 <= List.length (spec_digits "Binx Bond123"))%nat as Hlen
      by (vm_compute; lia).
  destruct (disabling_removes_one_fragment (tables := asciiOnly) (catalog := exampleCatalog)
              "Binx Bond123" "top" Hne Hin) as (_ & H2 & _ & H4).
  split; [exact Hne|]. split; [exact Hin|]. split; [exact H2|].
  exact (H4 Hlen exampleCatalog_complete).
Defined.

Example generate_Binx_Bond :
  Generate (tables := asciiOnly) (catalog := exampleCatalog) "Binx Bond123" [WithoutBackground]
  = Returns (openTag
             +:+ "<head02 fill:#headC; stroke:#CC; stop:#1;/>"
             +:+ "<clo13 fill:#cloB; stroke:#BB; stop:#1;/>"
             +:+ "<top02 fill:#topC; stroke:#CC; stop:#1;/>"
             +:+ "<eyes06 fill:#eyesC; stroke:#CC; stop:#1;/>"
             +:+ "<mouth12 fill:#mouthA; stroke:#AA; stop:#1;/>" +:+ closeTag).
Proof. vm_compute. reflexivity. Qed.

Example openTag_viewBox : occursIn "0 0 231 231" openTag = true.
Proof. reflexivity. Qed.

(** ** The fragment renderer *)

Lemma prefix_append (t rest : string) : String.prefix t (t +:+ rest) = true.
Proof.
  induction t as [|c t IH]; [destruct rest; reflexivity|].
  rewrite append_cons. cbn [String.prefix].
  destruct (ascii_dec c c); [exact IH | congruence].
Qed.

Lemma prefix_split (t s : string) :
  String.prefix t s = true -> exists rest, s = t +:+ rest.
Proof.
  revert s. induction t as [|c t IH]; intros s H.
  - exists s. reflexivity.
  - destruct s as [|d s]; [discriminate|]. cbn [String.prefix] in H.
    destruct (ascii_dec c d) as [->|]; [|discriminate].
    destruct (IH s H) as (rest & ->). exists rest. reflexivity.
Qed.

Lemma string_drop_append (t rest : string) :
  string_drop (String.length t) (t +:+ rest) = rest.
Proof.
  unfold string_drop. rewrite length_append.
  replace (String.length t + String.length rest - String.length t)%nat
    with (String.length rest) by lia.
  induction t as [|c t IH].
  - rewrite append_nil_l. apply list_ascii_inj.
    rewrite substring_list. cbn [skipn]. apply firstn_all2.
    rewrite length_list_ascii. lia.
  - rewrite append_cons. exact IH.
Qed.

Lemma string_drop_app_l (n : nat) (a rest : string) :
  (n <= String.length a)%nat ->
  string_drop n (a +:+ rest) = string_drop n a +:+ rest.
Proof.
  revert n. induction a as [|c a IH]; intros n Hn.
  - simpl in Hn. replace n with 0%nat by lia. rewrite append_nil_l.
    change (string_drop 0 "") with "". rewrite append_nil_l.
    apply (string_drop_append "" rest).
  - destruct n as [|n].
    + pose proof (string_drop_append "" (String c a +:+ rest)) as H1.
      pose proof (string_drop_append "" (String c a)) as H2.
      rewrite append_nil_l in H1, H2. cbn [String.length] in H1, H2.
      now rewrite H1, H2.
    + rewrite append_cons. unfold string_drop in *. cbn [String.length Nat.sub substring].
      apply IH. simpl in Hn. lia.
Qed.

(** *** Matches *)

Lemma firstStop_append (a b : string) :
  firstStop (a +:+ b) = match firstStop a with
                        | Some c => Some c
                        | None => firstStop b
                        end.
Proof.
  induction a as [|c a IH]; [reflexivity|]. rewrite append_cons. cbn [firstStop].
  destruct (Ascii.eqb c ";" || Ascii.eqb c LF); [reflexivity | exact IH].
Qed.

Lemma matchBody_Some (s b rest : string) :
  matchBody s = Some (b, rest) ->
  s = b +:+ rest
  /\ exists body, b = body +:+ ";" /\ firstStop body = None.
Proof.
  revert b rest. induction s as [|c s IH]; intros b rest H; [discriminate|].
  cbn [matchBody] in H. destruct (Ascii.eqb_spec c ";") as [->|Hc].
  - injection H as <- <-. split; [reflexivity|]. exists "". split; reflexivity.
  - destruct (Ascii.eqb_spec c LF) as [->|Hl]; [discriminate|].
    destruct (matchBody s) as [[b' rest']|]; [|discriminate].
    injection H as <- <-. destruct (IH _ _ eq_refl) as (-> & body & -> & Hb).
    split; [reflexivity|]. exists (String c body). split; [reflexivity|].
    cbn [firstStop]. destruct (Ascii.eqb_spec c ";"); [contradiction|].
    destruct (Ascii.eqb_spec c LF); [contradiction|]. exact Hb.
Qed.

Lemma matchBody_token (body rest : string) :
  firstStop body = None ->
  matchBody ((body +:+ ";") +:+ rest) = Some (body +:+ ";", rest).
Proof.
  induction body as [|c body IH]; intros H.
  - reflexivity.
  - cbn [firstStop] in H. rewrite !append_cons. cbn [matchBody].
    destruct (Ascii.eqb c ";"); [discriminate|].
    destruct (Ascii.eqb c LF); [discriminate|]. cbn [orb] in H.
    now rewrite (IH H).
Qed.

Lemma matchBody_None (s : string) :
  matchBody s = None <-> firstStop s <> Some ";"%char.
Proof.
  induction s as [|c s IH]; cbn [matchBody firstStop].
  - split; [discriminate | reflexivity].
  - destruct (Ascii.eqb_spec c ";") as [->|Hc]; cbn [orb].
    + split; [discriminate | congruence].
    + destruct (Ascii.eqb_spec c LF) as [->|Hl].
      * split; [discriminate | reflexivity].
      * destruct (matchBody s) as [[b r]|].
        -- split; [discriminate|]. intros H. apply IH in H. discriminate.
        -- split; [intros _; now apply IH | reflexivity].
Qed.

Lemma matchAt_Some (s t rest : string) :
  matchAt s = Some (t, rest) -> s = t +:+ rest /\ isToken t.
Proof.
  destruct s as [|c s]; [discriminate|]. cbn [matchAt].
  destruct (Ascii.eqb_spec c "#") as [->|]; [|discriminate].
  destruct (matchBody s) as [[b r]|] eqn:E; [|discriminate].
  intros [= <- <-]. destruct (matchBody_Some _ _ _ E) as (-> & body & -> & Hb).
  split; [reflexivity|]. exists body. split; [reflexivity | exact Hb].
Qed.

Lemma matchAt_token (t rest : string) :
  isToken t -> matchAt (t +:+ rest) = Some (t, rest).
Proof.
  intros (body & -> & Hb). rewrite append_cons. cbn [matchAt Ascii.eqb Bool.eqb].
  now rewrite (matchBody_token body rest Hb).
Qed.

Lemma matchAt_shorter (s t rest : string) :
  matchAt s = Some (t, rest) -> (String.length rest < String.length s)%nat.
Proof.
  intros H. destruct (matchAt_Some _ _ _ H) as (-> & body & -> & _).
  rewrite length_append. simpl. lia.
Qed.

(** A token is a prefix of [s] exactly when it is the match at [s]. *)
Lemma prefix_token (t s : string) :
  isToken t -> String.prefix t s = true -> exists rest, matchAt s = Some (t, rest).
Proof.
  intros Ht H. destruct (prefix_split _ _ H) as (rest & ->).
  exists rest. now apply matchAt_token.
Qed.

(** *** The fuel of the scans is enough *)

Lemma findAllFrom_fuel (f1 : nat) :
  forall f2 s, (String.length s <= f1)%nat -> (String.length s <= f2)%nat ->
               findAllFrom f1 s = findAllFrom f2 s.
Proof.
  induction f1 as [|f1 IH]; intros f2 s H1 H2.
  - destruct s; [|simpl in H1; lia]. destruct f2; reflexivity.
  - destruct s as [|c r]; [destruct f2; reflexivity|].
    destruct f2 as [|f2]; [simpl in H2; lia|]. cbn [findAllFrom].
    simpl in H1, H2.
    destruct (matchAt (String c r)) as [[tok rest]|] eqn:E.
    + pose proof (matchAt_shorter _ _ _ E) as Hs. simpl in Hs.
      f_equal. apply IH; lia.
    + apply IH; lia.
Qed.

Lemma substituteFrom_fuel (f1 : nat) :
  forall f2 s colors, (String.length s <= f1)%nat -> (String.length s <= f2)%nat ->
                      substituteFrom f1 s colors = substituteFrom f2 s colors.
Proof.
  induction f1 as [|f1 IH]; intros f2 s colors H1 H2.
  - destruct s; [|simpl in H1; lia]. destruct f2, colors; reflexivity.
  - destruct s as [|c r]; [destruct f2, colors; reflexivity|].
    destruct f2 as [|f2]; [simpl in H2; lia|]. cbn [substituteFrom].
    simpl in H1, H2. destruct colors as [|color more]; [reflexivity|].
    destruct (matchAt (String c r)) as [[tok rest]|] eqn:E.
    + pose proof (matchAt_shorter _ _ _ E) as Hs. simpl in Hs.
      f_equal. apply IH; lia.
    + f_equal. apply IH; lia.
Qed.

Lemma dropMatchesFrom_fuel (f1 : nat) :
  forall f2 k s, (String.length s <= f1)%nat -> (String.length s <= f2)%nat ->
                 dropMatchesFrom f1 k s = dropMatchesFrom f2 k s.
Proof.
  induction f1 as [|f1 IH]; intros f2 k s H1 H2.
  - destruct s; [|simpl in H1; lia]. destruct f2, k; reflexivity.
  - destruct s as [|c r]; [destruct f2, k; reflexivity|].
    destruct f2 as [|f2]; [simpl in H2; lia|]. cbn [dropMatchesFrom].
    simpl in H1, H2. destruct k as [|k]; [reflexivity|].
    destruct (matchAt (String c r)) as [[tok rest]|] eqn:E.
    + pose proof (matchAt_shorter _ _ _ E) as Hs. simpl in Hs.
      apply IH; lia.
    + apply IH; lia.
Qed.

Lemma FindAllString_match (c : ascii) (r tok rest : string) :
  matchAt (String c r) = Some (tok, rest) ->
  FindAllString (String c r) = tok :: FindAllString rest.
Proof.
  intros E. unfold FindAllString. cbn [String.length findAllFrom]. rewrite E.
  pose proof (matchAt_shorter _ _ _ E) as Hs. simpl in Hs.
  f_equal. apply findAllFrom_fuel; lia.
Qed.

Lemma FindAllString_skip (c : ascii) (r : string) :
  matchAt (String c r) = None -> FindAllString (String c r) = FindAllString r.
Proof.
  intros E. unfold FindAllString. cbn [String.length findAllFrom]. now rewrite E.
Qed.

Lemma substitute_match (c : ascii) (r tok rest color : string) (more : list string) :
  matchAt (String c r) = Some (tok, rest) ->
  substitutePositional (String c r) (color :: more)
  = (color +:+ ";") +:+ substitutePositional rest more.
Proof.
  intros E. unfold substitutePositional. cbn [String.length substituteFrom]. rewrite E.
  pose proof (matchAt_shorter _ _ _ E) as Hs. simpl in Hs.
  f_equal. apply substituteFrom_fuel; lia.
Qed.

Lemma substitute_skip (c : ascii) (r : string) (colors : list string) :
  matchAt (String c r) = None ->
  substitutePositional (String c r) colors = String c (substitutePositional r colors).
Proof.
  intros E. unfold substitutePositional. cbn [String.length substituteFrom]. rewrite E.
  destruct colors; [|reflexivity]. destruct (String.length r); reflexivity.
Qed.

Lemma substitute_nil (s : string) : substitutePositional s [] = s.
Proof. unfold substitutePositional. destruct (String.length s); reflexivity. Qed.

Lemma afterMatches_match (c : ascii) (r tok rest : string) (k : nat) :
  matchAt (String c r) = Some (tok, rest) ->
  afterMatches (S k) (String c r) = afterMatches k rest.
Proof.
  intros E. unfold afterMatches. cbn [String.length dropMatchesFrom]. rewrite E.
  pose proof (matchAt_shorter _ _ _ E) as Hs. simpl in Hs.
  apply dropMatchesFrom_fuel; lia.
Qed.

Lemma afterMatches_skip (c : ascii) (r : string) (k : nat) :
  matchAt (String c r) = None ->
  afterMatches (S k) (String c r) = afterMatches (S k) r.
Proof.
  intros E. unfold afterMatches. cbn [String.length dropMatchesFrom]. now rewrite E.
Qed.

Lemma afterMatches_0 (s : string) : afterMatches 0 s = s.
Proof. unfold afterMatches. destruct (String.length s); reflexivity. Qed.

(** *** A template is a gap, a token and the rest *)

Lemma firstStop_token (tok rest : string) :
  isToken tok -> firstStop (tok +:+ rest) = Some ";"%char.
Proof.
  intros (body & -> & Hb). rewrite append_cons. cbn [firstStop Ascii.eqb Bool.eqb orb].
  now rewrite !firstStop_append, Hb.
Qed.

Lemma matchless_nil : matchless "".
Proof.
  intros a b z H Hb. destruct a; [|discriminate].
  rewrite append_nil_l in H. congruence.
Qed.

Lemma matchless_cons (c : ascii) (gap : string) :
  (forall z, matchAt (String c gap +:+ z) = None) -> matchless gap ->
  matchless (String c gap).
Proof.
  intros Hc Hg a b z H Hb. destruct a as [|d a].
  - rewrite append_nil_l in H. subst b. apply Hc.
  - rewrite append_cons in H. injection H as -> ->. now apply (Hg a b z).
Qed.

Lemma matchless_tail (c : ascii) (gap : string) :
  matchless (String c gap) -> matchless gap.
Proof.
  intros H a b z E Hb. apply (H (String c a) b z); [|exact Hb].
  rewrite append_cons. now f_equal.
Qed.

Lemma gap_char_closed (c : ascii) (gap tok rest : string) :
  isToken tok -> matchAt (String c (gap +:+ tok +:+ rest)) = None ->
  forall z, matchAt (String c gap +:+ z) = None.
Proof.
  intros Ht H z. rewrite append_cons. cbn [matchAt] in *.
  destruct (Ascii.eqb c "#"); [|reflexivity].
  destruct (matchBody (gap +:+ tok +:+ rest)) as [[b r]|] eqn:E; [discriminate|].
  apply matchBody_None in E. rewrite firstStop_append in E.
  assert (matchBody (gap +:+ z) = None) as ->; [|reflexivity].
  apply matchBody_None. rewrite firstStop_append.
  destruct (firstStop gap); [exact E|].
  rewrite (firstStop_token tok rest Ht) in E. congruence.
Qed.

Lemma scan_split (n : nat) :
  forall s, (String.length s <= n)%nat ->
    (FindAllString s = [] /\ forall colors, substitutePositional s colors = s)
    \/ exists gap tok rest,
        s = gap +:+ tok +:+ rest /\ matchless gap /\ isToken tok
        /\ (String.length rest < String.length s)%nat
        /\ FindAllString s = tok :: FindAllString rest
        /\ (forall color more,
               substitutePositional s (color :: more)
               = gap +:+ (color +:+ ";") +:+ substitutePositional rest more)
        /\ (forall k, afterMatches (S k) s = afterMatches k rest).
Proof.
  induction n as [|n IH]; intros s Hs.
  - destruct s; [|simpl in Hs; lia]. left. split; [reflexivity|].
    intros colors. destruct colors; reflexivity.
  - destruct s as [|c r].
    { left. split; [reflexivity|]. intros colors. destruct colors; reflexivity. }
    simpl in Hs. destruct (matchAt (String c r)) as [[tok rest]|] eqn:E.
    + right. exists "", tok, rest.
      destruct (matchAt_Some _ _ _ E) as (Hsplit & Htok).
      pose proof (matchAt_shorter _ _ _ E) as Hlt.
      split; [now rewrite append_nil_l|]. split; [apply matchless_nil|].
      split; [exact Htok|]. split; [exact Hlt|].
      split; [now apply FindAllString_match|]. split.
      * intros color more. rewrite append_nil_l. now apply (substitute_match c r tok).
      * intros k. now apply (afterMatches_match c r tok).
    + destruct (IH r ltac:(lia)) as [(Hnone & Hsub) | (gap & tok & rest & -> & Hgap & Htok & Hlt & Hall & Hsub & Hdrop)].
      * left. split; [now rewrite FindAllString_skip|].
        intros colors. rewrite substitute_skip by exact E. now rewrite Hsub.
      * right. exists (String c gap), tok, rest.
        split; [now rewrite append_cons|].
        split; [apply matchless_cons; [now apply (gap_char_closed c gap tok rest) | exact Hgap]|].
        split; [exact Htok|]. split; [simpl; lia|].
        split; [now rewrite FindAllString_skip|]. split.
        -- intros color more. rewrite substitute_skip by exact E.
           now rewrite Hsub, append_cons.
        -- intros k. rewrite afterMatches_skip by exact E. apply Hdrop.
Qed.

Lemma FindAllString_tokens (n : nat) :
  forall s, (String.length s <= n)%nat -> Forall isToken (FindAllString s).
Proof.
  induction n as [|n IH]; intros s Hs;
    destruct (scan_split _ s (Nat.le_refl _))
    as [(-> & _) | (gap & tok & rest & _ & _ & Htok & Hlt & -> & _)];
    try constructor; try assumption.
  - simpl in *. lia.
  - apply IH. lia.
Qed.

(** *** Replacements of a token *)

Lemma Replace1_head (t rest new : string) :
  strings_Replace1 (t +:+ rest) t new = new +:+ rest.
Proof.
  destruct (t +:+ rest) eqn:E; cbn [strings_Replace1]; rewrite <- E;
    now rewrite prefix_append, string_drop_append.
Qed.

Lemma Replace1_skip (c : ascii) (r t new : string) :
  String.prefix t (String c r) = false ->
  strings_Replace1 (String c r) t new = String c (strings_Replace1 r t new).
Proof. intros H. cbn [strings_Replace1]. now rewrite H. Qed.

Lemma no_prefix_of_no_match (t s : string) :
  isToken t -> matchAt s = None -> String.prefix t s = false.
Proof.
  intros Ht H. destruct (String.prefix t s) eqn:E; [|reflexivity].
  destruct (prefix_token t s Ht E) as (rest & Hm). congruence.
Qed.

Lemma skips_nil (t : string) : skips t "".
Proof. intros x new. reflexivity. Qed.

Lemma skips_append (t p q : string) : skips t p -> skips t q -> skips t (p +:+ q).
Proof.
  intros Hp Hq x new. now rewrite !append_assoc, Hp, Hq.
Qed.

Lemma skips_matchless (t gap : string) : isToken t -> matchless gap -> skips t gap.
Proof.
  intros Ht. induction gap as [|c gap IH]; intros Hg; [apply skips_nil|].
  intros x new. rewrite !append_cons.
  rewrite Replace1_skip.
  - f_equal. apply IH. now apply matchless_tail in Hg.
  - apply no_prefix_of_no_match; [exact Ht|].
    rewrite <- append_cons. apply (Hg "" (String c gap) x); [reflexivity | discriminate].
Qed.

Lemma matchBody_append_stop (a x : string) :
  firstStop a <> None ->
  matchBody (a +:+ x)
  = match matchBody a with
    | Some (b, r) => Some (b, r +:+ x)
    | None => None
    end.
Proof.
  induction a as [|c a IH]; intros H; [contradiction|].
  rewrite append_cons. cbn [matchBody firstStop] in *.
  destruct (Ascii.eqb c ";"); [reflexivity|].
  destruct (Ascii.eqb c LF); [reflexivity|]. cbn [orb] in H.
  rewrite (IH H). destruct (matchBody a) as [[b r]|]; reflexivity.
Qed.

(** A token that begins inside a text ending with [';'] ends inside it. *)
Lemma prefix_within_closed (t b x : string) :
  isToken t -> String.prefix t ((b +:+ ";") +:+ x) = true ->
  String.prefix t (b +:+ ";") = true.
Proof.
  intros Ht H. destruct (prefix_token _ _ Ht H) as (rest & Hm).
  destruct b as [|c b].
  - rewrite append_nil_l in Hm. destruct Ht as (body & -> & _). discriminate Hm.
  - rewrite !append_cons in Hm. cbn [matchAt] in Hm.
    destruct (Ascii.eqb_spec c "#") as [->|]; [|discriminate].
    rewrite matchBody_append_stop in Hm.
    + destruct (matchBody (b +:+ ";")) as [[tb r]|] eqn:E; [|discriminate].
      injection Hm as <- _.
      assert (matchAt (String "#" (b +:+ ";")) = Some (String "#" tb, r)) as Hm'
          by (cbn [matchAt Ascii.eqb Bool.eqb]; now rewrite E).
      destruct (matchAt_Some _ _ _ Hm') as (Hs & _).
      rewrite append_cons, Hs. apply prefix_append.
    + rewrite firstStop_append. destruct (firstStop b); discriminate.
Qed.

Lemma skips_closed (t b : string) :
  isToken t -> occursIn t (b +:+ ";") = false -> skips t (b +:+ ";").
Proof.
  intros Ht. induction b as [|c b IH]; intros Hocc x new.
  - rewrite append_nil_l, append_cons, append_nil_l. rewrite Replace1_skip; [reflexivity|].
    destruct Ht as (body & -> & _). reflexivity.
  - rewrite append_cons in Hocc. cbn [occursIn] in Hocc.
    apply orb_false_iff in Hocc as [Hp Hocc].
    rewrite !append_cons. rewrite Replace1_skip.
    + f_equal. now apply IH.
    + destruct (String.prefix t (String c ((b +:+ ";") +:+ x))) eqn:E; [|reflexivity].
      rewrite <- !append_cons in E. apply (prefix_within_closed t (String c b) x Ht) in E.
      rewrite append_cons in E. congruence.
Qed.

(** *** The loop *)

Lemma replaceZip_no_match (colors : list string) (result : string) :
  replaceZip colors [] result = result.
Proof. destruct colors; reflexivity. Qed.

Lemma skipn_nth_error {A : Type} (l : list A) :
  forall i c, nth_error l i = Some c -> skipn i l = c :: skipn (S i) l.
Proof.
  induction l as [|x l IH]; intros i c H; [destruct i; discriminate|].
  destruct i as [|i]; [injection H as ->; reflexivity|].
  cbn [nth_error] in H. cbn [skipn]. now apply IH.
Qed.

Lemma replaceLoop_zip (colors matches : list string) :
  forall i result,
    replaceLoop colors i matches result = replaceZip (skipn i colors) matches result.
Proof.
  induction matches as [|m ms IH]; intros i result;
    [now rewrite replaceZip_no_match|].
  cbn [replaceLoop replaceZip]. rewrite IH.
  destruct (nth_error colors i) as [c|] eqn:E.
  - now rewrite (skipn_nth_error colors i c E).
  - apply nth_error_None in E.
    rewrite (skipn_all2 colors (n := S i)) by lia.
    rewrite (skipn_all2 colors (n := i)) by exact E. destruct ms; reflexivity.
Qed.

Lemma replaceZip_nil (matches : list string) (result : string) :
  replaceZip [] matches result = result.
Proof. destruct matches; reflexivity. Qed.

(** With clean colors the loop is the replacement by position. *)
Lemma replaceZip_positional (n : nat) :
  forall s colors p,
    (String.length s <= n)%nat ->
    Forall (fun t => skips t p) (firstn (List.length colors) (FindAllString s)) ->
    cleanColors colors (FindAllString s) ->
    replaceZip colors (FindAllString s) (p +:+ s) = p +:+ substitutePositional s colors.
Proof.
  induction n as [|n IH]; intros s colors p Hn Hp Hclean.
  - destruct s; [|simpl in Hn; lia]. cbn [FindAllString].
    unfold FindAllString. cbn. destruct colors; reflexivity.
  - destruct colors as [|color more];
      [now rewrite replaceZip_nil, substitute_nil|].
    destruct (scan_split _ s (Nat.le_refl _))
      as [(Hnone & Hsub) | (gap & tok & rest & -> & Hgap & Htok & Hlt & Hall & Hsub & _)].
    + rewrite Hnone, Hsub. reflexivity.
    + rewrite Hall in *. rewrite Hsub. cbn [replaceZip].
      cbn [List.length firstn] in Hp. inversion Hp as [|? ? Hp1 Hp2]; subst.
      cbn [cleanColors] in Hclean. destruct Hclean as [Hc1 Hc2].
      rewrite Hp1, (skips_matchless tok gap Htok Hgap), Replace1_head.
      assert (p +:+ gap +:+ (color +:+ ";") +:+ rest
              = ((p +:+ gap) +:+ (color +:+ ";")) +:+ rest) as ->
          by now rewrite !append_assoc.
      pose proof (FindAllString_tokens _ rest (Nat.le_refl _)) as Htoks.
      assert (Forall (fun t => skips t ((p +:+ gap) +:+ (color +:+ ";")))
                     (firstn (List.length more) (FindAllString rest))) as Hp'.
      { apply List.Forall_forall. intros t Ht.
        assert (isToken t) as Htk.
        { rewrite List.Forall_forall in Htoks. apply Htoks.
          rewrite <- (firstn_skipn (List.length more)). apply in_or_app. now left. }
        apply skips_append; [apply skips_append|].
        - rewrite List.Forall_forall in Hp2. now apply Hp2.
        - now apply skips_matchless.
        - apply skips_closed; [exact Htk|].
          rewrite List.Forall_forall in Hc1. now apply Hc1. }
      rewrite (IH rest more _ ltac:(lia) Hp' Hc2).
      now rewrite !append_assoc.
Qed.

(** The loop never touches what follows the last token it replaces. *)
Lemma Replace1_keeps_tail (t new : string) (q rest : string) :
  exists q', strings_Replace1 (q +:+ t +:+ rest) t new = q' +:+ rest.
Proof.
  induction q as [|c q (q' & IH)].
  - rewrite append_nil_l, Replace1_head. now exists new.
  - rewrite append_cons.
    destruct (String.prefix t (String c (q +:+ t +:+ rest))) eqn:E.
    + cbn [strings_Replace1]. rewrite E.
      rewrite <- append_cons, <- append_assoc.
      rewrite string_drop_app_l.
      * rewrite <- append_assoc. now eexists.
      * rewrite length_append. lia.
    + rewrite Replace1_skip by exact E. rewrite IH.
      exists (String c q'). now rewrite append_cons.
Qed.

Lemma replaceZip_keeps_tail (n : nat) :
  forall s colors p,
    (String.length s <= n)%nat ->
    (List.length colors <= List.length (FindAllString s))%nat ->
    exists p', replaceZip colors (FindAllString s) (p +:+ s)
               = p' +:+ afterMatches (List.length colors) s.
Proof.
  induction n as [|n IH]; intros s colors p Hn Hlen.
  - destruct s; [|simpl in Hn; lia]. destruct colors; [|simpl in Hlen; lia].
    exists p. reflexivity.
  - destruct colors as [|color more].
    + exists p. now rewrite replaceZip_nil, afterMatches_0.
    + destruct (scan_split _ s (Nat.le_refl _))
        as [(Hnone & _) | (gap & tok & rest & -> & _ & _ & Hlt & Hall & _ & Hdrop)].
      * rewrite Hnone in Hlen. simpl in Hlen. lia.
      * rewrite Hall in *. cbn [replaceZip List.length]. rewrite Hdrop.
        rewrite <- append_assoc.
        destruct (Replace1_keeps_tail tok (color +:+ ";") (p +:+ gap) rest) as (q' & ->).
        apply IH; [lia | simpl in Hlen; lia].
Qed.

Lemma FindAllString_afterMatches (n : nat) :
  forall s k, (String.length s <= n)%nat -> (k <= List.length (FindAllString s))%nat ->
              FindAllString (afterMatches k s) = skipn k (FindAllString s).
Proof.
  induction n as [|n IH]; intros s k Hn Hk.
  - destruct s; [|simpl in Hn; lia]. destruct k; reflexivity.
  - destruct k as [|k]; [now rewrite afterMatches_0|].
    destruct (scan_split _ s (Nat.le_refl _))
      as [(Hnone & _) | (gap & tok & rest & -> & _ & _ & Hlt & Hall & _ & Hdrop)].
    + rewrite Hnone in Hk. simpl in Hk. lia.
    + rewrite Hall in *. rewrite Hdrop. cbn [skipn].
      apply IH; [lia | simpl in Hk; lia].
Qed.

Lemma replacePlaceholders_positional (svgString : string) (colors : list string) :
  cleanColors colors (FindAllString svgString) ->
  replacePlaceholders svgString colors = substitutePositional svgString colors.
Proof.
  intros Hclean. unfold replacePlaceholders. rewrite replaceLoop_zip. cbn [skipn].
  pose proof (replaceZip_positional _ svgString colors "" (Nat.le_refl _)) as H.
  rewrite !append_nil_l in H. apply H; [|exact Hclean].
  apply List.Forall_forall. intros t _. apply skips_nil.
Qed.

Lemma replacePlaceholders_keeps_tail (svgString : string) (colors : list string) :
  (List.length colors <= List.length (FindAllString svgString))%nat ->
  exists p, replacePlaceholders svgString colors
            = p +:+ afterMatches (List.length colors) svgString.
Proof.
  intros Hlen. unfold replacePlaceholders. rewrite replaceLoop_zip. cbn [skipn].
  pose proof (replaceZip_keeps_tail _ svgString colors "" (Nat.le_refl _) Hlen) as H.
  now rewrite append_nil_l in H.
Qed.

Section Renderer.

Context {catalog : Catalog}.

Lemma getFinalPart_renders (partName partV theme svgString : string)
      (override catalogColors : list string) :
  themeColors partV theme partName = Some catalogColors ->
  fragmentOf partV partName = Returns svgString ->
  getFinalPartWithOverride partName partV theme override
  = Returns (replacePlaceholders svgString (resolvedColors override catalogColors)).
Proof.
  intros Hc Hf. unfold getFinalPartWithOverride, fragmentOf in *. rewrite Hc.
  destruct (go_index parts (strconv_Atoi partV)) as [row|]; [|discriminate].
  cbn [mbind outcome_mbind obind] in *. now rewrite Hf.
Qed.

(** C7, as amended.  When the colors of a part (the override, else the
    entry of the catalog) are fewer than the placeholder tokens of its
    template, the template from the end of its token of index
    [len(colors) - 1] on is the end of the output, so every remaining token
    stays in the output as it is, in its shape and order; the first
    [len(colors)] tokens are replaced, each by its color, provided that no
    color followed by [';'] contains the text of a later one of them. *)
Theorem short_colors_keep_remaining_tokens (partName partV theme svgString : string)
        (override catalogColors : list string) :
  themeColors partV theme partName = Some catalogColors ->
  fragmentOf partV partName = Returns svgString ->
  (List.length (resolvedColors override catalogColors)
   < List.length (FindAllString svgString))%nat ->
  (exists p,
      getFinalPartWithOverride partName partV theme override
      = Returns (p +:+ afterMatches (List.length (resolvedColors override catalogColors))
                                    svgString))
  /\ FindAllString (afterMatches (List.length (resolvedColors override catalogColors)) svgString)
     = skipn (List.length (resolvedColors override catalogColors)) (FindAllString svgString)
  /\ Forall isToken (skipn (List.length (resolvedColors override catalogColors))
                           (FindAllString svgString))
  /\ (cleanColors (resolvedColors override catalogColors) (FindAllString svgString) ->
      getFinalPartWithOverride partName partV theme override
      = Returns (substitutePositional svgString (resolvedColors override catalogColors))).
Proof.
  intros Hc Hf Hlen. rewrite (getFinalPart_renders _ _ _ _ override _ Hc Hf).
  split; [|split; [|split]].
  - destruct (replacePlaceholders_keeps_tail svgString
                (resolvedColors override catalogColors)) as (p & ->); [lia|].
    now exists p.
  - apply (FindAllString_afterMatches _ svgString _ (Nat.le_refl _)). lia.
  - pose proof (FindAllString_tokens _ svgString (Nat.le_refl _)) as H.
    rewrite List.Forall_forall in *. intros t Ht. apply H.
    rewrite <- (firstn_skipn (List.length (resolvedColors override catalogColors))).
    apply in_or_app. now right.
  - intros Hclean. now rewrite replacePlaceholders_positional.
Qed.

(** C9, as amended.  When the colors are at least as many as the
    placeholder tokens of the template, also when a token text stands at
    several positions, the match of index [i] is replaced by the color of
    index [i], provided that no color followed by [';'] contains the text of
    a later token. *)
Theorem clean_colors_replace_by_position (partName partV theme svgString : string)
        (override catalogColors : list string) :
  themeColors partV theme partName = Some catalogColors ->
  fragmentOf partV partName = Returns svgString ->
  (List.length (FindAllString svgString)
   <= List.length (resolvedColors override catalogColors))%nat ->
  cleanColors (resolvedColors override catalogColors) (FindAllString svgString) ->
  getFinalPartWithOverride partName partV theme override
  = Returns (substitutePositional svgString (resolvedColors override catalogColors)).
Proof.
  intros Hc Hf _ Hclean. rewrite (getFinalPart_renders _ _ _ _ override _ Hc Hf).
  now rewrite replacePlaceholders_positional.
Qed.

End Renderer.

Example positional_on_twins :
  substitutePositional "a#1;b#1;c#2;d" ["X"; "Y"] = "aX;bY;c#2;d"
  /\ replacePlaceholders "a#1;b#1;c#2;d" ["X"; "Y"] = "aX;bY;c#2;d".
Proof. split; reflexivity. Qed.

(** Two colors that are the texts of the two tokens, swapped: the second
    replacement undoes the first. *)
Example swapped_colors_undone :
  replacePlaceholders "fill:#000;stroke:#fff;" ["#fff"; "#000"] = "fill:#000;stroke:#fff;"
  /\ substitutePositional "fill:#000;stroke:#fff;" ["#fff"; "#000"] = "fill:#fff;stroke:#000;".
Proof. split; reflexivity. Qed.

(** C7, as stated, fails: of two colors the first, ["#2"], turns the first
    token into the text of the second, which the second replacement then
    finds first; the second token is left as it is. *)
Lemma short_colors_miss_second_token :
  fragmentOf (catalog := exampleCatalog) "02" "head"
  = Returns "<head02 fill:#1; stroke:#2; stop:#1;/>"
  /\ FindAllString "<head02 fill:#1; stroke:#2; stop:#1;/>" = ["#1;"; "#2;"; "#1;"]
  /\ getFinalPartWithOverride (catalog := exampleCatalog) "head" "02" "C" ["#2"; "Z"]
     = Returns "<head02 fill:Z; stroke:#2; stop:#1;/>"
  /\ substitutePositional "<head02 fill:#1; stroke:#2; stop:#1;/>" ["#2"; "Z"]
     = "<head02 fill:#2; stroke:Z; stop:#1;/>".
Proof. repeat split; vm_compute; reflexivity. Qed.

(** C9, as stated, fails: no color is the text of a token, with or without
    its [';'], yet the third replacement finds the text of the twin token
    at the end of the first color, and the third match keeps its text. *)
Lemma twin_token_not_replaced_by_position :
  FindAllString "<head02 fill:#1; stroke:#2; stop:#1;/>" = ["#1;"; "#2;"; "#1;"]
  /\ Forall (fun c => Forall (fun t => c <> t /\ c +:+ ";" <> t) ["#1;"; "#2;"; "#1;"])
            ["x#1"; "Y"; "W"]
  /\ getFinalPartWithOverride (catalog := exampleCatalog) "head" "02" "C" ["x#1"; "Y"; "W"]
     = Returns "<head02 fill:xW; stroke:Y; stop:#1;/>"
  /\ substitutePositional "<head02 fill:#1; stroke:#2; stop:#1;/>" ["x#1"; "Y"; "W"]
     = "<head02 fill:x#1; stroke:Y; stop:W;/>".
Proof.
  split; [vm_compute; reflexivity|]. split.
  - repeat constructor; discriminate.
  - split; vm_compute; reflexivity.
Qed.

Lemma short_colors_witness :
  themeColors (catalog := exampleCatalog) "02" "C" "head" = Some ["#headC"; "#CC"]
  /\ fragmentOf (catalog := exampleCatalog) "02" "head"
     = Returns "<head02 fill:#1; stroke:#2; stop:#1;/>"
  /\ (List.length (resolvedColors [] ["#headC"; "#CC"])
      < List.length (FindAllString "<head02 fill:#1; stroke:#2; stop:#1;/>"))%nat
  /\ cleanColors (resolvedColors [] ["#headC"; "#CC"])
                 (FindAllString "<head02 fill:#1; stroke:#2; stop:#1;/>")
  /\ getFinalPartWithOverride (catalog := exampleCatalog) "head" "02" "C" []
     = Returns "<head02 fill:#headC; stroke:#CC; stop:#1;/>".
Proof.
  assert (themeColors (catalog := exampleCatalog) "02" "C" "head" = Some ["#headC"; "#CC"])
    as Hc by (vm_compute; reflexivity).
  assert (fragmentOf (catalog := exampleCatalog) "02" "head"
          = Returns "<head02 fill:#1; stroke:#2; stop:#1;/>") as Hf by (vm_compute; reflexivity).
  assert (List.length (resolvedColors [] ["#headC"; "#CC"])
          < List.length (FindAllString "<head02 fill:#1; stroke:#2; stop:#1;/>"))%nat
    as Hlen by (vm_compute; lia).
  assert (cleanColors (resolvedColors [] ["#headC"; "#CC"])
                      (FindAllString "<head02 fill:#1; stroke:#2; stop:#1;/>")) as Hclean
      by (vm_compute; repeat constructor).
  destruct (short_colors_keep_remaining_tokens (catalog := exampleCatalog)
              "head" "02" "C" _ [] _ Hc Hf Hlen) as (_ & _ & _ & H).
  split; [exact Hc|]. split; [exact Hf|]. split; [exact Hlen|]. split; [exact Hclean|].
  rewrite (H Hclean). vm_compute. reflexivity.
Defined.

Lemma clean_colors_witness :
  themeColors (catalog := exampleCatalog) "02" "C" "head" = Some ["#headC"; "#CC"]
  /\ fragmentOf (catalog := exampleCatalog) "02" "head"
     = Returns "<head02 fill:#1; stroke:#2; stop:#1;/>"
  /\ (List.length (FindAllString "<head02 fill:#1; stroke:#2; stop:#1;/>")
      <= List.length (resolvedColors ["#f2c280"; "#000"; "#fff"] ["#headC"; "#CC"]))%nat
  /\ cleanColors (resolvedColors ["#f2c280"; "#000"; "#fff"] ["#headC"; "#CC"])
                 (FindAllString "<head02 fill:#1; stroke:#2; stop:#1;/>")
  /\ getFinalPartWithOverride (catalog := exampleCatalog) "head" "02" "C"
       ["#f2c280"; "#000"; "#fff"]
     = Returns "<head02 fill:#f2c280; stroke:#000; stop:#fff;/>".
Proof.
  assert (themeColors (catalog := exampleCatalog) "02" "C" "head" = Some ["#headC"; "#CC"])
    as Hc by (vm_compute; reflexivity).
  assert (fragmentOf (catalog := exampleCatalog) "02" "head"
          = Returns "<head02 fill:#1; stroke:#2; stop:#1;/>") as Hf by (vm_compute; reflexivity).
  assert (List.length (FindAllString "<head02 fill:#1; stroke:#2; stop:#1;/>")
          <= List.length (resolvedColors ["#f2c280"; "#000"; "#fff"] ["#headC"; "#CC"]))%nat
    as Hlen by (vm_compute; lia).
  assert (cleanColors (resolvedColors ["#f2c280"; "#000"; "#fff"] ["#headC"; "#CC"])
                      (FindAllString "<head02 fill:#1; stroke:#2; stop:#1;/>")) as Hclean
      by (vm_compute; repeat constructor).
  split; [exact Hc|]. split; [exact Hf|]. split; [exact Hlen|]. split; [exact Hclean|].
  rewrite (clean_colors_replace_by_position (catalog := exampleCatalog)
             "head" "02" "C" _ _ _ Hc Hf Hlen Hclean).
  vm_compute. reflexivity.
Defined.

(** ** The package before the overrides agrees with the one after *)

Section PlainAgrees.

Context {tables : CaseTables} {catalog : Catalog}.

Lemma Plain_getFinalPart (partName partV theme : string) :
  Plain.getFinalPart partName partV theme
  = getFinalPartWithOverride partName partV theme [].
Proof. reflexivity. Qed.

Lemma Plain_renderPart (name : string) (val : Z) :
  (let '(partV, theme) := defaultSelection val in Plain.getFinalPart name partV theme)
  = renderPart zeroConfig name val.
Proof.
  unfold renderPart, resolvePart, resolveTheme, resolveVersion.
  destruct (defaultSelection val) as [partV theme]. cbn [zeroConfig selectedTheme
    partTheme allowedThemes forcePartV allowedVersions overrideColors].
  rewrite !lookup_empty. reflexivity.
Qed.

Lemma Plain_partsLoop (hashStr : string) (names : list string) :
  forall i sp, Plain.partsLoop hashStr i names sp = partsLoop zeroConfig hashStr i names sp.
Proof.
  induction names as [|name rest IH]; intros i sp; [reflexivity|].
  cbn [Plain.partsLoop partsLoop]. destruct (rawValue hashStr i) as [val|]; [|reflexivity].
  cbn [mbind outcome_mbind obind]. rewrite <- Plain_renderPart.
  destruct (defaultSelection val) as [partV theme].
  destruct (Plain.getFinalPart name partV theme); [|reflexivity].
  cbn [mbind outcome_mbind obind]. apply IH.
Qed.

(** X21.  [Generate] of [src/multiavatar.go] is the [Generate] with overrides
    called with the same options. *)
Lemma Plain_Generate (input : string) (opts : list Plain.Option) :
  Plain.Generate input opts = Generate input (map liftOption opts).
Proof.
  unfold Plain.Generate, Generate, generateFromHash.
  destruct (String.eqb input ""); [reflexivity|].
  rewrite Plain_partsLoop.
  assert (forall c c',
             Plain.withoutBackground c = withoutBackground c' ->
             sameSelection c' zeroConfig -> disabledParts c' = ∅ ->
             Plain.withoutBackground (fold_left (fun c o => Plain.applyOption o c) opts c)
             = withoutBackground (fold_left (fun c o => applyOption o c) (map liftOption opts) c')
             /\ sameSelection (fold_left (fun c o => applyOption o c) (map liftOption opts) c')
                              zeroConfig
             /\ disabledParts (fold_left (fun c o => applyOption o c) (map liftOption opts) c')
                = ∅) as H.
  { induction opts as [|[] opts IH]; intros c c' Hb Hs Hd;
      [split; [exact Hb | split; [exact Hs | exact Hd]]|].
    cbn [map fold_left]. apply IH; [reflexivity | exact Hs | exact Hd]. }
  destruct (H (Plain.Config false) zeroConfig eq_refl) as (Hb & Hs & Hd);
    [repeat split | reflexivity|].
  unfold applyOptions. rewrite (partsLoop_frame _ _ _ _ Hs).
  destruct (partsLoop zeroConfig _ _ _ _) as [sp|]; [|reflexivity].
  cbn [mbind outcome_mbind obind]. f_equal.
  unfold Plain.assemble, assemble, isDisabled. cbv zeta.
  rewrite Hd, !lookup_empty, Hb. cbn [from_option id negb]. rewrite andb_true_r.
  reflexivity.
Qed.

End PlainAgrees.

(** ** How the options compose *)

Section Options.

Context {tables : CaseTables} {catalog : Catalog}.

(** Splits an equation between two [Config] records into its fields. *)
Ltac config_eq :=
  cbn [withoutBackground selectedTheme forcePartV allowedVersions partTheme
       allowedThemes disabledParts overrideColors];
  f_equal.

(** X1.  An option applied twice is the option applied once. *)
Theorem applyOption_idempotent (o : Option) (c : config) :
  applyOption o (applyOption o c) = applyOption o c.
Proof.
  destruct o; unfold applyOption;
    repeat match goal with
           | |- context [if ?b then _ else _] => destruct b
           end;
    try reflexivity; config_eq;
    rewrite ?insert_insert_eq; try reflexivity;
    rewrite ?(insert_insert_ne _ "top" "eyes") by discriminate;
    now rewrite ?insert_insert_eq.
Qed.

(** Closes a goal whose context says that two options write one entry. *)
Ltac same_entry Hd :=
  let pick := solve [repeat first [left; congruence | right]] in
  exfalso;
  first [ solve [eapply Hd; [left; reflexivity | pick]]
        | solve [eapply Hd; [right; left; reflexivity | pick]]
        | solve [eapply Hd; [do 2 right; left; reflexivity | pick]]
        | solve [eapply Hd; [do 3 right; left; reflexivity | pick]]
        | solve [eapply Hd; [do 4 right; left; reflexivity | pick]] ].

Lemma applyOption_swap (o1 o2 : Option) (c : config) :
  disjointWrites o1 o2 ->
  applyOption o1 (applyOption o2 c) = applyOption o2 (applyOption o1 c).
Proof.
  intros Hd. unfold disjointWrites in Hd.
  destruct o1, o2; cbn [writes] in Hd; try same_entry Hd; unfold applyOption;
    repeat match goal with
           | |- context [if ?b then _ else _] => destruct b
           end;
    try reflexivity; config_eq; try reflexivity;
    apply map_eq; intros i; rewrite !lookup_insert; repeat case_decide; subst;
    try reflexivity; try discriminate; same_entry Hd.
Qed.

Lemma fold_left_permutation {A B : Type} (f : B -> A -> B) (l l' : list A) :
  l ≡ₚ l' ->
  (forall x y, In x l -> In y l -> forall c, f (f c x) y = f (f c y) x) ->
  forall c, fold_left f l c = fold_left f l' c.
Proof.
  induction 1 as [|x l l' Hp IH|x y l|l l' l'' Hp1 IH1 Hp2 IH2]; intros Hc c.
  - reflexivity.
  - cbn [fold_left]. apply IH. intros a b Ha Hb. apply Hc; now right.
  - cbn [fold_left]. f_equal. apply Hc; [left | right; left]; reflexivity.
  - rewrite IH1 by exact Hc. apply IH2. intros a b Ha Hb.
    apply Hc; eapply Permutation_in; try eassumption; now symmetry.
Qed.

(** X2.  Options that pairwise write no common entry can be given in any
    order: the configuration, and so the document, is the same. *)
Theorem disjoint_options_commute (opts opts' : list Option) :
  pairwiseDisjoint opts -> opts ≡ₚ opts' ->
  applyOptions opts = applyOptions opts'
  /\ forall input, Generate input opts = Generate input opts'.
Proof.
  intros Hd Hp.
  assert (applyOptions opts = applyOptions opts') as E.
  { unfold applyOptions. apply fold_left_permutation; [exact Hp|].
    intros o1 o2 H1 H2 c. destruct (Hd o1 o2 H1 H2) as [->|Hw]; [reflexivity|].
    symmetry. now apply applyOption_swap. }
  split; [exact E|]. intros input. unfold Generate. now rewrite E.
Qed.

(** X3.  Of two options of one constructor for one part, the later one, when
    it passes its checks, is the one that counts; a gender counts when it
    is a female or a male keyword. *)
Theorem later_option_overrides (o1 o2 : Option) (c : config) :
  sameTarget o1 o2 = true -> accepted o2 = true ->
  applyOption o2 (applyOption o1 c) = applyOption o2 c.
Proof.
  intros Ht Ha.
  destruct o1, o2; try discriminate Ht; cbn [sameTarget accepted] in Ht, Ha;
    try (apply String.eqb_eq in Ht); unfold applyOption;
    try (rewrite Ha); try (rewrite Ht);
    repeat match goal with
           | |- context [if ?b then _ else _] => destruct b
           end;
    try discriminate Ha; try reflexivity; config_eq; try reflexivity;
    apply map_eq; intros i; rewrite !lookup_insert; repeat case_decide; subst;
    try reflexivity; congruence.
Qed.

(** X4.  A gender that is no keyword, applied after a female or male one,
    widens the allowed lists but leaves the themes that the keyword forced
    for top and eyes: they stay C after female and B after male. *)
Theorem unisex_after_gender_keeps_themes (g1 g2 name : string) (c : config) (v : Z)
        (theme0 : string) :
  accepted (WithGender g1) = true -> accepted (WithGender g2) = false ->
  name = "top" \/ name = "eyes" ->
  resolveTheme (applyOption (WithGender g2) (applyOption (WithGender g1) c)) name v theme0
  = Returns (if isFemale (ToLower (strings_TrimSpace g1)) then "C" else "B")
  /\ allowedVersions (applyOption (WithGender g2) (applyOption (WithGender g1) c)) !! "top"
     = Some ["01"; "03"; "04"; "05"; "07"; "10"; "14"].
Proof.
  cbn [accepted]. intros H1 H2 Hn. apply orb_false_iff in H2 as [H2 H3].
  rewrite (withGender_unisex g2 _ H2 H3). unfold withUnisex, applyOption, resolveTheme.
  destruct (isFemale (ToLower (strings_TrimSpace g1))); cbn [orb] in H1;
    [|rewrite H1];
    cbn [withoutBackground selectedTheme forcePartV allowedVersions partTheme
         allowedThemes disabledParts overrideColors];
    (split; [destruct Hn as [-> | ->]; now rewrite !lookup_insert |]);
    rewrite lookup_insert_ne by discriminate; apply lookup_insert_eq.
Qed.

End Options.

Section OptionFrame.

Context {tables : CaseTables} {catalog : Catalog}.

(** X5.  An option that neither sets the global theme nor writes an entry of
    the part [name] leaves the fragment of [name] as it was. *)
Theorem option_leaves_other_parts (o : Option) (c : config) (name : string) (v : Z) :
  selects o name = false ->
  renderPart (applyOption o c) name v = renderPart c name v.
Proof.
  intros Hs. unfold selects in Hs.
  destruct o; cbn [writes existsb fst snd orb] in Hs; try discriminate Hs;
    repeat (apply orb_false_iff in Hs as [? Hs]);
    repeat match goal with
           | H : String.eqb _ _ = false |- _ => apply String.eqb_neq in H
           end;
    unfold applyOption;
    repeat match goal with
           | |- context [if ?b then _ else _] => destruct b
           end;
    try reflexivity;
    unfold renderPart, resolvePart, resolveTheme, resolveVersion;
    cbn [withoutBackground selectedTheme forcePartV allowedVersions partTheme
         allowedThemes disabledParts overrideColors];
    rewrite ?lookup_insert_ne by assumption; reflexivity.
Qed.

End OptionFrame.

(** ** More on the feature resolver *)

Section ResolverMore.

Context {tables : CaseTables}.

(** X6.  With a female or male gender keyword, top and eyes get the letter of
    the preset (C or B) whatever the seed and the global theme, and, unless
    a version is forced for the part, the element of the preset list at
    index [v mod len]. *)
Theorem gender_preset_selection (gender name : string) (c : config) (v : Z) :
  accepted (WithGender gender) = true -> configOK c -> (0 <= v)%Z ->
  name = "top" \/ name = "eyes" ->
  exists partV,
    resolvePart (applyOption (WithGender gender) c) name v
    = Returns (partV, presetLetter (isFemale (ToLower (strings_TrimSpace gender))))
    /\ (forcePartV c !! name = None ->
        partV = pickBy (presetVersions (isFemale (ToLower (strings_TrimSpace gender))) name) v).
Proof.
  intros Ha Hok Hv Hn. cbn [accepted] in Ha.
  rewrite (resolvePart_precedence _ name v (applyOption_OK (WithGender gender) c Hok) Hv).
  unfold spec_theme, spec_version, applyOption, presetLetter, presetVersions.
  destruct (isFemale (ToLower (strings_TrimSpace gender))); cbn [orb] in Ha;
    [|rewrite Ha];
    cbn [withoutBackground selectedTheme forcePartV allowedVersions partTheme
         allowedThemes disabledParts overrideColors];
    destruct Hn as [-> | ->]; rewrite !lookup_insert; cbn;
    eexists; (split; [reflexivity|]); intros ->; reflexivity.
Qed.

End ResolverMore.

Lemma rawFor_sound (version theme : string) (v : Z) :
  rawFor version theme = Some v ->
  (0 <= v <= 99)%Z /\ defaultSelection v = (version, theme).
Proof.
  unfold rawFor. intros H. apply find_some in H as [Hin H].
  apply andb_true_iff in H as [H1 H2]. apply String.eqb_eq in H1, H2.
  split.
  - unfold rawRange in Hin. apply in_map_iff in Hin as (n & <- & Hn).
    apply in_seq in Hn. lia.
  - rewrite (surjective_pairing (defaultSelection v)). now rewrite H1, H2.
Qed.

(** X7.  The scaling reaches each of the 48 pairs of a version code and a theme
    letter from some raw value in 0..99; it maps 0 to 0 and 99 to 47 and
    never decreases. *)
Theorem default_selection_covers_catalog :
  (forall version theme,
      isVersionCode version = true -> isThemeLetter theme = true ->
      exists v, (0 <= v <= 99)%Z /\ defaultSelection v = (version, theme))
  /\ scale47 0 = 0%Z /\ scale47 99 = 47%Z
  /\ (forall v w, (0 <= v)%Z -> (v <= w)%Z -> (w <= 99)%Z -> (scale47 v <= scale47 w)%Z).
Proof.
  split; [|split; [vm_compute; reflexivity | split; [vm_compute; reflexivity|]]].
  - intros version theme Hv Ht.
    assert (forallb (fun ver => forallb (fun th => reachable ver th) exampleLetters)
                    versionCodes = true) as Hall by (vm_compute; reflexivity).
    unfold isVersionCode in Hv. apply existsb_exists in Hv as (ver & Hin & Hv).
    apply String.eqb_eq in Hv. subst ver.
    rewrite forallb_forall in Hall. specialize (Hall _ Hin).
    rewrite forallb_forall in Hall.
    assert (In theme exampleLetters) as Hth.
    { unfold isThemeLetter in Ht. apply orb_true_iff in Ht as [Ht | Ht];
        [apply orb_true_iff in Ht as [Ht | Ht]|]; apply String.eqb_eq in Ht; subst;
        simpl; tauto. }
    specialize (Hall _ Hth). unfold reachable in Hall.
    destruct (rawFor version theme) as [v|] eqn:E; [|discriminate].
    exists v. now apply rawFor_sound.
  - intros v w Hv Hvw Hw.
    pose proof (defaultSelection_checked v ltac:(lia)) as H1.
    pose proof (defaultSelection_checked w ltac:(lia)) as H2.
    repeat (apply andb_true_iff in H1 as [H1 _]).
    repeat (apply andb_true_iff in H2 as [H2 _]).
    apply Z.eqb_eq in H1, H2. rewrite H1, H2. unfold roundHalfAway.
    destruct (Z.leb_spec 0 (v * 47)); [|lia]. destruct (Z.leb_spec 0 (w * 47)); [|lia].
    apply Z.div_le_mono; lia.
Qed.

Lemma gender_preset_witness :
  accepted (tables := asciiOnly) (WithGender "Woman") = true
  /\ resolvePart (applyOption (tables := asciiOnly) (WithGender "Woman") zeroConfig) "top" 73
     = Returns ("03", "C").
Proof.
  assert (accepted (tables := asciiOnly) (WithGender "Woman") = true) as Ha by reflexivity.
  destruct (gender_preset_selection (tables := asciiOnly) "Woman" "top" zeroConfig 73
              Ha zeroConfig_OK ltac:(lia) (or_introl eq_refl)) as (pv & H1 & H2).
  split; [exact Ha|]. rewrite H1, (H2 eq_refl). vm_compute. reflexivity.
Defined.

Lemma default_selection_covers_witness :
  exists v, (0 <= v <= 99)%Z /\ defaultSelection v = ("15", "C")
            /\ (scale47 v <= scale47 99)%Z.
Proof.
  destruct default_selection_covers_catalog as (H1 & _ & _ & H4).
  destruct (H1 "15" "C" eq_refl eq_refl) as (v & Hv & Hd).
  exists v. split; [exact Hv|]. split; [exact Hd|]. apply H4; lia.
Defined.

(** ** More on the fragment renderer *)

Lemma replaceZip_firstn (matches : list string) :
  forall colors result,
    replaceZip colors matches result
    = replaceZip (firstn (List.length matches) colors) matches result.
Proof.
  induction matches as [|m ms IH]; intros colors result.
  - now rewrite !replaceZip_no_match.
  - destruct colors as [|c cs]; [reflexivity|]. cbn [List.length firstn replaceZip].
    apply IH.
Qed.

(** X8.  The loop uses the colors of index below the number of matches and no
    other: colors in excess are ignored, and without colors the template is
    returned as it is. *)
Theorem only_leading_colors_used (svgString : string) (colors : list string) :
  replacePlaceholders svgString colors
  = replacePlaceholders svgString
      (firstn (List.length (FindAllString svgString)) colors)
  /\ replacePlaceholders svgString [] = svgString.
Proof.
  unfold replacePlaceholders. rewrite !replaceLoop_zip. cbn [skipn]. split.
  - apply replaceZip_firstn.
  - apply replaceZip_nil.
Qed.

Lemma hasChar_append (x : ascii) (a b : string) :
  hasChar x (a +:+ b) = hasChar x a || hasChar x b.
Proof.
  induction a as [|c a IH]; [reflexivity|]. rewrite append_cons. cbn [hasChar].
  now rewrite IH, orb_assoc.
Qed.

Lemma token_head (t : string) : isToken t -> exists r, t = String "#" r.
Proof. intros (body & -> & _). now eexists. Qed.

Lemma no_hash_no_token (t s : string) :
  isToken t -> hasChar "#" s = false -> occursIn t s = false.
Proof.
  intros Ht. destruct (token_head t Ht) as (r & ->).
  induction s as [|c s IH]; intros H; [reflexivity|].
  cbn [hasChar] in H. apply orb_false_iff in H as [Hc Hs].
  cbn [occursIn String.prefix]. rewrite (IH Hs), orb_false_r.
  destruct (ascii_dec "#" c) as [<-|]; [discriminate Hc | reflexivity].
Qed.

Lemma body_prefix_exact (tb body : string) :
  firstStop tb = None -> hasChar ";" body = false ->
  String.prefix (tb +:+ ";") (body +:+ ";") = true -> tb = body.
Proof.
  revert body. induction tb as [|z tb IH]; intros body Ht Hb Hp.
  - destruct body as [|y body]; [reflexivity|].
    rewrite append_nil_l, append_cons in Hp. cbn [String.prefix] in Hp.
    cbn [hasChar] in Hb. apply orb_false_iff in Hb as [Hy _].
    destruct (ascii_dec ";" y) as [<-|]; [discriminate Hy | discriminate Hp].
  - cbn [firstStop] in Ht.
    destruct (Ascii.eqb_spec z ";") as [->|Hz]; [discriminate Ht|]. cbn [orb] in Ht.
    destruct (Ascii.eqb z LF); [discriminate Ht|].
    destruct body as [|y body].
    + rewrite append_cons, append_nil_l in Hp. cbn [String.prefix] in Hp.
      destruct (ascii_dec z ";"); [contradiction | discriminate Hp].
    + rewrite !append_cons in Hp. cbn [String.prefix] in Hp.
      cbn [hasChar] in Hb. apply orb_false_iff in Hb as [_ Hb].
      destruct (ascii_dec z y) as [->|]; [|discriminate Hp].
      f_equal. now apply IH.
Qed.

(** In a plain color followed by [';'] a token can only be the whole
    text. *)
Lemma plain_color_occurrence (t c : string) :
  isToken t -> plainColor c = true -> occursIn t (c +:+ ";") = true -> t = c +:+ ";".
Proof.
  intros Ht Hc Ho. unfold plainColor in Hc. apply andb_true_iff in Hc as [Hsemi Hhash].
  apply negb_true_iff in Hsemi. destruct c as [|x r].
  - rewrite append_nil_l in Ho. rewrite (no_hash_no_token t ";" Ht eq_refl) in Ho.
    discriminate Ho.
  - apply negb_true_iff in Hhash. rewrite append_cons in *. cbn [occursIn] in Ho.
    rewrite (no_hash_no_token t (r +:+ ";") Ht) in Ho
      by (rewrite hasChar_append, Hhash; reflexivity).
    rewrite orb_false_r in Ho. destruct Ht as (tb & -> & Htb).
    cbn [String.prefix] in Ho. destruct (ascii_dec "#" x) as [<-|]; [|discriminate Ho].
    cbn [hasChar] in Hsemi. apply orb_false_iff in Hsemi as [_ Hsemi].
    f_equal. f_equal. now apply body_prefix_exact.
Qed.

Lemma plain_colors_clean (colors : list string) :
  forall tokens,
    Forall (fun c => plainColor c = true) colors -> Forall isToken tokens ->
    distinctFromLater colors tokens -> cleanColors colors tokens.
Proof.
  induction colors as [|c cs IH]; intros tokens Hc Ht Hd; [exact I|].
  destruct tokens as [|t ts]; [exact I|]. cbn [distinctFromLater cleanColors] in *.
  destruct Hd as [Hd1 Hd2]. inversion Hc as [|? ? Hc1 Hc2]; subst.
  inversion Ht as [|? ? Ht1 Ht2]; subst. split; [|now apply IH].
  rewrite List.Forall_forall in *. intros t' Hin.
  destruct (occursIn t' (c +:+ ";")) eqn:E; [|reflexivity].
  exfalso. apply (Hd1 t' Hin). apply plain_color_occurrence; [|assumption..].
  apply Ht2. rewrite <- (firstn_skipn (List.length cs)). apply in_or_app. now left.
Qed.

Section RendererMore.

Context {catalog : Catalog}.

(** X9.  With plain colors (no [';'], ['#'] at most in front) the replacement
    is by position as soon as no color followed by [';'] is equal to a later
    token that is replaced too. *)
Theorem plain_colors_replace_by_position (partName partV theme svgString : string)
        (override catalogColors : list string) :
  themeColors partV theme partName = Some catalogColors ->
  fragmentOf partV partName = Returns svgString ->
  Forall (fun c => plainColor c = true) (resolvedColors override catalogColors) ->
  distinctFromLater (resolvedColors override catalogColors) (FindAllString svgString) ->
  getFinalPartWithOverride partName partV theme override
  = Returns (substitutePositional svgString (resolvedColors override catalogColors)).
Proof.
  intros Hc Hf Hplain Hd. rewrite (getFinalPart_renders _ _ _ _ override _ Hc Hf).
  rewrite replacePlaceholders_positional; [reflexivity|].
  apply plain_colors_clean; [exact Hplain | | exact Hd].
  apply (FindAllString_tokens _ svgString (Nat.le_refl _)).
Qed.

End RendererMore.

Lemma plain_colors_witness :
  Forall (fun c => plainColor c = true) (resolvedColors ["#f2c280"; "red"; "#fff"] ["#headC"; "#CC"])
  /\ distinctFromLater (resolvedColors ["#f2c280"; "red"; "#fff"] ["#headC"; "#CC"])
                       (FindAllString "<head02 fill:#1; stroke:#2; stop:#1;/>")
  /\ getFinalPartWithOverride (catalog := exampleCatalog) "head" "02" "C"
       ["#f2c280"; "red"; "#fff"]
     = Returns "<head02 fill:#f2c280; stroke:red; stop:#fff;/>".
Proof.
  assert (themeColors (catalog := exampleCatalog) "02" "C" "head" = Some ["#headC"; "#CC"])
    as Hc by (vm_compute; reflexivity).
  assert (fragmentOf (catalog := exampleCatalog) "02" "head"
          = Returns "<head02 fill:#1; stroke:#2; stop:#1;/>") as Hf by (vm_compute; reflexivity).
  assert (Forall (fun c => plainColor c = true)
                 (resolvedColors ["#f2c280"; "red"; "#fff"] ["#headC"; "#CC"])) as Hp
      by (repeat constructor).
  assert (distinctFromLater (resolvedColors ["#f2c280"; "red"; "#fff"] ["#headC"; "#CC"])
                            (FindAllString "<head02 fill:#1; stroke:#2; stop:#1;/>")) as Hd
      by (vm_compute; repeat constructor; discriminate).
  split; [exact Hp|]. split; [exact Hd|].
  rewrite (plain_colors_replace_by_position (catalog := exampleCatalog)
             "head" "02" "C" _ _ _ Hc Hf Hp Hd).
  vm_compute. reflexivity.
Defined.

(** ** More on the document *)

Section DocumentMore.

Context {tables : CaseTables} {catalog : Catalog}.

Lemma sameSelection_refl (c : config) : sameSelection c c.
Proof. repeat split. Qed.

Lemma applyOption_sameSelection (o : Option) (c c' : config) :
  sameSelection c c' -> sameSelection (applyOption o c) (applyOption o c').
Proof.
  intros (E1 & E2 & E3 & E4 & E5 & E6).
  destruct o; unfold applyOption;
    repeat match goal with
           | |- context [if ?b then _ else _] => destruct b
           end;
    unfold sameSelection;
    cbn [withoutBackground selectedTheme forcePartV allowedVersions partTheme
         allowedThemes disabledParts overrideColors];
    rewrite ?E1, ?E2, ?E3, ?E4, ?E5, ?E6; repeat split; assumption.
Qed.

Lemma disabling_sameSelection (o : Option) (c : config) :
  isDisabling o = true -> sameSelection (applyOption o c) c.
Proof.
  destruct o; try discriminate; intros _; unfold applyOption;
    try destruct (knownPart _); repeat split.
Qed.

Lemma sameSelection_trans (a b c : config) :
  sameSelection a b -> sameSelection b c -> sameSelection a c.
Proof.
  intros (A1 & A2 & A3 & A4 & A5 & A6) (B1 & B2 & B3 & B4 & B5 & B6).
  repeat split; congruence.
Qed.

Lemma fold_selecting (opts : list Option) :
  forall c c', sameSelection c c' ->
               sameSelection (fold_left (fun c o => applyOption o c) opts c)
                             (fold_left (fun c o => applyOption o c) (selecting opts) c').
Proof.
  induction opts as [|o opts IH]; intros c c' H; [exact H|].
  cbn [fold_left selecting List.filter]. fold (selecting opts).
  destruct (isDisabling o) eqn:E; cbn [negb fold_left].
  - apply IH. eapply sameSelection_trans; [now apply disabling_sameSelection | exact H].
  - apply IH. now apply applyOption_sameSelection.
Qed.

Lemma fold_disabled (q : string) (opts : list Option) :
  forall c, isDisabled (fold_left (fun c o => applyOption o c) opts c) q
            = isDisabled c q || existsb (disablesPart q) opts.
Proof.
  induction opts as [|o opts IH]; intros c; [now rewrite orb_false_r|].
  cbn [fold_left existsb]. rewrite IH, orb_assoc. f_equal.
  destruct o; cbn [disablesPart]; unfold applyOption;
    try (repeat match goal with
                | |- context [if ?b then _ else _] => destruct b
                end;
         rewrite orb_false_r; reflexivity).
  destruct (knownPart (strings_TrimSpace partName)) eqn:H.
  - unfold isDisabled. cbn [disabledParts]. rewrite lookup_insert.
    destruct (String.eqb_spec (strings_TrimSpace partName) q) as [<-|Hne].
    + rewrite decide_True by reflexivity. rewrite H. now rewrite orb_true_r.
    + rewrite decide_False by exact Hne. now rewrite orb_false_r.
  - destruct (String.eqb_spec (strings_TrimSpace partName) q) as [<-|Hne];
      [rewrite H|]; now rewrite orb_false_r.
Qed.

Lemma fold_background (opts : list Option) :
  forall c, withoutBackground (fold_left (fun c o => applyOption o c) opts c)
            = withoutBackground c || existsb isWithoutBackground opts.
Proof.
  induction opts as [|o opts IH]; intros c; [now rewrite orb_false_r|].
  cbn [fold_left existsb]. rewrite IH, orb_assoc. f_equal.
  destruct o; cbn [isWithoutBackground]; unfold applyOption;
    repeat match goal with
           | |- context [if ?b then _ else _] => destruct b
           end;
    cbn [withoutBackground]; now rewrite ?orb_false_r, ?orb_true_r.
Qed.

Lemma selecting_omits_nothing (opts : list Option) : omitted (applyOptions (selecting opts)) = [].
Proof.
  unfold omitted, applyOptions, renderOrder. cbn [List.filter].
  rewrite !fold_disabled, fold_background.
  assert (forall q, existsb (disablesPart q) (selecting opts) = false) as Hd.
  { intros q. induction opts as [|o opts IH]; [reflexivity|].
    cbn [selecting List.filter]. fold (selecting opts).
    destruct o; cbn [isDisabling negb existsb disablesPart]; exact IH. }
  assert (existsb isWithoutBackground (selecting opts) = false) as Hb.
  { clear Hd. induction opts as [|o opts IH]; [reflexivity|].
    cbn [selecting List.filter]. fold (selecting opts).
    destruct o; cbn [isDisabling negb existsb isWithoutBackground]; exact IH. }
  rewrite !Hd, Hb. reflexivity.
Qed.

(** X10.  For any options: the parts are selected and colored as without the
    disabling options, and the document is the one without them with the
    fragments of the disabled parts left out.  A part is left out exactly
    when some [WithoutPart] names it, or, for env, when
    [WithoutBackground] is among the options. *)
Theorem disabling_only_leaves_out (input : string) (opts : list Option) :
  input <> "" ->
  Generate input (selecting opts)
  = (sp ← fragmentsUnder (applyOptions (selecting opts)) input;
     Returns (documentWithout [] sp))
  /\ Generate input opts
     = (sp ← fragmentsUnder (applyOptions (selecting opts)) input;
        Returns (documentWithout (omitted (applyOptions opts)) sp))
  /\ (forall q, In q (omitted (applyOptions opts))
                <-> In q renderOrder
                    /\ (existsb (disablesPart q) opts
                        || (String.eqb q "env" && existsb isWithoutBackground opts)) = true).
Proof.
  intros Hne. split; [|split].
  - unfold Generate, generateFromHash, fragmentsUnder.
    destruct (String.eqb_spec input ""); [contradiction|].
    destruct (partsLoop _ _ _ _ _); [|reflexivity].
    cbn [mbind outcome_mbind obind]. now rewrite assemble_document, selecting_omits_nothing.
  - unfold Generate, generateFromHash, fragmentsUnder.
    destruct (String.eqb_spec input ""); [contradiction|].
    rewrite (partsLoop_frame _ _ _ _ (fold_selecting opts _ _ (sameSelection_refl zeroConfig))).
    fold (applyOptions (selecting opts)).
    destruct (partsLoop _ _ _ _ _); [|reflexivity].
    cbn [mbind outcome_mbind obind]. now rewrite assemble_document.
  - intros q. unfold omitted. rewrite filter_In. unfold applyOptions.
    rewrite fold_disabled, fold_background. reflexivity.
Qed.

(** X11.  [WithoutPart("env")] and [WithoutBackground()] can stand for each
    other at any place of an option list. *)
Theorem env_disabled_is_without_background (input : string) (before after : list Option) :
  Generate input (before ++ WithoutPart "env" :: after)
  = Generate input (before ++ WithoutBackground :: after).
Proof.
  unfold Generate. destruct (String.eqb input ""); [reflexivity|].
  unfold generateFromHash.
  assert (sameSelection (applyOptions (before ++ WithoutPart "env" :: after))
                        (applyOptions (before ++ WithoutBackground :: after))) as Hs.
  { eapply sameSelection_trans; [apply fold_selecting, sameSelection_refl|].
    assert (selecting (before ++ WithoutPart "env" :: after)
            = selecting (before ++ WithoutBackground :: after)) as ->
        by (unfold selecting; now rewrite !List.filter_app).
    pose proof (fold_selecting (before ++ WithoutBackground :: after) _ _
                  (sameSelection_refl zeroConfig)) as (E1 & E2 & E3 & E4 & E5 & E6).
    repeat split; symmetry; assumption. }
  rewrite (partsLoop_frame _ _ _ _ Hs).
  destruct (partsLoop _ _ _ _ _); [|reflexivity].
  cbn [mbind outcome_mbind obind]. rewrite !assemble_document. f_equal. f_equal.
  unfold omitted, applyOptions, renderOrder. cbn [List.filter].
  rewrite !fold_disabled, !fold_background, !existsb_app.
  cbn [existsb disablesPart isWithoutBackground String.eqb Ascii.eqb Bool.eqb andb orb
       zeroConfig withoutBackground].
  change (strings_TrimSpace "env") with "env".
  cbn [String.eqb Ascii.eqb Bool.eqb andb orb knownPart existsb partNames].
  unfold isDisabled. cbn [zeroConfig disabledParts]. rewrite !lookup_empty.
  cbn [from_option id orb andb].
  rewrite !orb_true_r. cbn [orb]. reflexivity.
Qed.

Lemma applyOptions_snoc (opts : list Option) (o : Option) :
  applyOptions (opts ++ [o]) = applyOption o (applyOptions opts).
Proof. unfold applyOptions. now rewrite fold_left_app. Qed.

Lemma knownPart_cases (q : string) :
  knownPart q = true ->
  q = "env" \/ q = "clo" \/ q = "head" \/ q = "mouth" \/ q = "eyes" \/ q = "top".
Proof.
  unfold knownPart, partNames. cbn [existsb].
  rewrite !orb_true_iff, !String.eqb_eq. intuition discriminate.
Qed.

(** The document, with its six fragments named. *)
Lemma assemble_six (cfg : config) (env clo head mouth eyes top : string) :
  assemble cfg
    (<["top" := top]> (<["eyes" := eyes]> (<["mouth" := mouth]>
       (<["head" := head]> (<["clo" := clo]> (<["env" := env]> ∅))))))
  = openTag
    +:+ (if negb (withoutBackground cfg) && negb (isDisabled cfg "env") then env else "")
    +:+ (if negb (isDisabled cfg "head") then head else "")
    +:+ (if negb (isDisabled cfg "clo") then clo else "")
    +:+ (if negb (isDisabled cfg "top") then top else "")
    +:+ (if negb (isDisabled cfg "eyes") then eyes else "")
    +:+ (if negb (isDisabled cfg "mouth") then mouth else "")
    +:+ closeTag.
Proof.
  unfold assemble, partOf. cbv zeta.
  rewrite ?lookup_insert_eq, ?lookup_insert_ne by discriminate.
  rewrite ?lookup_insert_eq. cbn [default from_option id].
  destruct (negb (withoutBackground cfg) && negb (isDisabled cfg "env")),
    (negb (isDisabled cfg "head")), (negb (isDisabled cfg "clo")),
    (negb (isDisabled cfg "top")), (negb (isDisabled cfg "eyes")),
    (negb (isDisabled cfg "mouth"));
    rewrite ?append_assoc, ?append_nil_l; reflexivity.
Qed.

(** A forced version that the catalog does not have gives the empty
    fragment; the other parts are as before. *)
Lemma forced_unknown_renders (c : config) (q forced name : string) (v : Z) :
  configOK c -> (0 <= v)%Z -> twoBytes forced -> themes !! forced = None ->
  renderPart (Config (withoutBackground c) (selectedTheme c) (<[q := forced]> (forcePartV c))
                     (allowedVersions c) (partTheme c) (allowedThemes c) (disabledParts c)
                     (overrideColors c)) name v
  = if String.eqb q name then Returns "" else renderPart c name v.
Proof.
  intros Hok Hv Hlen Hcat.
  destruct (String.eqb_spec q name) as [<-|Hne].
  - pose proof (resolvePart_precedence c q v Hok Hv) as Hr.
    unfold renderPart, resolvePart in *.
    destruct (defaultSelection v) as [partV0 theme0].
    unfold resolveTheme in *.
    cbn [withoutBackground selectedTheme forcePartV allowedVersions partTheme
         allowedThemes disabledParts overrideColors] in *.
    destruct (match partTheme c !! q with
              | Some pt => Returns pt
              | None => _
              end) as [theme|]; [|discriminate Hr].
    cbn [mbind outcome_mbind obind]. unfold resolveVersion.
    cbn [forcePartV]. rewrite lookup_insert_eq.
    unfold twoBytes in Hlen. rewrite Hlen. cbn [Nat.eqb mbind outcome_mbind obind].
    unfold getFinalPartWithOverride, themeColors. now rewrite Hcat.
  - unfold renderPart, resolvePart, resolveTheme, resolveVersion.
    cbn [withoutBackground selectedTheme forcePartV allowedVersions partTheme
         allowedThemes disabledParts overrideColors].
    now rewrite lookup_insert_ne by exact Hne.
Qed.

(** X12.  Forcing a version code that the catalog of themes does not have
    gives the document that disabling the part gives: the fragment of the
    part is empty, and nothing fails. *)
Theorem unknown_forced_version_blanks_part (input : string) (opts : list Option)
        (partName partVersion : string) :
  input <> "" -> (12 <= List.length (spec_digits input))%nat -> catalogComplete ->
  knownPart (strings_TrimSpace partName) = true ->
  String.length (strings_TrimSpace partVersion) = 2%nat ->
  themes !! strings_TrimSpace partVersion = None ->
  Generate input (opts ++ [WithPartVersion partName partVersion])
  = Generate input (opts ++ [WithoutPart partName])
  /\ exists s, Generate input (opts ++ [WithoutPart partName]) = Returns s.
Proof.
  intros Hne Hlen Hcat Hk Hpv Hth.
  assert (Generate input (opts ++ [WithPartVersion partName partVersion])
          = Generate input (opts ++ [WithoutPart partName])) as Heq.
  { rewrite !(raw_values_digit_chunks_unfold input _ Hne Hlen), !applyOptions_snoc.
    pose proof (applyOptions_OK opts) as Hok.
    pose proof (raw_nonneg input Hlen) as Hraw.
    set (c := applyOptions opts) in *. set (raw := spec_rawValue input) in *.
    clearbody c raw.
    unfold applyOption. rewrite Hk, Hpv. cbn [Nat.eqb andb].
    set (c1 := Config _ _ (<[_ := _]> _) _ _ _ _ _).
    set (c2 := Config _ _ _ _ _ _ (<[_ := true]> _) _).
    assert (forall name v, renderPart c2 name v = renderPart c name v) as F2
        by (intros; apply renderPart_frame; repeat split).
    assert (forall name, isDisabled c2 name
                         = String.eqb (strings_TrimSpace partName) name || isDisabled c name) as H2.
    { intros name. unfold isDisabled, c2. cbn [disabledParts]. rewrite lookup_insert.
      destruct (String.eqb_spec (strings_TrimSpace partName) name) as [->|Hn].
      - now rewrite decide_True.
      - now rewrite decide_False. }
    assert (forall name, isDisabled c1 name = isDisabled c name) as H1 by reflexivity.
    assert (withoutBackground c1 = withoutBackground c) as B1 by reflexivity.
    assert (withoutBackground c2 = withoutBackground c) as B2 by reflexivity.
    assert (forall name v, (0 <= v)%Z ->
                           renderPart c1 name v
                           = if String.eqb (strings_TrimSpace partName) name
                             then Returns "" else renderPart c name v) as F1
        by (intros; now apply forced_unknown_renders).
    unfold renderAll. rewrite !F2, !F1 by apply Hraw.
    clearbody c1 c2.
    repeat match goal with
           | |- context [renderPart c ?n (raw ?i)] =>
               let s := fresh "s" in
               let E := fresh "E" in
               destruct (renderPart_returns c n (raw i) Hok Hcat (Hraw i)) as (s & E);
               rewrite E; clear E
           end.
    destruct (knownPart_cases _ Hk) as [Hq|[Hq|[Hq|[Hq|[Hq|Hq]]]]]; rewrite Hq in *;
      cbn [String.eqb Ascii.eqb Bool.eqb mbind outcome_mbind obind];
      rewrite !assemble_six, !H1, !H2, B1, B2;
      cbn [String.eqb Ascii.eqb Bool.eqb orb];
      destruct (withoutBackground c), (isDisabled c "env"), (isDisabled c "head"),
        (isDisabled c "clo"), (isDisabled c "top"), (isDisabled c "eyes"),
        (isDisabled c "mouth"); cbn [negb andb]; reflexivity. }
  split; [exact Heq|].
  destruct (Generate_returns input (opts ++ [WithoutPart partName]) Hne Hlen Hcat) as (sp & E).
  eexists. exact E.
Qed.

End DocumentMore.

(** ** More on the color overrides *)

Section ColorsMore.

Context {tables : CaseTables} {catalog : Catalog}.

Lemma renderPart_effect (c c' : config) (name : string) (v : Z) :
  sameEffect c c' -> renderPart c name v = renderPart c' name v.
Proof.
  intros (_ & E1 & E2 & E3 & E4 & E5 & _ & E6).
  unfold renderPart, resolvePart, resolveTheme, resolveVersion.
  fold (effectiveColors c name). fold (effectiveColors c' name).
  now rewrite E1, E2, E3, E4, E5, E6.
Qed.

Lemma partsLoop_effect (c c' : config) (hashStr : string) (names : list string) :
  sameEffect c c' ->
  forall i sp, partsLoop c hashStr i names sp = partsLoop c' hashStr i names sp.
Proof.
  intros Hs. induction names as [|name rest IH]; intros i sp; [reflexivity|].
  cbn [partsLoop]. destruct (rawValue hashStr i) as [v|]; [|reflexivity].
  cbn [mbind outcome_mbind obind]. rewrite (renderPart_effect c c' name v Hs).
  destruct (renderPart c' name v); [|reflexivity].
  cbn [mbind outcome_mbind obind]. apply IH.
Qed.

Lemma Generate_effect (input : string) (opts opts' : list Option) :
  sameEffect (applyOptions opts) (applyOptions opts') ->
  Generate input opts = Generate input opts'.
Proof.
  intros Hs. unfold Generate. destruct (String.eqb input ""); [reflexivity|].
  unfold generateFromHash. rewrite (partsLoop_effect _ _ _ _ Hs).
  destruct (partsLoop _ _ _ _ _); [|reflexivity].
  cbn [mbind outcome_mbind obind]. f_equal.
  destruct Hs as (E0 & _ & _ & _ & _ & _ & E7 & _).
  unfold assemble, isDisabled. now rewrite E0, E7.
Qed.

Lemma fold_colorsCleared (q : string) (opts : list Option) :
  forall c c', colorsCleared q c c' ->
    colorsCleared q (fold_left (fun c o => applyOption o c) opts c)
                  (fold_left (fun c o => applyOption o c)
                             (List.filter (fun o => negb (overridesColorsOf q o)) opts) c').
Proof.
  induction opts as [|o opts IH]; intros c c' H; [exact H|].
  cbn [fold_left List.filter].
  destruct (overridesColorsOf q o) eqn:E; cbn [negb fold_left]; apply IH.
  - destruct o; try discriminate E. cbn [overridesColorsOf] in E.
    apply String.eqb_eq in E. subst q.
    destruct H as (E0 & E1 & E2 & E3 & E4 & E5 & E6 & E7).
    unfold applyOption. destruct (knownPart _); unfold colorsCleared;
      cbn [withoutBackground selectedTheme forcePartV allowedVersions partTheme
           allowedThemes disabledParts overrideColors];
      rewrite ?delete_insert_eq; repeat split; assumption.
  - destruct H as (E0 & E1 & E2 & E3 & E4 & E5 & E6 & E7).
    destruct o; unfold applyOption;
      repeat match goal with
             | |- context [if ?b then _ else _] => destruct b
             end;
      unfold colorsCleared;
      cbn [withoutBackground selectedTheme forcePartV allowedVersions partTheme
           allowedThemes disabledParts overrideColors];
      rewrite ?E0, ?E1, ?E2, ?E3, ?E4, ?E5, ?E6, ?E7; repeat split; try assumption.
    cbn [overridesColorsOf] in E. apply String.eqb_neq in E.
    rewrite delete_insert_ne by (intros Heq; apply E; now symmetry).
    reflexivity.
Qed.

Lemma fold_no_unknown_colors (k : string) (opts : list Option) :
  knownPart k = false ->
  forall c, overrideColors c !! k = None ->
            overrideColors (fold_left (fun c o => applyOption o c) opts c) !! k = None.
Proof.
  intros Hk. induction opts as [|o opts IH]; intros c H; [exact H|].
  cbn [fold_left]. apply IH.
  destruct o; unfold applyOption;
    repeat match goal with
           | |- context [if ?b then _ else _] => destruct b eqn:?
           end;
    cbn [overrideColors]; try exact H.
  rewrite lookup_insert_ne; [exact H|]. intros Heq. congruence.
Qed.

(** X13.  An empty list of colors is stored like any other: given last, it
    cancels the earlier overrides of its part, and the part is rendered
    with the colors of the catalog again. *)
Theorem empty_colors_cancel_override (input : string) (opts : list Option) (partName : string) :
  Generate input (opts ++ [WithPartColors partName []])
  = Generate input
      (List.filter (fun o => negb (overridesColorsOf (strings_TrimSpace partName) o)) opts).
Proof.
  apply Generate_effect. rewrite applyOptions_snoc.
  set (q := strings_TrimSpace partName).
  assert (colorsCleared q zeroConfig zeroConfig) as H0
      by (repeat split; cbn [zeroConfig overrideColors]; now rewrite delete_empty).
  pose proof (fold_colorsCleared q opts _ _ H0) as (E0 & E1 & E2 & E3 & E4 & E5 & E6 & E7).
  fold (applyOptions opts) in *.
  fold (applyOptions (List.filter (fun o => negb (overridesColorsOf q o)) opts)) in *.
  unfold applyOption. fold q. destruct (knownPart q) eqn:Hk.
  - unfold sameEffect, effectiveColors.
    cbn [withoutBackground selectedTheme forcePartV allowedVersions partTheme
         allowedThemes disabledParts overrideColors map].
    repeat split; try assumption.
    intros name. rewrite E7, lookup_insert, lookup_delete.
    now destruct (decide (q = name)).
  - unfold sameEffect, effectiveColors. repeat split; try assumption.
    intros name. rewrite E7, lookup_delete.
    destruct (decide (q = name)) as [<-|]; [|reflexivity].
    unfold applyOptions. now rewrite (fold_no_unknown_colors q opts Hk).
Qed.

End ColorsMore.

(** ** White space trimming *)

Lemma string_rev_involutive (s : string) : string_rev (string_rev s) = s.
Proof.
  unfold string_rev. rewrite list_ascii_of_string_of_list_ascii, rev_involutive.
  apply string_of_list_ascii_of_string.
Qed.

Lemma list_ascii_append (a b : string) :
  list_ascii_of_string (a +:+ b) = list_ascii_of_string a ++ list_ascii_of_string b.
Proof.
  induction a as [|x a IH]; [reflexivity|]. rewrite append_cons. cbn. now f_equal.
Qed.

Lemma string_of_list_app (l k : list ascii) :
  string_of_list_ascii (l ++ k) = string_of_list_ascii l +:+ string_of_list_ascii k.
Proof.
  induction l as [|x l IH]; [reflexivity|]. cbn. rewrite append_cons. now f_equal.
Qed.

Lemma string_rev_append (a b : string) :
  string_rev (a +:+ b) = string_rev b +:+ string_rev a.
Proof.
  unfold string_rev. now rewrite list_ascii_append, rev_app_distr, string_of_list_app.
Qed.

Lemma trimLeft_fixed (s : string) : spaceAhead s = false -> trimLeftSpace s = s.
Proof.
  destruct s as [|a [|b [|c r]]]; cbn [trimLeftSpace spaceAhead];
    try destruct (asciiSpace a); try destruct (spaceRune2 a b); try destruct (spaceRune3 a b c);
    cbn [orb]; intros H; try discriminate H; reflexivity.
Qed.

Lemma trimLeft_trimmed (n : nat) :
  forall s, (String.length s <= n)%nat -> spaceAhead (trimLeftSpace s) = false.
Proof.
  induction n as [|n IH]; intros s Hn.
  - destruct s; [reflexivity | simpl in Hn; lia].
  - destruct s as [|a r]; [reflexivity|]. simpl in Hn. cbn [trimLeftSpace].
    destruct (asciiSpace a) eqn:E1; [apply IH; lia|].
    destruct r as [|b r2]; [cbn [spaceAhead]; now rewrite E1|]. simpl in Hn.
    destruct (spaceRune2 a b) eqn:E2; [apply IH; lia|].
    destruct r2 as [|c r3]; [cbn [spaceAhead]; now rewrite E1, E2|]. simpl in Hn.
    destruct (spaceRune3 a b c) eqn:E3; [apply IH; lia|].
    cbn [spaceAhead]. now rewrite E1, E2, E3.
Qed.

Lemma trimLeft_suffix (n : nat) :
  forall s, (String.length s <= n)%nat -> exists p, s = p +:+ trimLeftSpace s.
Proof.
  induction n as [|n IH]; intros s Hn.
  - destruct s; [now exists "" | simpl in Hn; lia].
  - destruct s as [|a r]; [now exists ""|]. simpl in Hn. cbn [trimLeftSpace].
    destruct (asciiSpace a).
    { destruct (IH r) as (p & Hp); [lia|]. exists (String a p).
      rewrite append_cons. now f_equal. }
    destruct r as [|b r2]; [now exists ""|]. simpl in Hn.
    destruct (spaceRune2 a b).
    { destruct (IH r2) as (p & Hp); [lia|]. exists (String a (String b p)).
      rewrite !append_cons. now do 2 f_equal. }
    destruct r2 as [|c r3]; [now exists ""|]. simpl in Hn.
    destruct (spaceRune3 a b c); [|now exists ""].
    destruct (IH r3) as (p & Hp); [lia|]. exists (String a (String b (String c p))).
    rewrite !append_cons. now do 3 f_equal.
Qed.

Lemma spaceAhead_prefix (x y : string) :
  spaceAhead (x +:+ y) = false -> spaceAhead x = false.
Proof.
  destruct x as [|a [|b [|c x]]]; [reflexivity| | |];
    rewrite ?append_cons, ?append_nil_l; cbn [spaceAhead];
    try destruct (asciiSpace a); try destruct (spaceRune2 a b);
    cbn [orb]; intros H; try exact H; reflexivity.
Qed.

Lemma trimRight_fixed (s : string) : spaceBehind s = false -> trimLeftSpaceRev s = s.
Proof.
  destruct s as [|a [|b [|c r]]]; cbn [trimLeftSpaceRev spaceBehind];
    try destruct (asciiSpace a); try destruct (spaceRune2 b a); try destruct (spaceRune3 c b a);
    cbn [orb]; intros H; try discriminate H; reflexivity.
Qed.

Lemma trimRight_trimmed (n : nat) :
  forall s, (String.length s <= n)%nat -> spaceBehind (trimLeftSpaceRev s) = false.
Proof.
  induction n as [|n IH]; intros s Hn.
  - destruct s; [reflexivity | simpl in Hn; lia].
  - destruct s as [|a r]; [reflexivity|]. simpl in Hn. cbn [trimLeftSpaceRev].
    destruct (asciiSpace a) eqn:E1; [apply IH; lia|].
    destruct r as [|b r2]; [cbn [spaceBehind]; now rewrite E1|]. simpl in Hn.
    destruct (spaceRune2 b a) eqn:E2; [apply IH; lia|].
    destruct r2 as [|c r3]; [cbn [spaceBehind]; now rewrite E1, E2|]. simpl in Hn.
    destruct (spaceRune3 c b a) eqn:E3; [apply IH; lia|].
    cbn [spaceBehind]. now rewrite E1, E2, E3.
Qed.

Lemma trimRight_suffix (n : nat) :
  forall s, (String.length s <= n)%nat -> exists p, s = p +:+ trimLeftSpaceRev s.
Proof.
  induction n as [|n IH]; intros s Hn.
  - destruct s; [now exists "" | simpl in Hn; lia].
  - destruct s as [|a r]; [now exists ""|]. simpl in Hn. cbn [trimLeftSpaceRev].
    destruct (asciiSpace a).
    { destruct (IH r) as (p & Hp); [lia|]. exists (String a p).
      rewrite append_cons. now f_equal. }
    destruct r as [|b r2]; [now exists ""|]. simpl in Hn.
    destruct (spaceRune2 b a).
    { destruct (IH r2) as (p & Hp); [lia|]. exists (String a (String b p)).
      rewrite !append_cons. now do 2 f_equal. }
    destruct r2 as [|c r3]; [now exists ""|]. simpl in Hn.
    destruct (spaceRune3 c b a); [|now exists ""].
    destruct (IH r3) as (p & Hp); [lia|]. exists (String a (String b (String c p))).
    rewrite !append_cons. now do 3 f_equal.
Qed.

(** What [strings.TrimSpace] returns has no white space at either end. *)
Lemma TrimSpace_trimmed (s : string) :
  spaceAhead (strings_TrimSpace s) = false
  /\ spaceBehind (string_rev (strings_TrimSpace s)) = false.
Proof.
  unfold strings_TrimSpace. set (u := trimLeftSpace s).
  pose proof (trimLeft_trimmed _ s (le_n _)) as Hu. fold u in Hu. split.
  - destruct (trimRight_suffix _ (string_rev u) (le_n _)) as (p & Hp).
    apply (spaceAhead_prefix _ (string_rev p)).
    now rewrite <- string_rev_append, <- Hp, string_rev_involutive.
  - rewrite string_rev_involutive. exact (trimRight_trimmed _ (string_rev u) (le_n _)).
Qed.

Lemma TrimSpace_fixed (s : string) :
  spaceAhead s = false -> spaceBehind (string_rev s) = false -> strings_TrimSpace s = s.
Proof.
  intros Ha Hb. unfold strings_TrimSpace.
  rewrite (trimLeft_fixed s Ha), (trimRight_fixed _ Hb). apply string_rev_involutive.
Qed.

Lemma TrimSpace_idempotent (s : string) :
  strings_TrimSpace (strings_TrimSpace s) = strings_TrimSpace s.
Proof. destruct (TrimSpace_trimmed s). now apply TrimSpace_fixed. Qed.

(** ** The options and white space *)

Section Trimming.

Context {tables : CaseTables}.

Lemma map_TrimSpace_idempotent (l : list string) :
  map strings_TrimSpace (map strings_TrimSpace l) = map strings_TrimSpace l.
Proof. rewrite map_map. apply map_ext. intros. apply TrimSpace_idempotent. Qed.

(** X15.  The options trim their arguments themselves: arguments trimmed
    beforehand give the same configuration. *)
Theorem options_trim_their_arguments (o : Option) (c : config) :
  applyOption (pretrimmed o) c = applyOption o c.
Proof.
  destruct o; cbn [pretrimmed]; unfold applyOption;
    rewrite ?map_TrimSpace_idempotent, ?TrimSpace_idempotent; try reflexivity.
  rewrite map_map.
  rewrite (map_ext (fun x => ToUpper (strings_TrimSpace (strings_TrimSpace x)))
                   (fun t => ToUpper (strings_TrimSpace t)));
    [reflexivity | intros; now rewrite TrimSpace_idempotent].
Qed.

(** X16.  The two options of one color are [WithPartColors] with the color
    alone, and are always stored. *)
Theorem single_color_options (hex : string) (c : config) :
  applyOption (WithSkinColor hex) c = applyOption (WithPartColors "head" [hex]) c
  /\ applyOption (WithEnvColor hex) c = applyOption (WithPartColors "env" [hex]) c
  /\ overrideColors (applyOption (WithSkinColor hex) c) !! "head"
     = Some [strings_TrimSpace hex]
  /\ overrideColors (applyOption (WithEnvColor hex) c) !! "env"
     = Some [strings_TrimSpace hex].
Proof.
  unfold WithSkinColor, WithEnvColor, applyOption.
  change (strings_TrimSpace "head") with "head".
  change (strings_TrimSpace "env") with "env".
  change (knownPart "head") with true. change (knownPart "env") with true.
  cbn [map overrideColors]. rewrite !TrimSpace_idempotent, !lookup_insert_eq.
  repeat split.
Qed.

End Trimming.

(** ** The demo server *)

Import Server.

Lemma hasChar_rev (x : ascii) (s : string) : hasChar x (string_rev s) = hasChar x s.
Proof.
  induction s as [|c s IH]; [reflexivity|].
  change (String c s) with (String c "" +:+ s).
  rewrite string_rev_append, !hasChar_append, IH. apply orb_comm.
Qed.

Lemma hasChar_TrimSpace (x : ascii) (s : string) :
  hasChar x s = false -> hasChar x (strings_TrimSpace s) = false.
Proof.
  intros H. unfold strings_TrimSpace. rewrite hasChar_rev.
  destruct (trimLeft_suffix _ s (le_n _)) as (p & Hp).
  rewrite Hp, hasChar_append in H. apply orb_false_iff in H as [_ H].
  destruct (trimRight_suffix _ (string_rev (trimLeftSpace s)) (le_n _)) as (q & Hq).
  rewrite <- hasChar_rev, Hq, hasChar_append in H. now apply orb_false_iff in H as [_ H].
Qed.

Lemma Split_nonempty (sep : ascii) (s : string) : strings_Split sep s <> [].
Proof.
  destruct s as [|c r]; cbn [strings_Split]; [discriminate|].
  destruct (Ascii.eqb c sep); [discriminate|].
  destruct (strings_Split sep r); discriminate.
Qed.

Lemma Split_pieces (sep : ascii) (s : string) :
  Forall (fun p => hasChar sep p = false) (strings_Split sep s).
Proof.
  induction s as [|c r IH]; cbn [strings_Split]; [now repeat constructor|].
  destruct (Ascii.eqb c sep) eqn:E; [now constructor|].
  destruct (strings_Split sep r) as [|piece pieces] eqn:Er;
    [now apply Split_nonempty in Er|].
  inversion IH as [|? ? Hp Hps]; subst. constructor; [|exact Hps].
  cbn [hasChar]. now rewrite E.
Qed.

Lemma SplitN2_pair (sep : ascii) (s k v : string) :
  strings_SplitN2 sep s = [k; v] -> s = k +:+ String sep v /\ hasChar sep k = false.
Proof.
  revert k. induction s as [|c r IH]; intros k; cbn [strings_SplitN2]; [discriminate|].
  destruct (Ascii.eqb_spec c sep) as [->|Hne].
  - intros [= <- <-]. now split.
  - destruct (strings_SplitN2 sep r) as [|piece [|rest pieces]] eqn:E; try discriminate.
    intros [= <- <-]. destruct pieces; [|discriminate].
    destruct (IH piece eq_refl) as [-> Hk]. split; [reflexivity|].
    cbn [hasChar]. rewrite Hk. now destruct (Ascii.eqb_spec c sep).
Qed.

Lemma nonEmpty_true (s : string) : nonEmpty s = true -> s <> "".
Proof. unfold nonEmpty. now destruct (String.eqb_spec s ""). Qed.

(** The items of [splitList] are not empty, are trimmed and hold no
    separator. *)
Lemma splitList_items (s : string) :
  Forall (fun it => it <> "" /\ strings_TrimSpace it = it /\ hasChar "|" it = false)
         (splitList s).
Proof.
  unfold splitList. cbv zeta. destruct (String.eqb _ ""); [constructor|].
  apply List.Forall_forall. intros it Hin.
  apply filter_In in Hin as [Hin Hne]. apply in_map_iff in Hin as (p & <- & Hp).
  split; [now apply nonEmpty_true|]. split; [apply TrimSpace_idempotent|].
  apply hasChar_TrimSpace.
  pose proof (Split_pieces "|" (strings_TrimSpace s)) as Hall.
  rewrite List.Forall_forall in Hall. now apply Hall.
Qed.

Lemma fold_left_invariant {A B : Type} (P : B -> Prop) (f : B -> A -> B) (l : list A) :
  (forall b a, In a l -> P b -> P (f b a)) -> forall b, P b -> P (fold_left f l b).
Proof.
  induction l as [|a l IH]; intros Hf b Hb; [exact Hb|].
  cbn [fold_left]. apply IH.
  - intros b' a' Ha'. apply Hf. now right.
  - apply Hf; [now left | exact Hb].
Qed.

Lemma pair_of_piece (p k v : string) :
  hasChar "," p = false ->
  strings_SplitN2 ":" (strings_TrimSpace p) = [k; v] ->
  hasChar "," (strings_TrimSpace k) = false
  /\ hasChar ":" (strings_TrimSpace k) = false
  /\ hasChar "," (strings_TrimSpace v) = false.
Proof.
  intros Hp Hs. apply (hasChar_TrimSpace "," p) in Hp.
  apply SplitN2_pair in Hs as [Hs Hk]. rewrite Hs, hasChar_append in Hp.
  apply orb_false_iff in Hp as [Hp1 Hp2]. cbn [hasChar] in Hp2.
  apply orb_false_iff in Hp2 as [_ Hp2].
  repeat split; now apply hasChar_TrimSpace.
Qed.

Lemma parseKVComma_entries (s k v : string) :
  parseKVComma s !! k = Some v ->
  (cleanWord "," k /\ hasChar ":" k = false) /\ cleanWord "," v.
Proof.
  unfold parseKVComma. cbv zeta. destruct (String.eqb _ ""); [now rewrite lookup_empty|].
  revert k v.
  apply (fold_left_invariant
           (fun res => forall k v, res !! k = Some v ->
                                   (cleanWord "," k /\ hasChar ":" k = false)
                                   /\ cleanWord "," v));
    [|intros k v; now rewrite lookup_empty].
  intros res p Hin IH. unfold parseKVComma_step. cbv zeta.
  destruct (String.eqb _ ""); [exact IH|].
  destruct (strings_SplitN2 ":" (strings_TrimSpace p)) as [|k0 [|v0 [|]]] eqn:E;
    try exact IH.
  destruct (nonEmpty (strings_TrimSpace k0)) eqn:Ek; [|exact IH].
  destruct (nonEmpty (strings_TrimSpace v0)) eqn:Ev; [|exact IH].
  cbn [andb]. intros k v. rewrite lookup_insert. case_decide as Hk; [|apply IH].
  intros [= <-]. subst k.
  pose proof (Split_pieces "," (strings_TrimSpace s)) as Hall.
  rewrite List.Forall_forall in Hall.
  destruct (pair_of_piece p k0 v0 (Hall p Hin) E) as (H1 & H2 & H3).
  unfold cleanWord. repeat split;
    now first [apply nonEmpty_true | apply TrimSpace_idempotent | assumption].
Qed.

Lemma parseKVList_entries (s k : string) (l : list string) :
  parseKVList s !! k = Some l ->
  (cleanWord "," k /\ hasChar ":" k = false)
  /\ l <> [] /\ Forall (fun it => cleanWord "|" it /\ hasChar "," it = false) l.
Proof.
  unfold parseKVList. cbv zeta. destruct (String.eqb _ ""); [now rewrite lookup_empty|].
  revert k l.
  apply (fold_left_invariant
           (fun res => forall k l, res !! k = Some l ->
                                   (cleanWord "," k /\ hasChar ":" k = false)
                                   /\ l <> []
                                   /\ Forall (fun it => cleanWord "|" it
                                                        /\ hasChar "," it = false) l));
    [|intros k l; now rewrite lookup_empty].
  intros res p Hin IH. unfold parseKVList_step. cbv zeta.
  destruct (String.eqb _ ""); [exact IH|].
  destruct (strings_SplitN2 ":" (strings_TrimSpace p)) as [|k0 [|v0 [|]]] eqn:E;
    try exact IH.
  destruct (nonEmpty (strings_TrimSpace k0)) eqn:Ek; [|exact IH].
  destruct (0 <? List.length (splitList (strings_TrimSpace v0)))%nat eqn:Ev; [|exact IH].
  cbn [andb]. intros k l. rewrite lookup_insert. case_decide as Hk; [|apply IH].
  intros [= <-]. subst k.
  pose proof (Split_pieces "," (strings_TrimSpace s)) as Hall.
  rewrite List.Forall_forall in Hall.
  destruct (pair_of_piece p k0 v0 (Hall p Hin) E) as (H1 & H2 & H3).
  split; [|split].
  - unfold cleanWord. repeat split;
      now first [apply nonEmpty_true | apply TrimSpace_idempotent | assumption].
  - intros Hnil. rewrite Hnil in Ev. discriminate Ev.
  - pose proof (splitList_items (strings_TrimSpace v0)) as Hit.
    rewrite List.Forall_forall in Hit |- *. intros it Hi.
    destruct (Hit it Hi) as (I1 & I2 & I3). split; [now repeat split|].
    (* the item is cut out of the value, which holds no comma *)
    unfold splitList in Hi. cbv zeta in Hi.
    destruct (String.eqb _ ""); [destruct Hi|].
    apply filter_In in Hi as [Hi _]. apply in_map_iff in Hi as (piece & <- & Hpiece).
    apply hasChar_TrimSpace.
    rewrite TrimSpace_idempotent in Hpiece.
    clear - Hpiece H3. revert piece Hpiece.
    generalize dependent (strings_TrimSpace v0). intros w Hw.
    induction w as [|c r IHw]; cbn [strings_Split]; intros piece Hpiece.
    + destruct Hpiece as [<-|[]]. reflexivity.
    + cbn [hasChar] in Hw. apply orb_false_iff in Hw as [Hc Hr].
      destruct (Ascii.eqb c "|").
      * destruct Hpiece as [<-|Hpiece]; [reflexivity | now apply IHw].
      * destruct (strings_Split "|" r) as [|q qs] eqn:Eq;
          [destruct Hpiece as [<-|[]]; cbn [hasChar]; now rewrite Hc|].
        destruct Hpiece as [<-|Hpiece].
        -- cbn [hasChar]. rewrite Hc. apply IHw; [exact Hr | now left].
        -- apply IHw; [exact Hr | now right].
Qed.

(** X19.  What the handler parses off the query holds clean words only: the
    items of a list, and the keys, the values and the items of the lists
    of the two maps, are not empty, are trimmed and hold none of the
    separators they were cut at. *)
Theorem query_words_are_clean (s : string) :
  Forall (cleanWord "|") (splitList s)
  /\ (forall k v, parseKVComma s !! k = Some v ->
                  (cleanWord "," k /\ hasChar ":" k = false) /\ cleanWord "," v)
  /\ (forall k l, parseKVList s !! k = Some l ->
                  (cleanWord "," k /\ hasChar ":" k = false)
                  /\ l <> []
                  /\ Forall (fun it => cleanWord "|" it /\ hasChar "," it = false) l).
Proof.
  split; [exact (splitList_items s)|].
  split; [exact (parseKVComma_entries s) | exact (parseKVList_entries s)].
Qed.

Section HandlerFacts.

Context {tables : CaseTables} {catalog : Catalog}.

Lemma applyOptions_app (opts more : list Option) :
  applyOptions (opts ++ more) = fold_left (fun c o => applyOption o c) more (applyOptions opts).
Proof. unfold applyOptions. apply fold_left_app. Qed.

Lemma applyOptions_if (b : bool) (opts more : list Option) :
  applyOptions (if b then opts ++ more else opts)
  = fold_left (fun c o => applyOption o c) (if b then more else []) (applyOptions opts).
Proof. destruct b; [apply applyOptions_app | reflexivity]. Qed.

Lemma applyOptions_colors (opts : list Option) (part raw : string) :
  applyOptions (addColorOverrides opts part raw)
  = fold_left (fun c o => applyOption o c) (addColorOverrides [] part raw) (applyOptions opts).
Proof.
  unfold addColorOverrides. cbv zeta.
  destruct (String.eqb (strings_TrimSpace raw) ""); [reflexivity|].
  destruct (splitList (strings_TrimSpace raw)); [reflexivity|].
  repeat match goal with
         | |- context [if ?b then _ else _] => destruct b
         end;
    solve [reflexivity | apply applyOptions_app].
Qed.

(** The options of one [range] loop: whatever the order of the visit,
    they leave the configuration that the order of [map_to_list] leaves. *)
Lemma loop_order {V : Type} (mk : string -> V -> Option) (fld : field)
      (m : gmap string V) (visit : list (string * V)) :
  (forall k v, writes (mk k v) = [(fld, strings_TrimSpace k)]) ->
  (forall k v, m !! k = Some v -> strings_TrimSpace k = k) ->
  visit ≡ₚ map_to_list m ->
  forall c, fold_left (fun c o => applyOption o c) (map (fun '(k, v) => mk k v) visit) c
            = fold_left (fun c o => applyOption o c) (map (fun '(k, v) => mk k v) (map_to_list m)) c.
Proof.
  intros Hw Hm Hp. apply fold_left_permutation; [now apply Permutation_map|].
  intros o1 o2 H1 H2 c.
  apply in_map_iff in H1 as ([k1 v1] & <- & H1).
  apply in_map_iff in H2 as ([k2 v2] & <- & H2).
  apply (Permutation_in _ Hp), list_elem_of_In, elem_of_map_to_list in H1.
  apply (Permutation_in _ Hp), list_elem_of_In, elem_of_map_to_list in H2.
  destruct (decide (k1 = k2)) as [->|Hne].
  - rewrite H1 in H2. now injection H2 as ->.
  - apply applyOption_swap. unfold disjointWrites.
    rewrite !Hw, (Hm _ _ H1), (Hm _ _ H2).
    intros w [<-|[]] [E|[]]. congruence.
Qed.

Lemma comma_keys_trimmed (s k v : string) :
  parseKVComma s !! k = Some v -> strings_TrimSpace k = k.
Proof.
  intros H. destruct (parseKVComma_entries s k v H) as ((Hk & _) & _).
  exact (proj1 (proj2 Hk)).
Qed.

Lemma list_keys_trimmed (s k : string) (l : list string) :
  parseKVList s !! k = Some l -> strings_TrimSpace k = k.
Proof.
  intros H. destruct (parseKVList_entries s k l H) as ((Hk & _) & _).
  exact (proj1 (proj2 Hk)).
Qed.

Lemma optionsOf_config (it : iteration) (get : string -> string) :
  iterates it get ->
  applyOptions (optionsOf it get) = applyOptions (optionsOf (sortedIteration get) get).
Proof.
  intros (H1 & H2 & H3 & H4). unfold optionsOf. cbv zeta.
  rewrite !applyOptions_app, !applyOptions_colors, !applyOptions_if,
    !applyOptions_colors, !applyOptions_app.
  do 7 f_equal. cbn [sortedIteration overPartTheme overAllowedThemes overPartVersion
                     overAllowedVersions].
  rewrite (loop_order WithAllowedVersions FAllowedV _ _ (fun _ _ => eq_refl)
             (list_keys_trimmed _) H4).
  rewrite (loop_order WithPartVersion FForceV _ _ (fun _ _ => eq_refl)
             (comma_keys_trimmed _) H3).
  rewrite (loop_order WithAllowedThemes FAllowedT _ _ (fun _ _ => eq_refl)
             (list_keys_trimmed _) H2).
  rewrite (loop_order WithPartTheme FPartTheme _ _ (fun _ _ => eq_refl)
             (comma_keys_trimmed _) H1).
  reflexivity.
Qed.

(** X17.  The response does not depend on the order in which Go visits the
    entries of the four maps parsed off the query. *)
Theorem handler_ignores_map_order (it1 it2 : iteration) (get : string -> string) :
  iterates it1 get -> iterates it2 get ->
  handleAvatar it1 get = handleAvatar it2 get.
Proof.
  intros H1 H2. unfold handleAvatar. cbv zeta.
  destruct (String.eqb _ ""); [reflexivity|]. unfold Generate.
  now rewrite (optionsOf_config it1 get H1), (optionsOf_config it2 get H2).
Qed.

(** X18.  A request without a name, or with a blank one, is answered with
    status 400 whatever else it asks; any other answer is a document in
    its envelope, never an empty body; and the handler panics with
    [Generate] when the hash of the name leaves fewer than 12 digits. *)
Theorem handler_answers (it : iteration) (get : string -> string) :
  (strings_TrimSpace (get "name") = "" ->
   handleAvatar it get = Returns (HttpError "missing required 'name' parameter" 400))
  /\ (strings_TrimSpace (get "name") <> "" ->
      (forall r, handleAvatar it get = Returns r ->
                 exists inner, r = Svg (openTag +:+ inner +:+ closeTag))
      /\ (catalogComplete ->
          (12 <= List.length (spec_digits (strings_TrimSpace (get "name"))))%nat ->
          exists body, handleAvatar it get = Returns (Svg body))
      /\ ((List.length (spec_digits (strings_TrimSpace (get "name"))) < 12)%nat ->
          handleAvatar it get = Panics)).
Proof.
  unfold handleAvatar. cbv zeta. split.
  - intros ->. reflexivity.
  - intros Hne. destruct (String.eqb_spec (strings_TrimSpace (get "name")) "");
      [contradiction|].
    split; [|split].
    + intros r. unfold Generate.
      destruct (String.eqb_spec (strings_TrimSpace (get "name")) ""); [contradiction|].
      destruct (generateFromHash _ _) as [s|] eqn:E; [|discriminate].
      cbn [mbind outcome_mbind obind]. intros [= <-].
      destruct (generateFromHash_shape _ _ _ E) as (inner & ->). now exists inner.
    + intros Hcat Hlen.
      destruct (Generate_returns _ (optionsOf it get) Hne Hlen Hcat) as (sp & ->).
      cbn [mbind outcome_mbind obind]. now eexists.
    + intros Hlen. now rewrite (Generate_panics_on_short_seed _ _ Hne Hlen).
Qed.

End HandlerFacts.

(** ** The further properties on examples *)

Lemma disjoint_options_commute_witness :
  applyOptions (tables := asciiOnly) [WithPartTheme "eyes" "C"; WithPartVersion "top" "07"]
  = applyOptions (tables := asciiOnly) [WithPartVersion "top" "07"; WithPartTheme "eyes" "C"].
Proof.
  refine (proj1 (disjoint_options_commute (tables := asciiOnly) (catalog := exampleCatalog)
                   [WithPartTheme "eyes" "C"; WithPartVersion "top" "07"]
                   [WithPartVersion "top" "07"; WithPartTheme "eyes" "C"] _ _)).
  - intros o1 o2 [<-|[<-|[]]] [<-|[<-|[]]];
      [now left | right | right | now left];
      intros w [<-|[]] [E|[]]; discriminate E.
  - apply perm_swap.
Defined.

Lemma later_option_overrides_witness :
  applyOption (tables := asciiOnly) (WithPartVersion " eyes " "11")
    (applyOption (tables := asciiOnly) (WithPartVersion "eyes" "03") zeroConfig)
  = applyOption (tables := asciiOnly) (WithPartVersion " eyes " "11") zeroConfig.
Proof.
  apply (later_option_overrides (tables := asciiOnly)); vm_compute; reflexivity.
Defined.

Lemma unisex_after_gender_witness :
  resolveTheme
    (applyOption (tables := asciiOnly) (WithGender "robot")
       (applyOption (tables := asciiOnly) (WithGender "Female") zeroConfig))
    "top" 10 "A"
  = Returns "C".
Proof.
  assert (accepted (tables := asciiOnly) (WithGender "Female") = true) as H1
      by (vm_compute; reflexivity).
  assert (accepted (tables := asciiOnly) (WithGender "robot") = false) as H2
      by (vm_compute; reflexivity).
  destruct (unisex_after_gender_keeps_themes (tables := asciiOnly)
              "Female" "robot" "top" zeroConfig 10 "A" H1 H2 (or_introl eq_refl)) as [H _].
  rewrite H. vm_compute. reflexivity.
Defined.

Lemma option_leaves_other_parts_witness :
  renderPart (catalog := exampleCatalog)
    (applyOption (tables := asciiOnly) (WithPartTheme "eyes" "C") zeroConfig) "top" 10
  = renderPart (catalog := exampleCatalog) zeroConfig "top" 10.
Proof.
  apply (option_leaves_other_parts (tables := asciiOnly) (catalog := exampleCatalog)).
  vm_compute. reflexivity.
Defined.

Lemma disabling_only_leaves_out_witness :
  "Binx Bond123" <> ""
  /\ Generate (tables := asciiOnly) (catalog := exampleCatalog) "Binx Bond123"
       [WithGender "f"; WithoutPart "top"; WithTheme "b"; WithoutBackground]
     = (sp ← fragmentsUnder (catalog := exampleCatalog)
                (applyOptions (tables := asciiOnly) [WithGender "f"; WithTheme "b"])
                "Binx Bond123";
        Returns (documentWithout ["env"; "top"] sp)).
Proof.
  assert ("Binx Bond123" <> "") as Hne by discriminate.
  split; [exact Hne|].
  exact (proj1 (proj2 (disabling_only_leaves_out (tables := asciiOnly)
                         (catalog := exampleCatalog) "Binx Bond123"
                         [WithGender "f"; WithoutPart "top"; WithTheme "b"; WithoutBackground]
                         Hne))).
Defined.

Lemma unknown_forced_version_witness :
  themes (Catalog := exampleCatalog) !! "16" = None
  /\ Generate (tables := asciiOnly) (catalog := exampleCatalog) "Binx Bond123"
       ([WithTheme "b"] ++ [WithPartVersion " eyes" "16"])
     = Generate (tables := asciiOnly) (catalog := exampleCatalog) "Binx Bond123"
         ([WithTheme "b"] ++ [WithoutPart " eyes"]).
Proof.
  assert ("Binx Bond123" <> "") as Hne by discriminate.
  assert (12 <= List.length (spec_digits "Binx Bond123"))%nat as Hlen
      by (vm_compute; lia).
  assert (themes (Catalog := exampleCatalog) !! "16" = None) as Hth
      by (vm_compute; reflexivity).
  split; [exact Hth|].
  exact (proj1 (unknown_forced_version_blanks_part (tables := asciiOnly)
                  (catalog := exampleCatalog) "Binx Bond123" [WithTheme "b"] " eyes" "16"
                  Hne Hlen exampleCatalog_complete eq_refl eq_refl Hth)).
Defined.

Lemma Generate_returns_witness :
  "Binx Bond123" <> ""
  /\ exists s, Generate (tables := asciiOnly) (catalog := exampleCatalog)
                 "Binx Bond123" [WithGender "male"] = Returns s.
Proof.
  assert ("Binx Bond123" <> "") as Hne by discriminate.
  split; [exact Hne|].
  apply (Generate_returns_iff (tables := asciiOnly) (catalog := exampleCatalog)
           "Binx Bond123" [WithGender "male"] Hne exampleCatalog_complete).
  vm_compute. lia.
Defined.

Lemma handler_ignores_map_order_witness :
  Server.handleAvatar (tables := asciiOnly) (catalog := exampleCatalog)
    (Server.Iteration [] [("top", ["A"; "C"])] [("eyes", "11"); ("top", "07")] [])
    exampleQuery
  = Server.handleAvatar (tables := asciiOnly) (catalog := exampleCatalog)
      (Server.Iteration [] [("top", ["A"; "C"])] [("top", "07"); ("eyes", "11")] [])
      exampleQuery.
Proof.
  apply (handler_ignores_map_order (tables := asciiOnly)
           (catalog := exampleCatalog));
    unfold Server.iterates; repeat split; vm_compute;
    first [apply Permutation_refl | apply perm_swap].
Defined.

Lemma handler_answers_witness :
  Server.handleAvatar (tables := asciiOnly) (catalog := exampleCatalog)
    (Server.sortedIteration blankQuery) blankQuery
  = Returns (Server.HttpError "missing required 'name' parameter" 400).
Proof.
  apply (proj1 (handler_answers (tables := asciiOnly) (catalog := exampleCatalog)
                  (Server.sortedIteration blankQuery) blankQuery)).
  vm_compute. reflexivity.
Defined.

Lemma query_words_witness :
  Server.parseKVComma "eyes:11, top : 07" !! "top" = Some "07"
  /\ Server.cleanWord "," "07".
Proof.
  assert (Server.parseKVComma "eyes:11, top : 07" !! "top" = Some "07") as H
      by (vm_compute; reflexivity).
  split; [exact H|].
  exact (proj2 (proj1 (proj2 (query_words_are_clean "eyes:11, top : 07"))
                  "top" "07" H)).
Defined.

